(** * rrrSnvs: clustering of samples by SNV genotype with bootstrap support

    A shallow embedding of [exec/vcfToMatrix.py] and of its sibling
    [exec/vcfToMatrix_2.py], with the properties of the membership
    resolver, the support calculator, the cluster collapser, the
    top-level splitter, the distance matrix builder, the quality filter,
    the bootstrap engine, the listing and the run of [main].

    Conventions of the embedding.
    - A Python [list] is a [list]; [l[i]] is [index l i], which raises
      [IndexError] out of range.  Node ids and sample indices are [nat].
    - A Python [dict] is a [gmap]; the keys of [parent_dict] are the
      string ['none'] or a node id ([key]), its values the string
      ['fork'] (['not a cluster'] in the sibling script) or a node id
      ([verdict]).
    - A numpy float is an [npfloat]: a rational, an infinity or NaN.
      Rounding to 53 bits is not represented; every comparison and every
      division by zero follows IEEE 754 (0/0 is NaN, a comparison
      with NaN is false).  A threshold is a rational.
    - An exception is a constructor of [exn]; code that may raise
      returns a [result].
    - scipy's [linkage], [cut_tree] and numpy's random generator are
      parameters of the sections that use them, and so is the plot
      (scipy's [dendrogram] and matplotlib); what pysam reads from the
      file is an argument.  Printing returns the lines printed. *)

From Stdlib Require Import QArith Qabs Lqa.
From stdpp Require Import gmap list sorting strings pretty.

(** ** The Python and numpy runtime *)

Inductive exn : Type :=
  | IndexError
  | KeyError
  | TypeError
  | AxisError
  | PoolValueError
  | ParentNotFound (parent_node : string)
  | NoCriteriaMet (cluster_num : nat)
  | SystemExit (msg : string).

Inductive result (A : Type) : Type :=
  | Ok (a : A)
  | Raise (e : exn).
Arguments Ok {A} a.
Arguments Raise {A} e.

Definition bind {A B : Type} (r : result A) (k : A → result B) : result B :=
  match r with
  | Ok a => k a
  | Raise e => Raise e
  end.

Notation "x ←! r ; k" := (bind r (λ x, k))
  (at level 20, r at level 100, k at level 200, right associativity,
   format "x  ←!  r ;  '/' k").

Fixpoint traverse {A B : Type} (f : A → result B) (l : list A) : result (list B) :=
  match l with
  | [] => Ok []
  | x :: l' => y ←! f x; ys ←! traverse f l'; Ok (y :: ys)
  end.

(** [l[i]] for a non-negative [i]. *)
Definition index {A : Type} (l : list A) (i : nat) : result A :=
  match l !! i with
  | Some x => Ok x
  | None => Raise IndexError
  end.

(** A numpy float64, without rounding. *)
Inductive npfloat : Type :=
  | NaN
  | Inf (negative : bool)
  | Num (q : Q).

#[global] Instance rational_eq_dec : EqDecision Q.
Proof. solve_decision. Defined.
#[global] Instance npfloat_eq_dec : EqDecision npfloat.
Proof. solve_decision. Defined.

Definition Qlt_bool (x y : Q) : bool :=
  (Qnum x * QDen y <? Qnum y * QDen x)%Z.

(** [a >= b] and [a < b] where [b] is a finite number. *)
Definition ge_float (a : npfloat) (b : Q) : bool :=
  match a with
  | NaN => false
  | Inf negative => negb negative
  | Num q => Qle_bool b q
  end.

Definition lt_float (a : npfloat) (b : Q) : bool :=
  match a with
  | NaN => false
  | Inf negative => negative
  | Num q => Qlt_bool q b
  end.

Definition gt_float (a : npfloat) (b : Q) : bool :=
  match a with
  | NaN => false
  | Inf negative => negb negative
  | Num q => Qlt_bool b q
  end.

Definition le_float (a : npfloat) (b : Q) : bool :=
  match a with
  | NaN => false
  | Inf negative => negative
  | Num q => Qle_bool q b
  end.

Definition isnan (a : npfloat) : bool :=
  match a with
  | NaN => true
  | _ => false
  end.

(** [x / n] for a float [x] that holds a non-negative number and an
    integer [n >= 0]: numpy warns and yields NaN for 0/0 and an
    infinity for x/0. *)
Definition true_divide (x : Q) (n : nat) : npfloat :=
  match n with
  | O => if Qeq_bool x 0 then NaN else Inf (Qlt_bool x 0)
  | S _ => Num (x / inject_Z (Z.of_nat n))
  end.

(** [a + b], [abs(a - b)] and [a / n] on floats. *)
Definition add_float (a b : npfloat) : npfloat :=
  match a, b with
  | NaN, _ | _, NaN => NaN
  | Inf s, Inf s' => if Bool.eqb s s' then Inf s else NaN
  | Inf s, Num _ | Num _, Inf s => Inf s
  | Num x, Num y => Num (x + y)
  end.

Definition abs_diff (a b : npfloat) : npfloat :=
  match a, b with
  | NaN, _ | _, NaN => NaN
  | Inf s, Inf s' => if Bool.eqb s s' then NaN else Inf false
  | Inf _, Num _ | Num _, Inf _ => Inf false
  | Num x, Num y => Num (Qabs (x - y))
  end.

Definition divide_float (a : npfloat) (n : nat) : npfloat :=
  match a with
  | NaN => NaN
  | Inf s => Inf s
  | Num x => true_divide x n
  end.

(** ** Arrays *)

(** A two-dimensional array as the list of its rows. *)
Definition entry (m : list (list npfloat)) (i j : nat) : npfloat :=
  default NaN (m !! i ≫= (.!! j)).

(** The three-dimensional array of differences, of shape (L, S, S):
    [n_cols] is S, kept apart because an array with no locus still has
    a shape, and [slices] are the L matrices along the first axis. *)
Record tensor : Type := Tensor {
  n_cols : nat;
  slices : list (list (list npfloat))
}.

(** Indexing with an array of positions that numpy computed from the
    same axis, so that every position is in range. *)
Definition at_positions {A : Type} (l : list A) (positions : list nat) : list A :=
  omap (l !!.) positions.

(** [np.where(mask)[0]] *)
Definition where_true {A : Type} (P : A → Prop) `{∀ x, Decision (P x)}
    (l : list A) : list nat :=
  fst <$> filter (λ p, P p.2) (imap pair l).

(** A genotype call: the allele indices of one sample at one record,
    [None] for a missing allele. *)
Definition pad_len_1_genotype (gt : list (option nat)) : list (option nat) :=
  match gt with
  | [a] => [a; Some 0]
  | _ => gt
  end.

(** [str] of an allele index. *)
Definition allele_str (a : option nat) : string :=
  match a with
  | Some n => pretty n
  | None => "None"
  end.

Definition dist_key_dict : gmap string npfloat :=
  {[ "00" := Num 0; "01" := Num 1; "10" := Num 1; "11" := Num 2;
     "(None, None)" := NaN ]}.

(** [dist_key_dict.get(''.join(map(str, gt)), np.nan)] of the padded call. *)
Definition genotype_code (gt : list (option nat)) : npfloat :=
  default NaN
    (dist_key_dict !! String.concat "" (allele_str <$> pad_len_1_genotype gt)).

(** [genotype_matrix[:, :, np.newaxis] - genotype_matrix[:, np.newaxis, :]]
    under [np.abs], one locus at a time. *)
Definition locus_differences (genotypes : list npfloat) : list (list npfloat) :=
  (λ a, (λ b, abs_diff a b) <$> genotypes) <$> genotypes.

(** [np.sum(~np.isnan(differences), axis=0)] at position (i, j). *)
Definition n_comps (differences : tensor) (i j : nat) : nat :=
  length (filter (λ m, isnan (entry m i j) = false) (slices differences)).

(** [np.nansum(differences, axis=0)] at position (i, j). *)
Definition nansum (differences : tensor) (i j : nat) : npfloat :=
  foldl (λ acc m, if isnan (entry m i j) then acc else add_float acc (entry m i j))
    (Num 0) (slices differences).

(** [filter_diff_matrix] is the same text in both scripts. *)
Definition filter_diff_matrix (differences : tensor) (samples : list string)
    (min_snvs : Z) : tensor * list string :=
  let n_snps_per_sample :=
    (λ i, n_comps differences i i) <$> seq 0 (n_cols differences) in
  let samples_to_keep :=
    where_true (λ n, (min_snvs ≤ Z.of_nat n)%Z) n_snps_per_sample in
  let samples := at_positions samples samples_to_keep in
  let kept := (λ m, (λ row, at_positions row samples_to_keep) <$> at_positions m samples_to_keep)
                <$> slices differences in
  (Tensor (length samples_to_keep) kept, samples).

(** The part of [get_diff_matrix_from_bcf] that both scripts share.
    Reading the file is pysam's: [samples] are the names in the header
    and [records] holds, for every record with a single alternate
    allele, the call of every sample.  With no record at all the matrix
    of genotype codes has one dimension and the sum along axis 1
    raises. *)
Definition filtered_differences (samples : list string)
    (records : list (list (list (option nat)))) (min_snvs : Z)
    (max_prop_missing : Q) : result (tensor * list string) :=
  let genotype_matrix := (λ calls, genotype_code <$> calls) <$> records in
  match genotype_matrix with
  | [] => Raise AxisError
  | _ =>
      let percent_missing :=
        (λ row, true_divide
                  (inject_Z (Z.of_nat (length (filter (λ g, isnan g = true) row))))
                  (length samples)) <$> genotype_matrix in
      let genotype_matrix :=
        at_positions genotype_matrix
          (where_true (λ pm, le_float pm max_prop_missing = true) percent_missing) in
      let differences :=
        Tensor (length samples) (locus_differences <$> genotype_matrix) in
      Ok (filter_diff_matrix differences samples min_snvs)
  end.

(** The quotient computed by [calc_proportion_dist_matrix]. *)
Definition proportion_matrix (differences : tensor) : list (list npfloat) :=
  (λ i, (λ j, divide_float (nansum differences i j) (n_comps differences i j * 2))
          <$> seq 0 (n_cols differences))
    <$> seq 0 (n_cols differences).

(** ** The merge tree and the membership table *)

(** One row of scipy's linkage matrix: the ids of the two merged
    clusters, the merge height and the size of the new cluster. *)
Record linkage_row : Type := LinkageRow {
  child1 : nat;
  child2 : nat;
  height : npfloat;
  n_obs : nat
}.

Definition children (row : linkage_row) : list nat := [child1 row; child2 row].

(** The body of the loop of [get_cluster_members]: the members of the
    two children, in the order of the row, appended and sorted. *)
Definition merged_members (cluster_members_by_id : list (list nat))
    (row : linkage_row) : result (list nat) :=
  all_members ←! traverse (index cluster_members_by_id) (children row);
  Ok (merge_sort le (concat all_members)).

Fixpoint get_cluster_members_loop (rows : list linkage_row)
    (cluster_members_by_id : list (list nat)) : result (list (list nat)) :=
  match rows with
  | [] => Ok cluster_members_by_id
  | row :: rest =>
      all_members ←! merged_members cluster_members_by_id row;
      get_cluster_members_loop rest (cluster_members_by_id ++ [all_members])
  end.

Definition get_cluster_members (hclust : list linkage_row) (n_samples : nat)
    : result (list (list nat)) :=
  get_cluster_members_loop hclust ((λ x, [x]) <$> seq 0 n_samples).

(** A well-formed binary merge tree over [n_samples] leaves: row [i]
    creates node [n_samples + i] from two nodes that exist already, and
    no node is merged twice. *)
Definition wf_merge_tree (n_samples : nat) (hclust : list linkage_row) : Prop :=
  (∀ i row, hclust !! i = Some row →
     child1 row < n_samples + i ∧ child2 row < n_samples + i) ∧
  NoDup (hclust ≫= children).

(** [child_of hclust n_samples c p]: node [p] was created by merging
    node [c] with another node. *)
Definition child_of (n_samples : nat) (hclust : list linkage_row) (c p : nat) : Prop :=
  ∃ i row, hclust !! i = Some row ∧ p = n_samples + i ∧ c ∈ children row.

(** ** The distance matrix and the bootstrap engine *)

Section random.
(** The global state of numpy's generator, and
    [np.random.choice(n, size=n, replace=True)] as a function of it. *)
Variable rng : Type.
Variable random_choice : rng → nat → list nat * rng.

(** [calc_proportion_dist_matrix] is the same text in both scripts.
    Division by zero is a warning in numpy, no exception. *)
Definition calc_proportion_dist_matrix (differences : tensor) (bootstrap : bool)
    (st : rng) : result (list (list npfloat) * rng) :=
  resampled ←!
    (if bootstrap then
       let '(positions, st) := random_choice st (length (slices differences)) in
       sampled ←! traverse (index (slices differences)) positions;
       Ok (Tensor (n_cols differences) sampled, st)
     else Ok (differences, st));
  Ok (proportion_matrix resampled.1, resampled.2).

(** scipy's [linkage] behind [hierarchical_clustering] ([squareform] in
    vcfToMatrix.py, [pdist] in vcfToMatrix_2.py): a function that may
    raise. *)
Variable hierarchical_clustering : list (list npfloat) → result (list linkage_row).

Definition get_one_bootstrap_cluster_members (differences : tensor) (st : rng)
    : result (list (list nat) * rng) :=
  dist ←! calc_proportion_dist_matrix differences true st;
  bootstrap_z ←! hierarchical_clustering dist.1;
  these_clusters ←! get_cluster_members bootstrap_z (n_cols differences);
  Ok (these_clusters, dist.2).

(** [np.random.seed(rand_seed)] replaces the global state by one that
    depends on the seed alone. *)
Variable random_seed : nat → rng.

Definition bootstrap_worker (rand_seed : nat) (differences : tensor) (st : rng)
    : result (list (list nat) * rng) :=
  let st := random_seed rand_seed in
  get_one_bootstrap_cluster_members differences st.

(** The member lists of replicate [i], a function of [i] and of the
    tensor alone. *)
Definition replicate_members (differences : tensor) (i : nat) : result (list (list nat)) :=
  done ←! bootstrap_worker i differences (random_seed i); Ok done.1.

(** [multiprocessing.Pool(processes=threads)] with [starmap] over
    [range(n_bootstrap)].  Which worker runs which task, and in what
    order, is the pool's choice: [schedule] lists the (worker, task)
    pairs in the order they run.  Each worker process has its own copy
    of the generator state; the results come back in task order. *)
Definition run_task (differences : tensor) (init : nat → rng)
    (pool : gmap nat rng * gmap nat (list (list nat))) (job : nat * nat)
    : result (gmap nat rng * gmap nat (list (list nat))) :=
  let st := default (init job.1) (pool.1 !! job.1) in
  done ←! bootstrap_worker job.2 differences st;
  Ok (<[job.1 := done.2]> pool.1, <[job.2 := done.1]> pool.2).

Fixpoint run_schedule (differences : tensor) (init : nat → rng)
    (schedule : list (nat * nat))
    (pool : gmap nat rng * gmap nat (list (list nat)))
    : result (gmap nat rng * gmap nat (list (list nat))) :=
  match schedule with
  | [] => Ok pool
  | job :: rest =>
      pool ←! run_task differences init pool job;
      run_schedule differences init rest pool
  end.

Definition get_bootstrap_cluster_members (differences : tensor)
    (n_bootstrap threads : nat) (schedule : list (nat * nat)) (init : nat → rng)
    : result (list (list (list nat))) :=
  if decide (threads = 0) then Raise PoolValueError
  else
    pool ←! run_schedule differences init schedule (∅, ∅);
    traverse (λ i, match pool.2 !! i with
                   | Some r => Ok r
                   | None => Raise KeyError
                   end) (seq 0 n_bootstrap).

(** The first two steps of [main] after the quality filter. *)
Definition main_clustering (differences : tensor) (st : rng)
    : result (list linkage_row * rng) :=
  dist ←! calc_proportion_dist_matrix differences false st;
  hclust_out ←! hierarchical_clustering dist.1;
  Ok (hclust_out, dist.2).

End random.

(** A schedule the pool can choose: every task once, every worker one
    of the pool's. *)
Definition valid_schedule (n_bootstrap threads : nat) (schedule : list (nat * nat))
    : Prop :=
  schedule.*2 ≡ₚ seq 0 n_bootstrap ∧ Forall (λ job, job.1 < threads) schedule.

(** ** The support calculator *)

(** [counts[true_clusters.index(cluster)] += 1]; [index] returns the
    first position that holds an equal list. *)
Definition increment_at (true_clusters : list (list nat)) (cluster : list nat)
    (counts : list nat) : list nat :=
  match list_find (λ c, c = cluster) true_clusters with
  | Some (i, _) => alter S i counts
  | None => counts
  end.

Definition divide_counts (counts : list nat) (n : nat) : list npfloat :=
  (λ c, true_divide (inject_Z (Z.of_nat c)) n) <$> counts.

(** ** Parents in the membership table *)

(** A key of [parent_dict]: the string ['none'] or a node id. *)
Inductive key : Type :=
  | KNone
  | KNode (node_id : nat).

(** A value of [parent_dict]: the string ['fork'] (['not a cluster'] in
    the sibling script) or the id of a finalized cluster. *)
Inductive verdict : Type :=
  | Fork
  | Own (cluster_num : nat).

#[global] Instance key_eq_dec : EqDecision key.
Proof. solve_decision. Defined.
#[global] Instance verdict_eq_dec : EqDecision verdict.
Proof. solve_decision. Defined.

Definition key_to_option (k : key) : option nat :=
  match k with
  | KNone => None
  | KNode n => Some n
  end.
Definition key_of_option (o : option nat) : key :=
  match o with
  | None => KNone
  | Some n => KNode n
  end.
Definition verdict_to_option (v : verdict) : option nat :=
  match v with
  | Fork => None
  | Own n => Some n
  end.
Definition verdict_of_option (o : option nat) : verdict :=
  match o with
  | None => Fork
  | Some n => Own n
  end.

#[global] Instance key_countable : Countable key.
Proof. apply (inj_countable' key_to_option key_of_option). by intros []. Defined.
#[global] Instance verdict_countable : Countable verdict.
Proof. apply (inj_countable' verdict_to_option verdict_of_option). by intros []. Defined.

(** How a key is printed inside an f-string. *)
Definition key_str (k : key) : string :=
  match k with
  | KNone => "none"
  | KNode n => pretty n
  end.

(** The loop of [find_parent_node] from position [i] on: [later] holds
    [true_clusters[i:]] and [x] is [true_clusters[node_id][0]]. *)
Fixpoint find_parent_scan (x : nat) (i : nat) (later : list (list nat)) : key :=
  match later with
  | [] => KNone
  | members :: rest =>
      if bool_decide (x ∈ members) then KNode i
      else find_parent_scan x (S i) rest
  end.

(** [find_parent_node] is the same text in both scripts.  The first
    member of the node is read inside the loop: when the range is empty
    it is never read. *)
Definition find_parent_node (node_id : nat) (true_clusters : list (list nat))
    : result key :=
  match drop (S node_id) true_clusters with
  | [] => Ok KNone
  | later =>
      members ←! index true_clusters node_id;
      x ←! index members 0;
      Ok (find_parent_scan x (S node_id) later)
  end.

(** [set(parent_dict.values())], the removal of the fork marker (a
    [KeyError] when it is absent) and the final list comprehension.  The
    order in which Python iterates over a set is not specified;
    [elements] fixes one. *)
Definition clusters_of_verdicts (true_clusters : list (list nat))
    (parent_dict : gmap key verdict) : result (list (list nat)) :=
  let clusters : gset verdict := list_to_set (snd <$> map_to_list parent_dict) in
  if decide (Fork ∈ clusters) then
    traverse (λ v, match v with
                   | Own x => index true_clusters x
                   | Fork => Raise TypeError
                   end) (elements (clusters ∖ {[Fork]}))
  else Raise KeyError.

(** [compress(range(len(labels)), labels == label)] *)
Definition compress_label (labels : list nat) (label : nat) : list nat :=
  fst <$> filter (λ p, p.2 = label) (imap pair labels).

(** ** Dictionaries that are iterated over *)

(** A Python [dict] whose order matters: the pairs in the order in which
    their keys were first inserted.  [d[k] = v] keeps the place of a key
    that is present and appends a new one; [d[k]] raises [KeyError] for
    a missing key. *)
Fixpoint dict_set {V : Type} (d : list (string * V)) (k : string) (v : V)
    : list (string * V) :=
  match d with
  | [] => [(k, v)]
  | (k', v') :: rest =>
      if decide (k' = k) then (k, v) :: rest else (k', v') :: dict_set rest k v
  end.

Fixpoint dict_get {V : Type} (d : list (string * V)) (k : string) : result V :=
  match d with
  | [] => Raise KeyError
  | (k', v') :: rest => if decide (k' = k) then Ok v' else dict_get rest k
  end.

(** A [for] loop whose body may raise. *)
Fixpoint foldl_result {A B : Type} (f : A → B → result A) (a : A) (l : list B)
    : result A :=
  match l with
  | [] => Ok a
  | x :: l' => a' ←! f a x; foldl_result f a' l'
  end.

(** ** vcfToMatrix.py *)

Module vcfToMatrix.

(** The body of the inner loop of [calculate_bootstrap_values]. *)
Definition count_cluster (true_clusters : list (list nat)) (counts : list nat)
    (cluster : list nat) : list nat :=
  if bool_decide (cluster ∈ true_clusters) && bool_decide (1 < length cluster)
  then increment_at true_clusters cluster counts
  else counts.

Definition calculate_bootstrap_values (true_clusters : list (list nat))
    (bootstrap_clusters : list (list (list nat))) : list npfloat :=
  let counts :=
    foldl (λ counts one_bootstrap, foldl (count_cluster true_clusters) counts one_bootstrap)
      (replicate (length true_clusters) 0) bootstrap_clusters in
  divide_counts counts (length bootstrap_clusters).

Definition is_parent_a_fork (parent_dict : gmap key verdict) (node_id : nat)
    (true_clusters : list (list nat)) : result bool :=
  parent_node ←! find_parent_node node_id true_clusters;
  match parent_dict !! parent_node with
  | Some v => Ok (bool_decide (v = Fork))
  | None => Raise (ParentNotFound (key_str parent_node))
  end.

(** One iteration of the loop of [collapse_clusters]. *)
Definition collapse_step (true_clusters : list (list nat))
    (bootstrap_values : list npfloat) (threshold : Q)
    (parent_dict : gmap key verdict) (cluster_num : nat)
    : result (gmap key verdict) :=
  parent_is_fork ←! is_parent_a_fork parent_dict cluster_num true_clusters;
  my_bootstrap ←! index bootstrap_values cluster_num;
  if parent_is_fork then
    if ge_float my_bootstrap threshold then
      Ok (<[KNode cluster_num := Fork]> parent_dict)
    else if lt_float my_bootstrap threshold then
      Ok (<[KNode cluster_num := Own cluster_num]> parent_dict)
    else Ok parent_dict
  else
    parent_node ←! find_parent_node cluster_num true_clusters;
    match parent_dict !! parent_node with
    | Some v => Ok (<[KNode cluster_num := v]> parent_dict)
    | None => Raise KeyError
    end.

(** [for cluster_num in range(n - 1, -1, -1)] *)
Fixpoint collapse_loop (true_clusters : list (list nat))
    (bootstrap_values : list npfloat) (threshold : Q)
    (n : nat) (parent_dict : gmap key verdict) : result (gmap key verdict) :=
  match n with
  | O => Ok parent_dict
  | S cluster_num =>
      parent_dict ←! collapse_step true_clusters bootstrap_values threshold
                       parent_dict cluster_num;
      collapse_loop true_clusters bootstrap_values threshold cluster_num parent_dict
  end.

Definition collapse_clusters (true_clusters : list (list nat))
    (bootstrap_values : list npfloat) (threshold : Q)
    : result (list (list nat)) :=
  parent_dict ←! collapse_loop true_clusters bootstrap_values threshold
                   (length bootstrap_values) {[KNone := Fork]};
  clusters_of_verdicts true_clusters parent_dict.

Section top_level.
(** scipy's [cut_tree(hclust, n_clusters)], flattened: one label per sample. *)
Variable cut_tree : list linkage_row → nat → list nat.

Definition collapse_top_lvl_clusters (hclust : list linkage_row)
    (bootstrap_values : list npfloat) (threshold : Q)
    : result (list (list nat)) :=
  let top_lvl := length bootstrap_values - 1 in
  top ←! index bootstrap_values top_lvl;
  if ge_float top threshold then
    let split_clusters := cut_tree hclust 2 in
    Ok [compress_label split_clusters 0; compress_label split_clusters 1]
  else
    Ok [seq 0 (length bootstrap_values)].
End top_level.

(** [[[str(samples[x]) for x in cluster] for cluster in clusters]] of [main] *)
Definition clusters_with_names (samples : list string) (clusters : list (list nat))
    : result (list (list string)) :=
  traverse (traverse (index samples)) clusters.

Definition get_diff_matrix_from_bcf (bcf_file : string) (samples : list string)
    (records : list (list (list (option nat)))) (min_snvs_for_cluster : Z)
    (max_prop_missing : Q) : result (tensor * list string) :=
  filtered ←! filtered_differences samples records min_snvs_for_cluster
                max_prop_missing;
  if decide (n_cols filtered.1 = 0) then
    Raise (SystemExit ("No clusters with at least " +:+ pretty min_snvs_for_cluster
                       +:+ " SNVs for " +:+ bcf_file))
  else Ok filtered.

(** *** The listing and [main] *)

(** The value of a sample in [cluster_name_dict]: a dictionary with the
    entry ['all_groups'] and, once the second loop has met the sample,
    the entry ['top_lvl_groups']. *)
Record group_names : Type := GroupNames {
  all_groups : string;
  top_lvl_groups : option string
}.

(** The tab of the f-string. *)
Definition tab : string := String (Ascii.ascii_of_nat 9) "".

(** The body of the second loop of [print_cluster_names]. *)
Definition set_top_lvl_group (i : nat) (cluster_name_dict : list (string * group_names))
    (sample : string) : result (list (string * group_names)) :=
  names ←! dict_get cluster_name_dict sample;
  Ok (dict_set cluster_name_dict sample
        (GroupNames (all_groups names) (Some ("top_lvl_group" +:+ pretty i)))).

(** The line printed for [this_key]. *)
Definition format_row (cluster_name_dict : list (string * group_names))
    (this_key : string) : result string :=
  names ←! dict_get cluster_name_dict this_key;
  match top_lvl_groups names with
  | Some top => Ok (this_key +:+ tab +:+ all_groups names +:+ tab +:+ top)
  | None => Raise KeyError
  end.

(** The third loop: the lines printed, and how the loop ended. *)
Fixpoint print_rows (cluster_name_dict : list (string * group_names))
    (keys : list string) : list string * result unit :=
  match keys with
  | [] => ([], Ok ())
  | this_key :: rest =>
      match format_row cluster_name_dict this_key with
      | Ok line =>
          let printed := print_rows cluster_name_dict rest in
          (line :: printed.1, printed.2)
      | Raise e => ([], Raise e)
      end
  end.

(** [print_cluster_names]: the first loop gives every sample of a
    cluster a fresh dictionary, the second adds the top-level group to the
    dictionary of a sample that has one, the third prints. *)
Definition print_cluster_names
    (clusters_with_names top_lvl_clusters_with_names : list (list string))
    : list string * result unit :=
  let cluster_name_dict :=
    foldl (λ d cluster,
             foldl (λ d sample,
                      dict_set d sample (GroupNames ("group" +:+ pretty cluster.1) None))
               d cluster.2)
      [] (imap pair clusters_with_names) in
  match foldl_result (λ d cluster, foldl_result (set_top_lvl_group cluster.1) d cluster.2)
          cluster_name_dict (imap pair top_lvl_clusters_with_names) with
  | Ok cluster_name_dict => print_rows cluster_name_dict (cluster_name_dict.*1)
  | Raise e => ([], Raise e)
  end.

Section main.
Variable rng : Type.
Variable random_choice : rng → nat → list nat * rng.
Variable hierarchical_clustering : list (list npfloat) → result (list linkage_row).
Variable random_seed : nat → rng.
Variable cut_tree : list linkage_row → nat → list nat.
(** [plt.figure], [plot_dendro_with_bootstrap_values], [tight_layout] and
    [savefig]: scipy's [dendrogram] and matplotlib, which may raise. *)
Variable plot_dendro_with_bootstrap_values :
  list linkage_row → list npfloat → list string → result unit.

(** [main]: the lines written to the standard output, and how the run
    ended.  [samples] and [records] are what pysam reads from [bcf_file];
    [schedule] and [init] are the choices of the pool of processes. *)
Definition main (bcf_file : string) (samples : list string)
    (records : list (list (list (option nat)))) (min_snvs_for_cluster : Z)
    (max_prop_missing : Q) (n_bootstrap processes : nat) (bootstrap_threshold : Q)
    (schedule : list (nat * nat)) (init : nat → rng) (st : rng)
    : list string * result unit :=
  match
    filtered ←! get_diff_matrix_from_bcf bcf_file samples records
                  min_snvs_for_cluster max_prop_missing;
    let differences := filtered.1 in
    let samples := filtered.2 in
    clustered ←! main_clustering rng random_choice hierarchical_clustering
                   differences st;
    let hclust_out := clustered.1 in
    original_clusters ←! get_cluster_members hclust_out (length samples);
    bootstrap_clusters ←!
      get_bootstrap_cluster_members rng random_choice hierarchical_clustering
        random_seed differences n_bootstrap processes schedule init;
    let bootstrap_values :=
      calculate_bootstrap_values original_clusters bootstrap_clusters in
    _ ←! plot_dendro_with_bootstrap_values hclust_out bootstrap_values samples;
    collapsed_clusters ←!
      collapse_clusters original_clusters bootstrap_values
        bootstrap_threshold;
    top_lvl_clusters ←!
      collapse_top_lvl_clusters cut_tree hclust_out bootstrap_values
        bootstrap_threshold;
    with_names ←! clusters_with_names samples collapsed_clusters;
    top_lvl_with_names ←! clusters_with_names samples top_lvl_clusters;
    Ok (with_names, top_lvl_with_names)
  with
  | Ok names => print_cluster_names names.1 names.2
  | Raise e => ([], Raise e)
  end.

End main.

End vcfToMatrix.

(** ** vcfToMatrix_2.py *)

Module vcfToMatrix_2.

(** The body of the inner loop of [calculate_bootstrap_values]: no test
    on the size of the cluster. *)
Definition count_cluster (true_clusters : list (list nat)) (counts : list nat)
    (cluster : list nat) : list nat :=
  if bool_decide (cluster ∈ true_clusters)
  then increment_at true_clusters cluster counts
  else counts.

Definition calculate_bootstrap_values (true_clusters : list (list nat))
    (bootstrap_clusters : list (list (list nat))) : list npfloat :=
  let counts :=
    foldl (λ counts one_bootstrap, foldl (count_cluster true_clusters) counts one_bootstrap)
      (replicate (length true_clusters) 0) bootstrap_clusters in
  divide_counts counts (length bootstrap_clusters).

Definition is_parent_a_cluster (parent_dict : gmap key verdict) (node_id : nat)
    (true_clusters : list (list nat)) : result bool :=
  parent_node ←! find_parent_node node_id true_clusters;
  match parent_dict !! parent_node with
  | Some v => Ok (bool_decide (v ≠ Fork) && bool_decide (parent_node ≠ KNone))
  | None => Raise (ParentNotFound (key_str parent_node))
  end.

(** [parent_dict[cluster_num] = parent_dict[find_parent_node(...)]], the
    body of the second and of the fourth branch. *)
Definition inherit (true_clusters : list (list nat))
    (parent_dict : gmap key verdict) (cluster_num : nat)
    : result (gmap key verdict) :=
  parent_node ←! find_parent_node cluster_num true_clusters;
  match parent_dict !! parent_node with
  | Some v => Ok (<[KNode cluster_num := v]> parent_dict)
  | None => Raise KeyError
  end.

Definition collapse_step (true_clusters : list (list nat))
    (bootstrap_values : list npfloat) (threshold : Q)
    (parent_dict : gmap key verdict) (cluster_num : nat)
    : result (gmap key verdict) :=
  parent_is_cluster ←! is_parent_a_cluster parent_dict cluster_num true_clusters;
  my_bootstrap ←! index bootstrap_values cluster_num;
  if gt_float my_bootstrap threshold && negb parent_is_cluster then
    Ok (<[KNode cluster_num := Fork]> parent_dict)
  else if gt_float my_bootstrap threshold && parent_is_cluster then
    inherit true_clusters parent_dict cluster_num
  else if lt_float my_bootstrap threshold && negb parent_is_cluster then
    Ok (<[KNode cluster_num := Own cluster_num]> parent_dict)
  else if lt_float my_bootstrap threshold && parent_is_cluster then
    inherit true_clusters parent_dict cluster_num
  else Raise (NoCriteriaMet cluster_num).

Fixpoint collapse_loop (true_clusters : list (list nat))
    (bootstrap_values : list npfloat) (threshold : Q)
    (n : nat) (parent_dict : gmap key verdict) : result (gmap key verdict) :=
  match n with
  | O => Ok parent_dict
  | S cluster_num =>
      parent_dict ←! collapse_step true_clusters bootstrap_values threshold
                       parent_dict cluster_num;
      collapse_loop true_clusters bootstrap_values threshold cluster_num parent_dict
  end.

Definition collapse_clusters (true_clusters : list (list nat))
    (bootstrap_values : list npfloat) (threshold : Q)
    : result (list (list nat)) :=
  parent_dict ←! collapse_loop true_clusters bootstrap_values threshold
                   (length bootstrap_values) {[KNone := Fork]};
  clusters_of_verdicts true_clusters parent_dict.

(** The filtered arrays are returned as they are. *)
Definition get_diff_matrix_from_bcf (bcf_file : string) (samples : list string)
    (records : list (list (list (option nat)))) (min_snvs_for_sample : Z)
    (max_prop_missing : Q) : result (tensor * list string) :=
  filtered_differences samples records min_snvs_for_sample max_prop_missing.

End vcfToMatrix_2.

(** ** Vocabulary of the statements *)

(** What [get_cluster_members] computes, as a relation between the
    merge tree and the table. *)
Definition is_table (n_samples : nat) (hclust : list linkage_row)
    (table : list (list nat)) : Prop :=
  length table = n_samples + length hclust ∧
  (∀ s, s < n_samples → table !! s = Some [s]) ∧
  (∀ i row, hclust !! i = Some row →
     ∃ ma mb, table !! child1 row = Some ma ∧ table !! child2 row = Some mb ∧
              table !! (n_samples + i) = Some (merge_sort le (ma ++ mb))).

(** The verdict the loop stores for node [n] whose parent holds [vp],
    when the support [b] of [n] is a number. *)
Definition verdict_for (threshold : Q) (vp : verdict) (b : npfloat) (n : nat) : verdict :=
  match vp with
  | Fork => if ge_float b threshold then Fork else Own n
  | Own c => Own c
  end.

(** The propagation rule at node [n], read off the final dictionary. *)
Definition follows_rule (true_clusters : list (list nat))
    (bootstrap_values : list npfloat) (threshold : Q)
    (parent_dict : gmap key verdict) (n : nat) : Prop :=
  ∃ parent vp support,
    find_parent_node n true_clusters = Ok parent ∧
    parent_dict !! parent = Some vp ∧
    bootstrap_values !! n = Some support ∧
    match vp with
    | Fork =>
        (ge_float support threshold = true → parent_dict !! KNode n = Some Fork) ∧
        (lt_float support threshold = true → parent_dict !! KNode n = Some (Own n))
    | Own c => parent_dict !! KNode n = Some (Own c)
    end.

(** Both scripts count with the same loop; they differ in the guard on
    the cluster. *)
Definition count_cluster_with (guard : list nat → bool)
    (true_clusters : list (list nat)) (counts : list nat) (cluster : list nat)
    : list nat :=
  if bool_decide (cluster ∈ true_clusters) && guard cluster
  then increment_at true_clusters cluster counts
  else counts.

(** [cluster] makes the count of node [i] grow. *)
Definition hit (guard : list nat → bool) (true_clusters : list (list nat))
    (i : nat) (cluster : list nat) : Prop :=
  guard cluster = true ∧
  fst <$> list_find (λ c, c = cluster) true_clusters = Some i.

#[local] Instance hit_dec guard true_clusters i cluster :
  Decision (hit guard true_clusters i cluster).
Proof. unfold hit. apply _. Defined.

Definition hits (guard : list nat → bool) (true_clusters : list (list nat))
    (i : nat) (one_bootstrap : list (list nat)) : nat :=
  length (filter (hit guard true_clusters i) one_bootstrap).

(** [clusters] is a partition of the samples [0 .. n_samples - 1]: two
    groups at different positions share no sample, the groups together
    hold exactly the samples, and no group lists a sample twice. *)
Definition is_partition (n_samples : nat) (clusters : list (list nat)) : Prop :=
  (∀ i j ci cj x, clusters !! i = Some ci → clusters !! j = Some cj →
                  x ∈ ci → x ∈ cj → i = j) ∧
  (∀ x, x < n_samples ↔ ∃ c, c ∈ clusters ∧ x ∈ c) ∧
  Forall NoDup clusters.

#[local] Instance Own_inj : Inj (=) (=) Own.
Proof. by intros ?? [=]. Qed.

(** The loci that pass the test on missing calls, as rows of genotype
    codes, and the number of those at which sample [i] has a call. *)
Definition retained_loci (samples : list string)
    (records : list (list (list (option nat)))) (max_prop_missing : Q)
    : list (list npfloat) :=
  filter (λ row : list npfloat, le_float
                   (true_divide
                      (inject_Z (Z.of_nat (length (filter (λ g, isnan g = true) row))))
                      (length samples)) max_prop_missing = true)
    ((λ calls : list (list (option nat)), genotype_code <$> calls) <$> records).

Definition n_called (loci : list (list npfloat)) (i : nat) : nat :=
  length (filter (λ row : list npfloat, isnan (default NaN (row !! i)) = false) loci).

(** A matrix of differences between the genotype codes of [n] samples
    at one locus: square, symmetric, with entries that are missing or lie
    between 0 and 2 and a diagonal that is missing or zero. *)
Definition difference_matrix (n : nat) (m : list (list npfloat)) : Prop :=
  length m = n ∧
  Forall (λ row, length row = n) m ∧
  (∀ i j, entry m i j = entry m j i) ∧
  (∀ i j, entry m i j = NaN ∨ ∃ q, entry m i j = Num q ∧ (0 <= q <= 2)%Q) ∧
  (∀ i, entry m i i = NaN ∨ ∃ q, entry m i i = Num q ∧ (q == 0)%Q).

Definition difference_tensor (differences : tensor) : Prop :=
  Forall (difference_matrix (n_cols differences)) (slices differences).

(** A matrix of proportions over [n] samples. *)
Definition proportion_distances (n : nat) (dist : list (list npfloat)) : Prop :=
  length dist = n ∧
  Forall (λ row, length row = n) dist ∧
  (∀ i j, entry dist i j = entry dist j i) ∧
  (∀ i j, entry dist i j = NaN ∨ ∃ q, entry dist i j = Num q ∧ (0 <= q <= 1)%Q) ∧
  (∀ i, entry dist i i = NaN ∨ ∃ q, entry dist i i = Num q ∧ (q == 0)%Q).

(** The highest nodes whose support misses the threshold: the support of
    [c] is below it and the support of every node above [c] meets it. *)
Definition boundary (n_samples : nat) (hclust : list linkage_row)
    (bootstrap_values : list npfloat) (threshold : Q) (c : nat) : Prop :=
  (∃ b, bootstrap_values !! c = Some b ∧ lt_float b threshold = true) ∧
  ∀ a b, a ≠ c → rtc (child_of n_samples hclust) c a →
         bootstrap_values !! a = Some b → ge_float b threshold = true.

(** The values of a genotype code. *)
Definition is_code (g : npfloat) : Prop := g = NaN ∨ g = Num 0 ∨ g = Num 1 ∨ g = Num 2.

(** The pairs (position of the group, member) of a list of groups, in
    the order of two nested loops. *)
Definition numbered {A : Type} (groups : list (list A)) : list (nat * A) :=
  imap pair groups ≫= λ group, pair group.1 <$> group.2.

(** Two rows that merge the same two nodes, in either order. *)
Definition same_merge (row row' : linkage_row) : Prop :=
  (child1 row = child1 row' ∧ child2 row = child2 row') ∨
  (child1 row = child2 row' ∧ child2 row = child1 row').

(** ** A small instance used in the examples *)

Module demo.

(** A generator whose state is a counter. *)
Definition random_choice (st : nat) (n : nat) : list nat * nat :=
  ((λ k, (st + k) `mod` n) <$> seq 0 n, S st).

Definition hierarchical_clustering (dist : list (list npfloat))
    : result (list linkage_row) :=
  Ok [LinkageRow 0 1 (entry dist 0 1) 2].

Definition random_seed (seed : nat) : nat := seed.

Definition differences : tensor :=
  Tensor 2 [[[Num 0; Num 1]; [Num 1; Num 0]]; [[Num 0; Num 2]; [Num 2; Num 0]]].

(** A cut that puts the first sample apart from the second, and a plot
    that succeeds. *)
Definition cut_tree (hclust : list linkage_row) (n_clusters : nat) : list nat := [0; 1].

Definition plot_dendro_with_bootstrap_values (hclust : list linkage_row)
    (bootstrap_values : list npfloat) (samples : list string) : result unit := Ok ().

End demo.

(** * Properties *)

(** ** The runtime *)

Lemma bind_Ok {A B} (r : result A) (k : A → result B) b :
  bind r k = Ok b ↔ ∃ a, r = Ok a ∧ k a = Ok b.
Proof. destruct r; simpl; naive_solver. Qed.

Lemma index_Ok {A} (l : list A) i x : index l i = Ok x ↔ l !! i = Some x.
Proof. unfold index. destruct (l !! i); naive_solver. Qed.

Lemma index_lookup {A} (l : list A) i x : l !! i = Some x → index l i = Ok x.
Proof. apply index_Ok. Qed.

Lemma elem_of_concat {A} (x : A) (ls : list (list A)) :
  x ∈ concat ls ↔ ∃ l, x ∈ l ∧ l ∈ ls.
Proof.
  induction ls as [|l ls IH]; simpl.
  - rewrite elem_of_nil. split; [done|]. intros (l & _ & Hl). by apply elem_of_nil in Hl.
  - rewrite elem_of_app, IH. split.
    + intros [?|(l' & ? & ?)]; [exists l; split; [done|left]|].
      exists l'. split; [done|by right].
    + intros (l' & Hx & [->|?]%elem_of_cons); [by left|]. right. by exists l'.
Qed.

(** ** The membership resolver *)

Example get_cluster_members_4 :
  get_cluster_members
    [LinkageRow 0 1 (Num 0.1) 2; LinkageRow 2 3 (Num 0.1) 2; LinkageRow 4 5 (Num 1) 4] 4
  = Ok [[0]; [1]; [2]; [3]; [0; 1]; [2; 3]; [0; 1; 2; 3]].
Proof. reflexivity. Qed.

Lemma merged_members_Ok acc row ma mb :
  acc !! child1 row = Some ma → acc !! child2 row = Some mb →
  merged_members acc row = Ok (merge_sort le (ma ++ mb)).
Proof.
  intros Ha Hb. unfold merged_members, children. simpl.
  rewrite (index_lookup _ _ _ Ha), (index_lookup _ _ _ Hb). simpl.
  by rewrite app_nil_r.
Qed.

Lemma get_cluster_members_loop_spec rows : ∀ acc,
  (∀ i row, rows !! i = Some row →
     child1 row < length acc + i ∧ child2 row < length acc + i) →
  ∃ table, get_cluster_members_loop rows acc = Ok table ∧
    length table = length acc + length rows ∧
    (∀ j, j < length acc → table !! j = acc !! j) ∧
    (∀ i row, rows !! i = Some row →
       ∃ ma mb, table !! child1 row = Some ma ∧ table !! child2 row = Some mb ∧
                table !! (length acc + i) = Some (merge_sort le (ma ++ mb))).
Proof.
  induction rows as [|row rest IH]; intros acc Hrange.
  - exists acc. simpl. split_and!; [done|lia|done|]. intros i row. by rewrite lookup_nil.
  - destruct (Hrange 0 row eq_refl) as [Ha Hb].
    rewrite Nat.add_0_r in Ha, Hb.
    destruct (lookup_lt_is_Some_2 acc _ Ha) as [ma Hma].
    destruct (lookup_lt_is_Some_2 acc _ Hb) as [mb Hmb].
    simpl. rewrite (merged_members_Ok _ _ _ _ Hma Hmb). simpl.
    destruct (IH (acc ++ [merge_sort le (ma ++ mb)])) as (table & Hrun & Hlen & Hold & Hnew).
    { intros i r Hr. rewrite length_app. simpl.
      specialize (Hrange (S i) r Hr). lia. }
    rewrite length_app in Hlen, Hold, Hnew. simpl in Hlen, Hold, Hnew.
    assert (Hprefix : ∀ j, j < length acc → table !! j = acc !! j).
    { intros j Hj. rewrite Hold by lia. by apply lookup_app_l. }
    exists table. split_and!; [done|simpl; lia|done|].
    intros [|i] r Hr; simpl in Hr.
    + injection Hr as <-. exists ma, mb.
      rewrite !Hprefix by done. split_and!; [done..|].
      rewrite Nat.add_0_r, Hold by lia. by rewrite list_lookup_middle.
    + destruct (Hnew i r Hr) as (ma' & mb' & ? & ? & Hi).
      exists ma', mb'. split_and!; [done..|].
      by replace (length acc + S i) with (length acc + 1 + i) by lia.
Qed.

Lemma get_cluster_members_table n_samples hclust :
  (∀ i row, hclust !! i = Some row →
     child1 row < n_samples + i ∧ child2 row < n_samples + i) →
  ∃ table, get_cluster_members hclust n_samples = Ok table ∧
           is_table n_samples hclust table.
Proof.
  intros Hrange. unfold get_cluster_members.
  destruct (get_cluster_members_loop_spec hclust ((λ x, [x]) <$> seq 0 n_samples))
    as (table & Hrun & Hlen & Hold & Hnew).
  { intros i row Hrow. rewrite length_fmap, length_seq. by apply Hrange. }
  rewrite length_fmap, length_seq in Hlen, Hold, Hnew.
  exists table. split; [done|]. split_and!; [done| |done].
  intros s Hs. rewrite Hold by done.
  by rewrite list_lookup_fmap, lookup_seq_lt.
Qed.

(** ** Parents *)

Lemma find_parent_scan_KNode x later : ∀ i p,
  find_parent_scan x i later = KNode p ↔
  ∃ j members, p = i + j ∧ later !! j = Some members ∧ x ∈ members ∧
    ∀ j' members', j' < j → later !! j' = Some members' → x ∉ members'.
Proof.
  induction later as [|m later IH]; intros i p; simpl.
  - split; [done|]. by intros (j & ? & _ & ? & _).
  - case_bool_decide as Hx.
    + split.
      * intros [= <-]. exists 0, m. split_and!; [lia|done|done|lia].
      * intros (j & members & -> & Hj & Hin & Hfirst).
        destruct j as [|j]; [f_equal; lia|].
        exfalso. by apply (Hfirst 0 m); [lia| |].
    + rewrite IH. split.
      * intros (j & members & -> & Hj & Hin & Hfirst).
        exists (S j), members. split_and!; [lia|done|done|].
        intros [|j'] members' Hlt Hj'; simpl in Hj'; [by simplify_eq|].
        apply (Hfirst j'); [lia|done].
      * intros (j & members & -> & Hj & Hin & Hfirst).
        destruct j as [|j]; simpl in Hj; [by simplify_eq|].
        exists j, members. split_and!; [lia|done|done|].
        intros j' members' Hlt Hj'. apply (Hfirst (S j')); [lia|done].
Qed.

Lemma find_parent_scan_KNone x later : ∀ i,
  find_parent_scan x i later = KNone ↔ ∀ members, members ∈ later → x ∉ members.
Proof.
  induction later as [|m later IH]; intros i; simpl.
  - split; [|done]. intros _ members. by rewrite elem_of_nil.
  - case_bool_decide as Hx.
    + split; [done|]. intros Hall. exfalso. apply (Hall m); [left|done].
    + rewrite IH. split.
      * intros Hall members [->|?]%elem_of_cons; eauto.
      * intros Hall members Hin. apply Hall. by right.
Qed.

(** The three ways [find_parent_node] can end. *)
Lemma find_parent_node_cases node_id true_clusters :
  (length true_clusters ≤ S node_id ∧
     find_parent_node node_id true_clusters = Ok KNone) ∨
  (S node_id < length true_clusters ∧ true_clusters !! node_id = Some [] ∧
     find_parent_node node_id true_clusters = Raise IndexError) ∨
  (∃ x rest, S node_id < length true_clusters ∧
     true_clusters !! node_id = Some (x :: rest) ∧
     find_parent_node node_id true_clusters =
       Ok (find_parent_scan x (S node_id) (drop (S node_id) true_clusters))).
Proof.
  unfold find_parent_node.
  destruct (drop (S node_id) true_clusters) as [|m later] eqn:Hdrop.
  - left. split; [|done]. apply (f_equal length) in Hdrop.
    rewrite length_drop in Hdrop. simpl in Hdrop. lia.
  - right. assert (Hlt : S node_id < length true_clusters).
    { apply (f_equal length) in Hdrop. rewrite length_drop in Hdrop.
      simpl in Hdrop. lia. }
    destruct (lookup_lt_is_Some_2 true_clusters node_id) as [members Hm]; [lia|].
    rewrite (index_lookup _ _ _ Hm). simpl.
    destruct members as [|x rest]; [left; by split_and!|].
    right. exists x, rest. by split_and!.
Qed.

Lemma find_parent_node_range node_id true_clusters p :
  find_parent_node node_id true_clusters = Ok (KNode p) →
  node_id < p < length true_clusters.
Proof.
  destruct (find_parent_node_cases node_id true_clusters)
    as [[_ ->]|[(_ & _ & ->)|(x & rest & _ & _ & ->)]]; [done..|].
  intros [= (j & members & -> & Hj & _)%find_parent_scan_KNode].
  rewrite lookup_drop in Hj. apply lookup_lt_Some in Hj. lia.
Qed.

Lemma find_parent_node_exn node_id true_clusters e :
  find_parent_node node_id true_clusters = Raise e →
  e = IndexError ∧ true_clusters !! node_id = Some [].
Proof.
  destruct (find_parent_node_cases node_id true_clusters)
    as [[_ ->]|[(_ & ? & ->)|(x & rest & _ & _ & ->)]]; [done| |done].
  by intros [= <-].
Qed.

(** ** Comparisons of floats *)

Lemma ge_float_false_lt b threshold :
  b ≠ NaN → ge_float b threshold = false → lt_float b threshold = true.
Proof.
  destruct b as [|[]|q]; simpl; [done..|]. intros _.
  unfold Qle_bool, Qlt_bool. rewrite Z.leb_gt. by rewrite <-Z.ltb_lt.
Qed.

Lemma lt_float_not_ge b threshold :
  lt_float b threshold = true → ge_float b threshold = false.
Proof.
  destruct b as [|[]|q]; simpl; [done..|].
  unfold Qle_bool, Qlt_bool. rewrite Z.ltb_lt. by rewrite <-Z.leb_gt.
Qed.

Lemma ge_float_Num q threshold : ge_float (Num q) threshold = true ↔ (threshold <= q)%Q.
Proof. simpl. apply Qle_bool_iff. Qed.

Lemma lt_float_Num q threshold : lt_float (Num q) threshold = true ↔ (q < threshold)%Q.
Proof. simpl. unfold Qlt_bool, Qlt. apply Z.ltb_lt. Qed.

(** ** The loop of the collapser *)

Section collapse.
Import vcfToMatrix.
Variables (true_clusters : list (list nat)) (bootstrap_values : list npfloat).
Variable threshold : Q.
Hypothesis Hlen : length true_clusters ≤ length bootstrap_values.
Hypothesis Hnan : NaN ∉ bootstrap_values.

Local Abbreviation step := (collapse_step true_clusters bootstrap_values threshold).
Local Abbreviation loop := (collapse_loop true_clusters bootstrap_values threshold).

Lemma collapse_step_cases parent_dict k :
  k < length bootstrap_values →
  parent_dict !! KNone = Some Fork →
  (∀ m, k < m < length bootstrap_values → is_Some (parent_dict !! KNode m)) →
  (step parent_dict k = Raise IndexError ∧ true_clusters !! k = Some []) ∨
  (∃ parent vp b,
     find_parent_node k true_clusters = Ok parent ∧
     parent_dict !! parent = Some vp ∧ bootstrap_values !! k = Some b ∧
     step parent_dict k = Ok (<[KNode k := verdict_for threshold vp b k]> parent_dict)).
Proof.
  intros Hk Hnone Hdom. unfold collapse_step, is_parent_a_fork.
  destruct (find_parent_node k true_clusters) as [parent|e] eqn:Hparent; simpl.
  - right. assert (is_Some (parent_dict !! parent)) as [vp Hvp].
    { destruct parent as [|p]; [by eexists|].
      apply find_parent_node_range in Hparent. apply Hdom. lia. }
    destruct (lookup_lt_is_Some_2 bootstrap_values k Hk) as [b Hb].
    exists parent, vp, b. split_and!; [done..|].
    rewrite Hvp. simpl. rewrite (index_lookup _ _ _ Hb). simpl.
    destruct vp as [|c]; simpl.
    + destruct (ge_float b threshold) eqn:Hge; [done|].
      rewrite ge_float_false_lt; [done| |done].
      intros ->. apply Hnan. by eapply list_elem_of_lookup_2.
    + done.
  - left. by apply find_parent_node_exn in Hparent as [-> ?].
Qed.

Lemma collapse_loop_cases k : ∀ parent_dict,
  k ≤ length bootstrap_values →
  parent_dict !! KNone = Some Fork →
  (∀ m, k ≤ m < length bootstrap_values → is_Some (parent_dict !! KNode m)) →
  (loop k parent_dict = Raise IndexError ∧ ∃ n, n < k ∧ true_clusters !! n = Some []) ∨
  (∃ final, loop k parent_dict = Ok final ∧
     final !! KNone = Some Fork ∧
     (∀ m, k ≤ m → final !! KNode m = parent_dict !! KNode m) ∧
     (∀ n, n < k → ∃ parent vp b,
        find_parent_node n true_clusters = Ok parent ∧
        final !! parent = Some vp ∧ bootstrap_values !! n = Some b ∧
        final !! KNode n = Some (verdict_for threshold vp b n))).
Proof.
  induction k as [|k IH]; intros parent_dict Hk Hnone Hdom.
  - right. exists parent_dict. split_and!; [done..|]. lia.
  - destruct (collapse_step_cases parent_dict k) as [[Hstep Hempty]|Hstep]; [lia|done| | |].
    { intros m Hm. apply Hdom. lia. }
    { left. simpl. rewrite Hstep. split; [done|]. exists k. split; [lia|done]. }
    destruct Hstep as (parent & vp & b & Hparent & Hvp & Hb & Hstep).
    simpl. rewrite Hstep. simpl.
    set (pd1 := <[KNode k := verdict_for threshold vp b k]> parent_dict).
    destruct (IH pd1) as [[Hloop (n & Hn & Hempty)]|Hloop]; [lia| | | |].
    { unfold pd1. by rewrite lookup_insert_ne. }
    { intros m Hm. unfold pd1. destruct (decide (m = k)) as [->|Hne].
      - rewrite lookup_insert_eq. by eexists.
      - rewrite lookup_insert_ne by congruence. apply Hdom. lia. }
    { left. split; [done|]. exists n. split; [lia|done]. }
    destruct Hloop as (final & Hloop & Hfnone & Hframe & Hrule).
    right. exists final. split_and!; [done..| |].
    + intros m Hm. rewrite Hframe by lia. unfold pd1.
      rewrite lookup_insert_ne; [done|]. intros [=]. lia.
    + intros n Hn. destruct (decide (n = k)) as [->|Hne]; [|apply Hrule; lia].
      exists parent, vp, b. split_and!; [done| |done|].
      * destruct parent as [|p]; [congruence|].
        apply find_parent_node_range in Hparent.
        rewrite Hframe by lia. unfold pd1.
        rewrite lookup_insert_ne; [done|]. intros [=]. lia.
      * rewrite Hframe by lia. unfold pd1. by rewrite lookup_insert_eq.
Qed.

(** The whole loop, from the initial dictionary. *)
Lemma collapse_loop_run :
  (loop (length bootstrap_values) {[KNone := Fork]} = Raise IndexError ∧
     [] ∈ true_clusters) ∨
  (∃ final, loop (length bootstrap_values) {[KNone := Fork]} = Ok final ∧
     final !! KNone = Some Fork ∧
     (∀ m, length bootstrap_values ≤ m → final !! KNode m = None) ∧
     (∀ n, n < length bootstrap_values → ∃ parent vp b,
        find_parent_node n true_clusters = Ok parent ∧
        final !! parent = Some vp ∧ bootstrap_values !! n = Some b ∧
        final !! KNode n = Some (verdict_for threshold vp b n))).
Proof.
  destruct (collapse_loop_cases (length bootstrap_values) {[KNone := Fork]})
    as [[Hloop (n & _ & Hempty)]|(final & Hloop & Hnone & Hframe & Hrule)];
    [lia|apply lookup_singleton_eq|intros; lia| |].
  - left. split; [done|]. by eapply list_elem_of_lookup_2.
  - right. exists final. split_and!; [done..| |done].
    intros m Hm. rewrite Hframe by done. by rewrite lookup_singleton_ne.
Qed.

(** Every id stored by the loop is the id of a node. *)
Lemma own_verdict_range (final : gmap key verdict) :
  final !! KNone = Some Fork →
  (∀ m, length bootstrap_values ≤ m → final !! KNode m = None) →
  (∀ n, n < length bootstrap_values → ∃ parent vp b,
     find_parent_node n true_clusters = Ok parent ∧
     final !! parent = Some vp ∧ bootstrap_values !! n = Some b ∧
     final !! KNode n = Some (verdict_for threshold vp b n)) →
  ∀ k c, final !! k = Some (Own c) → c < length bootstrap_values.
Proof.
  intros Hnone Houtside Hrule k c Hk. destruct k as [|n]; [congruence|].
  remember (length bootstrap_values - n) as d eqn:Hd. revert n Hd Hk.
  induction (lt_wf d) as [d _ IH]. intros n -> Hv.
  assert (Hn : n < length bootstrap_values).
  { destruct (decide (n < length bootstrap_values)); [done|].
    rewrite Houtside in Hv by lia. done. }
  destruct (Hrule n Hn) as (parent & vp & b & Hfind & Hvp & Hb & Hvn).
  rewrite Hv in Hvn. injection Hvn as Hvn.
  destruct vp as [|c']; simpl in Hvn.
  - destruct (ge_float b threshold); [done|]. by injection Hvn as ->.
  - injection Hvn as ->. destruct parent as [|p]; [congruence|].
    pose proof (find_parent_node_range _ _ _ Hfind) as Hp.
    apply (IH (length bootstrap_values - p)) with (n := p); [lia|done|done].
Qed.

End collapse.

(** ** The output of the collapser *)

Lemma traverse_Forall2 {A B} (f : A → result B) (R : A → B → Prop) l :
  (∀ x, x ∈ l → ∃ y, f x = Ok y ∧ R x y) →
  ∃ ys, traverse f l = Ok ys ∧ Forall2 R l ys.
Proof.
  induction l as [|x l IH]; intros Hf; simpl.
  - exists []. by split.
  - destruct (Hf x) as (y & -> & Hy); [left|].
    destruct IH as (ys & -> & Hys); [intros; apply Hf; by right|].
    exists (y :: ys). split; [done|]. by constructor.
Qed.

Lemma traverse_Ok_Forall2 {A B} (f : A → result B) l : ∀ ys,
  traverse f l = Ok ys → Forall2 (λ x y, f x = Ok y) l ys.
Proof.
  induction l as [|x l IH]; intros ys; simpl.
  - intros [= <-]. constructor.
  - intros (y & Hy & (ys' & Hys & [= <-])%bind_Ok)%bind_Ok.
    constructor; [done|by apply IH].
Qed.

Lemma traverse_Raise {A B} (f : A → result B) l e :
  traverse f l = Raise e → ∃ x, x ∈ l ∧ f x = Raise e.
Proof.
  induction l as [|x l IH]; simpl; [done|].
  destruct (f x) as [y|e'] eqn:Hx; simpl.
  - destruct (traverse f l) as [ys|e'] eqn:Hl; simpl; [done|].
    intros [= ->]. destruct IH as (x' & ? & ?); [done|].
    exists x'. split; [by right|done].
  - intros [= ->]. exists x. split; [left|done].
Qed.

Lemma verdicts_all_own (vs : list verdict) :
  Fork ∉ vs → vs = Own <$> omap verdict_to_option vs.
Proof.
  induction vs as [|[|b] vs IH]; intros Hf; simpl; [done| |].
  - exfalso. apply Hf. left.
  - f_equal. apply IH. intros ?. apply Hf. by right.
Qed.

Lemma elem_of_dict_values (parent_dict : gmap key verdict) v :
  v ∈ (list_to_set (snd <$> map_to_list parent_dict) : gset verdict) ↔
  ∃ k, parent_dict !! k = Some v.
Proof.
  rewrite elem_of_list_to_set, list_elem_of_fmap. split.
  - intros ([k v'] & -> & Hkv%elem_of_map_to_list). by exists k.
  - intros (k & Hk). exists (k, v). split; [done|]. by apply elem_of_map_to_list.
Qed.

(** The clusters returned are the member lists of the distinct ids
    stored in the dictionary, each once. *)
Lemma clusters_of_verdicts_spec true_clusters (parent_dict : gmap key verdict) :
  (∃ k, parent_dict !! k = Some Fork) →
  (∀ k b, parent_dict !! k = Some (Own b) → b < length true_clusters) →
  ∃ ids out, clusters_of_verdicts true_clusters parent_dict = Ok out ∧
    NoDup ids ∧
    (∀ b, b ∈ ids ↔ ∃ k, parent_dict !! k = Some (Own b)) ∧
    Forall2 (λ b members, true_clusters !! b = Some members) ids out.
Proof.
  intros Hfork Hrange. unfold clusters_of_verdicts.
  set (clusters := list_to_set (snd <$> map_to_list parent_dict) : gset verdict).
  rewrite decide_True by by apply elem_of_dict_values.
  set (vs := elements (clusters ∖ {[Fork]})).
  assert (Hvs : ∀ v, v ∈ vs ↔ (∃ k, parent_dict !! k = Some v) ∧ v ≠ Fork).
  { intros v. unfold vs. rewrite elem_of_elements, elem_of_difference.
    unfold clusters. rewrite elem_of_dict_values. set_solver. }
  assert (Hown : vs = Own <$> omap verdict_to_option vs).
  { apply verdicts_all_own. intros [_ ?]%Hvs. done. }
  assert (Hnodup : NoDup vs) by apply NoDup_elements.
  set (ids := omap verdict_to_option vs) in *. clearbody ids vs.
  subst vs. apply NoDup_fmap in Hnodup; [|apply _].
  destruct (traverse_Forall2
              (λ v, match v with
                    | Own x => index true_clusters x
                    | Fork => Raise TypeError
                    end)
              (λ v members, ∃ b, v = Own b ∧ true_clusters !! b = Some members)
              (Own <$> ids)) as (out & Hout & Hall).
  { intros v Hv. pose proof Hv as [(k & Hk) _]%Hvs.
    apply list_elem_of_fmap in Hv as (b & -> & _).
    destruct (lookup_lt_is_Some_2 true_clusters b) as [members Hm]; [by eauto|].
    exists members. rewrite (index_lookup _ _ _ Hm). eauto. }
  exists ids, out. split_and!; [done|done| |].
  - intros b. rewrite <-(list_elem_of_fmap_inj Own), Hvs. naive_solver.
  - apply Forall2_fmap_l in Hall. eapply Forall2_impl; [done|].
    simpl. by intros b members (? & [= <-] & ?).
Qed.

(** *** The shape of a well-formed tree *)

Section tree.
Variables (n_samples : nat) (hclust : list linkage_row) (table : list (list nat)).
Hypothesis Hwf : wf_merge_tree n_samples hclust.
Hypothesis Htable : is_table n_samples hclust table.

Local Abbreviation child := (child_of n_samples hclust).
Local Abbreviation ancestor := (rtc (child_of n_samples hclust)).

Lemma child_lt c p : child c p → c < p.
Proof.
  intros (i & row & Hrow & -> & Hc). destruct Hwf as [Hrange _].
  destruct (Hrange i row Hrow). unfold children in Hc.
  set_solver by lia.
Qed.

Lemma child_merge_node c p : child c p → n_samples ≤ p < length table.
Proof.
  intros (i & row & Hrow & -> & Hc). destruct Htable as [-> _].
  apply lookup_lt_Some in Hrow. lia.
Qed.

Lemma row_unique i j ri rj c :
  hclust !! i = Some ri → hclust !! j = Some rj →
  c ∈ children ri → c ∈ children rj → i = j.
Proof.
  destruct Hwf as [_ Hnodup]. revert Hnodup i j.
  generalize hclust as rows.
  induction rows as [|r rows IH]; intros Hnodup i j Hi Hj Hci Hcj; [done|].
  change ((r :: rows) ≫= children) with (children r ++ (rows ≫= children)) in Hnodup.
  apply NoDup_app in Hnodup as (_ & Hdisj & Hrest).
  destruct i as [|i], j as [|j]; simpl in Hi, Hj; simplify_eq; [done| | |].
  - exfalso. apply (Hdisj c Hci). apply list_elem_of_bind.
    exists rj. eauto using list_elem_of_lookup_2.
  - exfalso. apply (Hdisj c Hcj). apply list_elem_of_bind.
    exists ri. eauto using list_elem_of_lookup_2.
  - f_equal. eauto.
Qed.

Lemma child_functional c p p' : child c p → child c p' → p = p'.
Proof.
  intros (i & ri & Hi & -> & Hci) (j & rj & Hj & -> & Hcj).
  f_equal. eauto using row_unique.
Qed.

Lemma row_children_distinct i row :
  hclust !! i = Some row → child1 row ≠ child2 row.
Proof.
  destruct Hwf as [_ Hnodup]. revert Hnodup i.
  generalize hclust as rows.
  induction rows as [|r rows IH]; intros Hnodup i Hi; [done|].
  change ((r :: rows) ≫= children) with (children r ++ (rows ≫= children)) in Hnodup.
  apply NoDup_app in Hnodup as (Hr & _ & Hrest).
  destruct i as [|i]; simpl in Hi; [|by eauto].
  simplify_eq. unfold children in Hr.
  apply NoDup_cons in Hr as [Hr _]. set_solver.
Qed.

Lemma ancestor_le n m : ancestor n m → n ≤ m.
Proof.
  induction 1 as [|n p m Hc _ IH]; [done|]. apply child_lt in Hc. lia.
Qed.

Lemma ancestor_linear x m m' :
  ancestor x m → ancestor x m' → ancestor m m' ∨ ancestor m' m.
Proof.
  intros Hm. revert m'. induction Hm as [x|x p m Hc Hm IH]; intros m' Hm'.
  - by left.
  - apply rtc_inv in Hm' as [<-|(p' & Hc' & Hm')].
    + right. by eapply rtc_l.
    + rewrite <-(child_functional _ _ _ Hc Hc') in Hm'. by apply IH.
Qed.

Lemma ancestor_proper n m : ancestor n m → n ≠ m → ∃ p, child n p ∧ ancestor p m.
Proof. intros [?|?]%rtc_inv; naive_solver. Qed.

Lemma ancestor_leaf x m : ancestor x m → m < n_samples → x = m.
Proof.
  intros [?|(c & _ & Hc)]%rtc_inv_r Hm; [done|].
  apply child_merge_node in Hc. lia.
Qed.

(** The members of a node are the leaves below it. *)
Lemma elem_of_members m : ∀ members x,
  table !! m = Some members →
  x ∈ members ↔ x < n_samples ∧ ancestor x m.
Proof.
  induction (lt_wf m) as [m _ IH]. intros members x Hm.
  destruct Htable as (Hlen & Hleaf & Hmerge).
  destruct (decide (m < n_samples)) as [Hlt|Hge].
  - rewrite Hleaf in Hm by done. simplify_eq. rewrite list_elem_of_singleton.
    split; [by intros ->|]. intros [_ Hx]. by eapply ancestor_leaf.
  - assert (Hi : m - n_samples < length hclust).
    { apply lookup_lt_Some in Hm. lia. }
    destruct (lookup_lt_is_Some_2 _ _ Hi) as [row Hrow].
    destruct (Hmerge _ _ Hrow) as (ma & mb & Ha & Hb & Hm').
    replace (n_samples + (m - n_samples)) with m in Hm' by lia.
    simplify_eq. destruct Hwf as [Hrange _].
    destruct (Hrange _ _ Hrow) as [Hlta Hltb].
    rewrite merge_sort_Permutation, elem_of_app.
    rewrite (IH (child1 row)), (IH (child2 row)) by (done || lia).
    assert (Hca : child (child1 row) m).
    { exists (m - n_samples), row. unfold children. split_and!; [done|lia|set_solver]. }
    assert (Hcb : child (child2 row) m).
    { exists (m - n_samples), row. unfold children. split_and!; [done|lia|set_solver]. }
    split.
    + intros [[? ?]|[? ?]]; split; try done; by eapply rtc_r.
    + intros [Hx [->|(c & Hxc & Hc)]%rtc_inv_r]; [lia|].
      destruct Hc as (j & rj & Hj & Hmj & Hcj).
      assert (j = m - n_samples) as -> by lia. simplify_eq.
      unfold children in Hcj. set_solver.
Qed.

Lemma members_lt m members x : table !! m = Some members → x ∈ members → x < n_samples.
Proof. intros Hm Hx. by apply (elem_of_members m members x Hm) in Hx as [? _]. Qed.

(** The two children of a merge have no member in common. *)
Lemma siblings_disjoint i row ma mb x :
  hclust !! i = Some row →
  table !! child1 row = Some ma → table !! child2 row = Some mb →
  x ∈ ma → x ∈ mb → False.
Proof.
  intros Hrow Ha Hb [_ Hxa]%(elem_of_members _ _ _ Ha) [_ Hxb]%(elem_of_members _ _ _ Hb).
  pose proof (row_children_distinct _ _ Hrow) as Hne.
  destruct Hwf as [Hrange _]. destruct (Hrange _ _ Hrow) as [Hlta Hltb].
  assert (Hca : child (child1 row) (n_samples + i)).
  { exists i, row. unfold children. split_and!; [done..|set_solver]. }
  assert (Hcb : child (child2 row) (n_samples + i)).
  { exists i, row. unfold children. split_and!; [done..|set_solver]. }
  destruct (ancestor_linear _ _ _ Hxa Hxb) as [Hab|Hba].
  - destruct (ancestor_proper _ _ Hab Hne) as (p & Hp & Hpb).
    rewrite (child_functional _ _ _ Hp Hca) in Hpb. apply ancestor_le in Hpb. lia.
  - destruct (ancestor_proper _ _ Hba (not_eq_sym Hne)) as (p & Hp & Hpa).
    rewrite (child_functional _ _ _ Hp Hcb) in Hpa. apply ancestor_le in Hpa. lia.
Qed.

Lemma members_NoDup m : ∀ members, table !! m = Some members → NoDup members.
Proof.
  induction (lt_wf m) as [m _ IH]. intros members Hm.
  destruct Htable as (Hlen & Hleaf & Hmerge).
  destruct (decide (m < n_samples)) as [Hlt|Hge].
  - rewrite Hleaf in Hm by done. simplify_eq. apply NoDup_singleton.
  - assert (Hi : m - n_samples < length hclust).
    { apply lookup_lt_Some in Hm. lia. }
    destruct (lookup_lt_is_Some_2 _ _ Hi) as [row Hrow].
    destruct (Hmerge _ _ Hrow) as (ma & mb & Ha & Hb & Hm').
    replace (n_samples + (m - n_samples)) with m in Hm' by lia.
    simplify_eq. destruct Hwf as [Hrange _].
    destruct (Hrange _ _ Hrow) as [Hlta Hltb].
    rewrite merge_sort_Permutation. apply NoDup_app. split_and!.
    + apply (IH (child1 row)); [lia|done].
    + intros x Hxa Hxb. eauto using siblings_disjoint.
    + apply (IH (child2 row)); [lia|done].
Qed.

Lemma members_nonempty m : ∀ members, table !! m = Some members → members ≠ [].
Proof.
  induction (lt_wf m) as [m _ IH]. intros members Hm.
  destruct Htable as (Hlen & Hleaf & Hmerge).
  destruct (decide (m < n_samples)) as [Hlt|Hge].
  - rewrite Hleaf in Hm by done. by simplify_eq.
  - assert (Hi : m - n_samples < length hclust).
    { apply lookup_lt_Some in Hm. lia. }
    destruct (lookup_lt_is_Some_2 _ _ Hi) as [row Hrow].
    destruct (Hmerge _ _ Hrow) as (ma & mb & Ha & Hb & Hm').
    replace (n_samples + (m - n_samples)) with m in Hm' by lia.
    simplify_eq. destruct Hwf as [Hrange _].
    destruct (Hrange _ _ Hrow) as [Hlta Hltb].
    intros Hnil. apply (IH (child1 row)) in Ha; [|lia].
    apply (f_equal length) in Hnil.
    rewrite merge_sort_Permutation, length_app in Hnil.
    destruct ma; simpl in *; [done|lia].
Qed.

(** A node has more members than each node it was merged from. *)
Lemma members_grow c p mc mp :
  child c p → table !! c = Some mc → table !! p = Some mp → length mc < length mp.
Proof.
  intros (i & row & Hrow & -> & Hc) Hmc Hmp.
  destruct Htable as (_ & _ & Hmerge).
  destruct (Hmerge i row Hrow) as (ma & mb & Ha & Hb & Hm).
  rewrite Hm in Hmp. injection Hmp as <-.
  rewrite merge_sort_Permutation, length_app.
  pose proof (members_nonempty _ _ Ha) as Hna.
  pose proof (members_nonempty _ _ Hb) as Hnb.
  unfold children in Hc.
  apply elem_of_cons in Hc as [->|Hc].
  - simplify_eq. destruct mb; simpl; [done|lia].
  - apply list_elem_of_singleton in Hc as ->.
    simplify_eq. destruct ma; simpl; [done|lia].
Qed.

Lemma members_grow_ancestor n m : ancestor n m → ∀ mn mm,
  n ≠ m → table !! n = Some mn → table !! m = Some mm → length mn < length mm.
Proof.
  induction 1 as [|n p m Hc Hpm IH]; intros mn mm Hne Hn Hm; [done|].
  pose proof (child_merge_node _ _ Hc) as [_ Hp].
  destruct (lookup_lt_is_Some_2 table p Hp) as [mp Hmp].
  pose proof (members_grow _ _ _ _ Hc Hn Hmp) as Hlt.
  destruct (decide (p = m)) as [->|Hpm'].
  - simplify_eq. done.
  - specialize (IH mp mm Hpm' Hmp Hm). lia.
Qed.

(** No two nodes of the table have the same member list. *)
Lemma table_NoDup : NoDup table.
Proof.
  apply NoDup_alt. intros i j members Hi Hj.
  destruct (decide (i = j)) as [|Hne]; [done|]. exfalso.
  pose proof (members_nonempty _ _ Hi) as Hnonempty.
  destruct members as [|x rest] eqn:Hmembers; [done|].
  assert (Hxi : ancestor x i).
  { apply (elem_of_members i (x :: rest)); [done|left]. }
  assert (Hxj : ancestor x j).
  { apply (elem_of_members j (x :: rest)); [done|left]. }
  destruct (ancestor_linear _ _ _ Hxi Hxj) as [Hij|Hji].
  - pose proof (members_grow_ancestor _ _ Hij _ _ Hne Hi Hj). lia.
  - pose proof (members_grow_ancestor _ _ Hji _ _ (not_eq_sym Hne) Hj Hi). lia.
Qed.

(** *** Parents in the table of a well-formed tree *)

Lemma find_parent_node_total node_id :
  ∃ parent, find_parent_node node_id table = Ok parent.
Proof.
  destruct (find_parent_node_cases node_id table)
    as [[_ ->]|[(_ & Hnil & _)|(x & rest & _ & _ & ->)]]; [by eexists| |by eexists].
  by apply members_nonempty in Hnil.
Qed.

(** [find_parent_node] returns the node that was created by merging
    this one. *)
Lemma find_parent_node_child node_id p :
  find_parent_node node_id table = Ok (KNode p) → child node_id p.
Proof.
  destruct (find_parent_node_cases node_id table)
    as [[_ ->]|[(_ & _ & ->)|(x & rest & Hlt & Hn & ->)]]; [done..|].
  intros [= (j & members & -> & Hj & Hx & Hfirst)%find_parent_scan_KNode].
  rewrite lookup_drop in Hj.
  assert (Hxn : ancestor x node_id).
  { apply (elem_of_members node_id (x :: rest)); [done|left]. }
  assert (Hxs : x < n_samples).
  { apply (members_lt node_id (x :: rest)); [done|left]. }
  assert (Hxp : ancestor x (S node_id + j)).
  { by apply (elem_of_members _ members). }
  destruct (ancestor_linear _ _ _ Hxn Hxp) as [Hnp|Hpn];
    [|apply ancestor_le in Hpn; lia].
  destruct (ancestor_proper _ _ Hnp) as (q & Hq & Hqp); [lia|].
  pose proof (child_lt _ _ Hq) as Hnq.
  pose proof (ancestor_le _ _ Hqp) as Hqle.
  destruct (decide (q = S node_id + j)) as [<-|Hne]; [done|].
  exfalso.
  destruct (lookup_lt_is_Some_2 table q) as [mq Hmq].
  { apply lookup_lt_Some in Hj. lia. }
  apply (Hfirst (q - S node_id) mq); [lia| |].
  - rewrite lookup_drop. by replace (S node_id + (q - S node_id)) with q by lia.
  - apply (elem_of_members q mq); [done|].
    split; [done|]. eapply rtc_r; [exact Hxn|exact Hq].
Qed.

Lemma find_parent_node_root node_id p :
  find_parent_node node_id table = Ok KNone → ¬ child node_id p.
Proof.
  intros Hnone Hc.
  pose proof (child_lt _ _ Hc) as Hlt.
  pose proof (child_merge_node _ _ Hc) as [_ Hp].
  destruct (find_parent_node_cases node_id table)
    as [[? _]|[(_ & _ & Hr)|(x & rest & _ & Hn & Hr)]]; [lia|congruence|].
  rewrite Hr in Hnone. injection Hnone as Hscan.
  destruct (lookup_lt_is_Some_2 table p Hp) as [mp Hmp].
  apply (proj1 (find_parent_scan_KNone _ _ _) Hscan mp).
  - apply list_elem_of_lookup. exists (p - S node_id). rewrite lookup_drop.
    by replace (S node_id + (p - S node_id)) with p by lia.
  - apply (elem_of_members p mp); [done|]. split.
    + apply (members_lt node_id (x :: rest)); [done|left].
    + eapply rtc_r; [|done].
      apply (elem_of_members node_id (x :: rest)); [done|left].
Qed.

(** *** The verdicts over a well-formed tree *)

Variables (bootstrap_values : list npfloat) (threshold : Q).
Variable final : gmap key verdict.
Hypothesis Hlen : length bootstrap_values = length table.
Hypothesis Hnone : final !! KNone = Some Fork.
Hypothesis Houtside : ∀ m, length bootstrap_values ≤ m → final !! KNode m = None.
Hypothesis Hrule : ∀ n, n < length bootstrap_values → ∃ parent vp b,
  find_parent_node n table = Ok parent ∧
  final !! parent = Some vp ∧ bootstrap_values !! n = Some b ∧
  final !! KNode n = Some (verdict_for threshold vp b n).

Lemma verdict_in_table n v : final !! KNode n = Some v → n < length table.
Proof.
  intros Hv. destruct (decide (n < length table)); [done|].
  rewrite Houtside in Hv by lia. done.
Qed.

(** An id stored for a node is the id of an ancestor that stores itself. *)
Lemma own_verdict_ancestor n c :
  final !! KNode n = Some (Own c) →
  ancestor n c ∧ final !! KNode c = Some (Own c).
Proof.
  remember (length table - n) as d eqn:Hd. revert n Hd.
  induction (lt_wf d) as [d _ IH]. intros n -> Hv.
  pose proof (verdict_in_table _ _ Hv) as Hn.
  destruct (Hrule n) as (parent & vp & b & Hfind & Hvp & Hb & Hvn); [lia|].
  rewrite Hv in Hvn. injection Hvn as Hvn.
  destruct vp as [|c']; simpl in Hvn.
  - destruct (ge_float b threshold); [done|]. by injection Hvn as ->.
  - injection Hvn as ->. destruct parent as [|p]; [congruence|].
    pose proof (find_parent_node_range _ _ _ Hfind) as Hp.
    destruct (IH (length table - p)) with (n := p) as [Hanc Hc]; [lia|done|done|].
    split; [|done]. eapply rtc_l; [|done]. by apply find_parent_node_child.
Qed.

(** A node that stores its own id gives that id to every node below it. *)
Lemma boundary_absorbs n c :
  ancestor n c → final !! KNode c = Some (Own c) → final !! KNode n = Some (Own c).
Proof.
  induction 1 as [|n p c Hc Hpc IH]; intros Hbound; [done|].
  specialize (IH Hbound).
  pose proof (verdict_in_table _ _ IH) as Hp.
  pose proof (child_lt _ _ Hc) as Hnp.
  destruct (Hrule n) as (parent & vp & b & Hfind & Hvp & Hb & Hvn); [lia|].
  destruct parent as [|p'].
  - by apply find_parent_node_root with (p := p) in Hfind.
  - apply find_parent_node_child in Hfind.
    rewrite (child_functional _ _ _ Hfind Hc) in Hvp.
    rewrite Hvn. by simplify_eq.
Qed.

(** A node whose support is below the threshold never stays a fork. *)
Lemma low_support_own n b :
  bootstrap_values !! n = Some b → ge_float b threshold = false →
  ∃ c, final !! KNode n = Some (Own c).
Proof.
  intros Hb Hge. pose proof (lookup_lt_Some _ _ _ Hb) as Hn.
  destruct (Hrule n Hn) as (parent & vp & b' & Hfind & Hvp & Hb' & Hvn).
  simplify_eq. rewrite Hvn. destruct vp; simpl; rewrite ?Hge; eauto.
Qed.

Lemma stored_id_boundary k c :
  final !! k = Some (Own c) → final !! KNode c = Some (Own c).
Proof.
  destruct k as [|n]; [congruence|]. by intros [_ ?]%own_verdict_ancestor.
Qed.

(** Two distinct finalized clusters share no sample. *)
Lemma boundaries_disjoint c c' mc mc' x :
  final !! KNode c = Some (Own c) → final !! KNode c' = Some (Own c') →
  table !! c = Some mc → table !! c' = Some mc' →
  x ∈ mc → x ∈ mc' → c = c'.
Proof.
  intros Hc Hc' Hmc Hmc' [_ Hxc]%(elem_of_members _ _ _ Hmc)
    [_ Hxc']%(elem_of_members _ _ _ Hmc').
  destruct (ancestor_linear _ _ _ Hxc Hxc') as [Hanc|Hanc].
  - apply boundary_absorbs in Hanc; [|done]. congruence.
  - apply boundary_absorbs in Hanc; [|done]. congruence.
Qed.

Lemma collapse_output_samples ids out :
  (∀ s b, s < n_samples → bootstrap_values !! s = Some b →
          ge_float b threshold = false) →
  NoDup ids →
  (∀ c, c ∈ ids ↔ ∃ k, final !! k = Some (Own c)) →
  Forall2 (λ c members, table !! c = Some members) ids out →
  concat out ≡ₚ seq 0 n_samples.
Proof.
  intros Hleaf Hnodup Hids Hout. apply NoDup_Permutation.
  - assert (Hbound : ∀ c, c ∈ ids → final !! KNode c = Some (Own c)).
    { intros c [k Hk]%Hids. by eapply stored_id_boundary. }
    clear Hids. induction Hout as [|c mc ids out Hmc Hout IH]; [constructor|].
    simpl. apply NoDup_cons in Hnodup as [Hc Hnodup].
    apply NoDup_app. split_and!.
    + by eapply members_NoDup.
    + intros x Hx (mc' & Hx' & Hmc')%elem_of_concat.
      apply list_elem_of_lookup in Hmc' as [i Hi].
      destruct (Forall2_lookup_r _ _ _ _ _ Hout Hi) as (c' & Hc' & Hmc').
      apply list_elem_of_lookup_2 in Hc'.
      assert (c = c') as ->; [|done].
      eapply boundaries_disjoint; [| |exact Hmc|exact Hmc'|exact Hx|exact Hx'].
      * apply Hbound. left.
      * apply Hbound. by right.
    + apply IH; [done|]. intros c' Hc'. apply Hbound. by right.
  - apply NoDup_seq.
  - intros x. rewrite elem_of_seq, elem_of_concat. split.
    + intros (mc & Hx & Hmc). apply list_elem_of_lookup in Hmc as [i Hi].
      destruct (Forall2_lookup_r _ _ _ _ _ Hout Hi) as (c & _ & Hmc).
      split; [lia|]. simpl. by eapply members_lt.
    + intros [_ Hx]. simpl in Hx. destruct Htable as (Htlen & Hleaves & _).
      destruct (lookup_lt_is_Some_2 bootstrap_values x) as [b Hb]; [lia|].
      destruct (low_support_own x b Hb) as [c Hc]; [by eapply Hleaf|].
      pose proof Hc as [Hanc Hbound]%own_verdict_ancestor.
      assert (Hin : c ∈ ids) by (apply Hids; eauto).
      apply list_elem_of_lookup in Hin as [i Hi].
      destruct (Forall2_lookup_l _ _ _ _ _ Hout Hi) as (mc & Hmc & Hcm).
      exists mc. split; [|by eapply list_elem_of_lookup_2].
      by apply (elem_of_members _ _ _ Hcm).
Qed.

End tree.

(** ** The support calculator *)

Lemma count_cluster_v1 true_clusters counts cluster :
  vcfToMatrix.count_cluster true_clusters counts cluster =
  count_cluster_with (λ c, bool_decide (1 < length c)) true_clusters counts cluster.
Proof. done. Qed.

Lemma count_cluster_v2 true_clusters counts cluster :
  vcfToMatrix_2.count_cluster true_clusters counts cluster =
  count_cluster_with (λ _, true) true_clusters counts cluster.
Proof.
  unfold vcfToMatrix_2.count_cluster, count_cluster_with. by rewrite andb_true_r.
Qed.

Section counting.
Variable guard : list nat → bool.
Variable true_clusters : list (list nat).

Lemma count_cluster_with_lookup counts cluster i :
  count_cluster_with guard true_clusters counts cluster !! i =
  (λ n, n + if decide (hit guard true_clusters i cluster) then 1 else 0)
    <$> counts !! i.
Proof.
  unfold count_cluster_with, increment_at.
  destruct (decide (hit guard true_clusters i cluster)) as [[Hg Hfind]|Hn].
  - apply fmap_Some in Hfind as ([j y] & Hfind & [= <-]). rewrite Hfind, Hg.
    rewrite bool_decide_eq_true_2.
    2:{ apply list_find_Some in Hfind as (Hj & -> & _). by eapply list_elem_of_lookup_2. }
    simpl. rewrite list_lookup_alter_eq.
    destruct (counts !! _); simpl; f_equal; lia.
  - assert (Hsame : ∀ l : list nat, l !! i = counts !! i →
              l !! i = (λ n, n + 0) <$> counts !! i).
    { intros l ->. destruct (counts !! i); simpl; f_equal; lia. }
    apply Hsame. destruct (bool_decide _ && guard cluster) eqn:Hb; [|done].
    apply andb_true_iff in Hb as [_ Hg].
    destruct (list_find (λ c, c = cluster) true_clusters) as [[j y]|] eqn:Hfind; [|done].
    apply list_lookup_alter_ne. intros ->. apply Hn. split; [done|]. by rewrite Hfind.
Qed.

Lemma count_replicate_lookup one_bootstrap : ∀ counts i,
  foldl (count_cluster_with guard true_clusters) counts one_bootstrap !! i =
  (λ n, n + hits guard true_clusters i one_bootstrap) <$> counts !! i.
Proof.
  unfold hits.
  induction one_bootstrap as [|c rep IH]; intros counts i; simpl.
  - destruct (counts !! i); simpl; f_equal; lia.
  - rewrite IH, count_cluster_with_lookup, filter_cons.
    destruct (decide (hit guard true_clusters i c));
      destruct (counts !! i); simpl; f_equal; lia.
Qed.

Lemma count_all_lookup bootstrap_clusters : ∀ counts i,
  foldl (λ counts one_bootstrap,
           foldl (count_cluster_with guard true_clusters) counts one_bootstrap)
    counts bootstrap_clusters !! i =
  (λ n, n + sum_list_with (hits guard true_clusters i) bootstrap_clusters)
    <$> counts !! i.
Proof.
  induction bootstrap_clusters as [|rep bs IH]; intros counts i; simpl.
  - destruct (counts !! i); simpl; f_equal; lia.
  - rewrite IH, count_replicate_lookup.
    destruct (counts !! i); simpl; f_equal; lia.
Qed.

(** When the canonical table and the replicate have no repeated member
    list, a replicate counts for node [i] at most once, and exactly
    when it contains the members of [i]. *)
Lemma hits_NoDup i cluster one_bootstrap :
  NoDup true_clusters → NoDup one_bootstrap →
  true_clusters !! i = Some cluster →
  hits guard true_clusters i one_bootstrap =
  if decide (guard cluster = true ∧ cluster ∈ one_bootstrap) then 1 else 0.
Proof.
  intros Htc Hrep Hi. unfold hits.
  assert (Hhit : ∀ c, hit guard true_clusters i c ↔ guard cluster = true ∧ c = cluster).
  { intros c. unfold hit. split.
    - intros [Hg Hfind]. apply fmap_Some in Hfind as ([j y] & Hfind & [= <-]).
      apply list_find_Some in Hfind as (Hj & -> & _). simpl in *. by simplify_eq.
    - intros [Hg ->]. split; [done|]. apply fmap_Some. exists (i, cluster).
      split; [|done]. apply list_find_Some. split_and!; [done..|].
      intros j y Hj Hlt ->. pose proof (NoDup_lookup _ _ _ _ Htc Hi Hj). lia. }
  induction Hrep as [|c rep Hc Hrep IH]; simpl.
  - rewrite decide_False; [done|]. intros [_ []%elem_of_nil].
  - rewrite filter_cons. destruct (decide (hit guard true_clusters i c)) as [Hh|Hh].
    + apply Hhit in Hh as [Hg ->]. simpl. rewrite IH.
      rewrite decide_False by (by intros [_ ?]).
      rewrite decide_True; [done|]. split; [done|left].
    + rewrite IH. destruct (decide (guard cluster = true ∧ cluster ∈ rep)) as [[Hg Hin]|Hn].
      * rewrite decide_True; [done|]. split; [done|by right].
      * rewrite decide_False; [done|]. intros [Hg [->|Hin]%elem_of_cons].
        -- apply Hh, Hhit. done.
        -- by apply Hn.
Qed.

Lemma sum_hits_NoDup i cluster bootstrap_clusters :
  NoDup true_clusters → Forall NoDup bootstrap_clusters →
  true_clusters !! i = Some cluster →
  sum_list_with (hits guard true_clusters i) bootstrap_clusters =
  if guard cluster
  then length (filter (λ one_bootstrap, cluster ∈ one_bootstrap) bootstrap_clusters)
  else 0.
Proof.
  intros Htc Hbs Hi. induction Hbs as [|rep bs Hrep Hbs IH]; simpl.
  - by destruct (guard cluster).
  - rewrite IH, (hits_NoDup i cluster rep) by done. rewrite filter_cons.
    destruct (guard cluster) eqn:Hg; simpl; repeat case_decide; try done; naive_solver.
Qed.

End counting.

Lemma divide_counts_lookup counts n i :
  divide_counts counts n !! i =
  (λ c, true_divide (inject_Z (Z.of_nat c)) n) <$> counts !! i.
Proof. unfold divide_counts. apply list_lookup_fmap. Qed.

(** The support of every node, as a sum over the replicates. *)
Lemma calculate_bootstrap_values_lookup true_clusters bootstrap_clusters i :
  vcfToMatrix.calculate_bootstrap_values true_clusters bootstrap_clusters !! i =
  if decide (i < length true_clusters) then
    Some (true_divide
            (inject_Z (Z.of_nat
               (sum_list_with (hits (λ c, bool_decide (1 < length c)) true_clusters i)
                  bootstrap_clusters)))
            (length bootstrap_clusters))
  else None.
Proof.
  unfold vcfToMatrix.calculate_bootstrap_values.
  change (vcfToMatrix.count_cluster true_clusters)
    with (count_cluster_with (λ c, bool_decide (1 < length c)) true_clusters).
  rewrite divide_counts_lookup, count_all_lookup.
  case_decide as Hi.
  - by rewrite lookup_replicate_2.
  - rewrite (proj1 (lookup_replicate_None _ _ _)); [done|lia].
Qed.

Lemma calculate_bootstrap_values_length true_clusters bootstrap_clusters :
  length (vcfToMatrix.calculate_bootstrap_values true_clusters bootstrap_clusters) =
  length true_clusters.
Proof.
  apply Nat.le_antisymm.
  - apply Nat.nlt_ge. intros Hlt. apply lookup_lt_is_Some_2 in Hlt as [x Hx].
    rewrite calculate_bootstrap_values_lookup in Hx. by rewrite decide_False in Hx by lia.
  - apply Nat.nlt_ge. intros Hlt.
    pose proof (calculate_bootstrap_values_lookup true_clusters bootstrap_clusters
                  (length (vcfToMatrix.calculate_bootstrap_values true_clusters
                             bootstrap_clusters))) as Hx.
    rewrite decide_True in Hx by done.
    by rewrite (proj2 (lookup_ge_None _ _)) in Hx by lia.
Qed.

Lemma clusters_of_verdicts_exn true_clusters (parent_dict : gmap key verdict) e :
  (∃ k, parent_dict !! k = Some Fork) →
  clusters_of_verdicts true_clusters parent_dict = Raise e → e = IndexError.
Proof.
  intros Hfork. unfold clusters_of_verdicts.
  rewrite decide_True by by apply elem_of_dict_values.
  intros (v & Hv & Hraise)%traverse_Raise.
  apply elem_of_elements, elem_of_difference in Hv as [_ Hv].
  destruct v as [|x]; [set_solver|].
  unfold index in Hraise. destruct (true_clusters !! x); by simplify_eq.
Qed.

(** With at least one replicate every support is a number. *)
Lemma calculate_bootstrap_values_Num true_clusters bootstrap_clusters i b :
  bootstrap_clusters ≠ [] →
  vcfToMatrix.calculate_bootstrap_values true_clusters bootstrap_clusters !! i = Some b →
  ∃ q, b = Num q.
Proof.
  intros Hne. rewrite calculate_bootstrap_values_lookup.
  case_decide; [|done]. intros [= <-].
  destruct bootstrap_clusters; [done|]. simpl. by eexists.
Qed.

Lemma calculate_bootstrap_values_no_NaN true_clusters bootstrap_clusters :
  bootstrap_clusters ≠ [] →
  NaN ∉ vcfToMatrix.calculate_bootstrap_values true_clusters bootstrap_clusters.
Proof.
  intros Hne [i Hi]%list_elem_of_lookup.
  by destruct (calculate_bootstrap_values_Num _ _ _ _ Hne Hi).
Qed.

(** A node whose member list has one element is never counted. *)
Lemma singleton_hits_zero true_clusters i cluster one_bootstrap :
  true_clusters !! i = Some cluster → length cluster ≤ 1 →
  hits (λ c, bool_decide (1 < length c)) true_clusters i one_bootstrap = 0.
Proof.
  intros Hi Hlen. unfold hits.
  induction one_bootstrap as [|c rep IH]; [done|].
  rewrite filter_cons_False; [done|].
  intros [Hg Hfind]. apply bool_decide_eq_true in Hg.
  apply fmap_Some in Hfind as ([j y] & Hfind & [= <-]).
  apply list_find_Some in Hfind as (Hj & -> & _). simpl in *. simplify_eq. lia.
Qed.

Lemma singleton_support_zero true_clusters bootstrap_clusters i cluster b :
  true_clusters !! i = Some cluster → length cluster ≤ 1 →
  vcfToMatrix.calculate_bootstrap_values true_clusters bootstrap_clusters !! i = Some b →
  b = true_divide 0 (length bootstrap_clusters).
Proof.
  intros Hi Hlen. rewrite calculate_bootstrap_values_lookup.
  case_decide; [|done]. intros [= <-].
  assert (sum_list_with
            (hits (λ c, bool_decide (1 < length c)) true_clusters i)
            bootstrap_clusters = 0) as ->; [|done].
  induction bootstrap_clusters as [|rep bs IH]; [done|]. simpl.
  by rewrite IH, (singleton_hits_zero _ _ cluster).
Qed.

Lemma ge_float_zero_support n threshold :
  (0 < threshold)%Q → n ≠ 0 → ge_float (true_divide 0 n) threshold = false.
Proof.
  intros Hpos Hn. destruct n as [|n]; [done|]. simpl.
  apply not_true_is_false. rewrite Qle_bool_iff. intros Hle.
  apply (Qlt_not_le _ _ Hpos). eapply Qle_trans; [exact Hle|].
  unfold Qdiv. rewrite Qmult_0_l. apply Qle_refl.
Qed.

Lemma true_divide_pos x n :
  n ≠ 0 → true_divide x n = Num (x / inject_Z (Z.of_nat n)).
Proof. by destruct n. Qed.

Lemma count_fraction_bounds c n :
  c ≤ n → 0 < n →
  (0 <= inject_Z (Z.of_nat c) / inject_Z (Z.of_nat n) <= 1)%Q.
Proof.
  intros Hle Hpos.
  assert (Hn : (0 < inject_Z (Z.of_nat n))%Q).
  { change 0%Q with (inject_Z 0). rewrite <-Zlt_Qlt. lia. }
  split.
  - apply Qle_shift_div_l; [done|]. rewrite Qmult_0_l.
    change 0%Q with (inject_Z 0). rewrite <-Zle_Qle. lia.
  - apply Qle_shift_div_r; [done|]. rewrite Qmult_1_l.
    rewrite <-Zle_Qle. lia.
Qed.

Lemma foldl_pointwise {A B} (f g : A → B → A) l : ∀ a,
  (∀ a b, f a b = g a b) → foldl f a l = foldl g a l.
Proof.
  induction l as [|b l IH]; intros a Hfg; simpl; [done|].
  rewrite Hfg. by apply IH.
Qed.

Lemma calculate_bootstrap_values_v2_lookup true_clusters bootstrap_clusters i :
  vcfToMatrix_2.calculate_bootstrap_values true_clusters bootstrap_clusters !! i =
  if decide (i < length true_clusters) then
    Some (true_divide
            (inject_Z (Z.of_nat
               (sum_list_with (hits (λ _, true) true_clusters i) bootstrap_clusters)))
            (length bootstrap_clusters))
  else None.
Proof.
  unfold vcfToMatrix_2.calculate_bootstrap_values.
  rewrite (foldl_pointwise _
             (λ counts one_bootstrap,
                foldl (count_cluster_with (λ _, true) true_clusters) counts one_bootstrap)).
  2:{ intros counts rep. apply foldl_pointwise. intros. apply count_cluster_v2. }
  rewrite divide_counts_lookup, count_all_lookup.
  case_decide as Hi.
  - by rewrite lookup_replicate_2.
  - rewrite (proj1 (lookup_replicate_None _ _ _)); [done|lia].
Qed.

(** ** Partitions *)

Lemma NoDup_concat_inv {A} (ls : list (list A)) :
  NoDup (concat ls) →
  Forall NoDup ls ∧
  ∀ i j li lj x, ls !! i = Some li → ls !! j = Some lj → x ∈ li → x ∈ lj → i = j.
Proof.
  induction ls as [|l ls IH]; simpl.
  - intros _. split; [constructor|]. intros i j li lj x. by rewrite lookup_nil.
  - intros (Hl & Hdisj & Hrest)%NoDup_app. destruct (IH Hrest) as [Hall Hidx].
    split; [by constructor|].
    intros [|i] [|j] li lj x Hi Hj Hxi Hxj; simpl in Hi, Hj; simplify_eq; [done| | |].
    + exfalso. apply (Hdisj x Hxi). apply elem_of_concat.
      exists lj. split; [done|by eapply list_elem_of_lookup_2].
    + exfalso. apply (Hdisj x Hxj). apply elem_of_concat.
      exists li. split; [done|by eapply list_elem_of_lookup_2].
    + f_equal. eauto.
Qed.

Lemma partition_of_permutation n_samples clusters :
  concat clusters ≡ₚ seq 0 n_samples → is_partition n_samples clusters.
Proof.
  intros Hperm.
  assert (Hnodup : NoDup (concat clusters)) by (rewrite Hperm; apply NoDup_seq).
  destruct (NoDup_concat_inv _ Hnodup) as [Hall Hidx].
  split_and!; [done| |done].
  intros x. transitivity (x ∈ concat clusters).
  - rewrite Hperm, elem_of_seq. lia.
  - rewrite elem_of_concat. naive_solver.
Qed.

(** * The membership resolver of a well-formed tree *)

(** C8.  For a well-formed merge tree over [n_samples] leaves,
    [get_cluster_members] returns a table that starts with the
    singletons [[0]], ..., [[n_samples - 1]] and in which, for every
    merge record, the member list of the new node is a sorted
    rearrangement of the member lists of its two children put together;
    the two children share no member, so the sizes add up. *)
Theorem members_disjoint_union n_samples hclust :
  wf_merge_tree n_samples hclust →
  ∃ table, get_cluster_members hclust n_samples = Ok table ∧
    length table = n_samples + length hclust ∧
    (∀ s, s < n_samples → table !! s = Some [s]) ∧
    (∀ i row, hclust !! i = Some row →
       ∃ left right members,
         table !! child1 row = Some left ∧ table !! child2 row = Some right ∧
         table !! (n_samples + i) = Some members ∧
         members ≡ₚ left ++ right ∧ Sorted le members ∧
         (∀ x, x ∈ left → x ∉ right) ∧
         length members = length left + length right).
Proof.
  intros Hwf. destruct (get_cluster_members_table n_samples hclust (proj1 Hwf))
    as (table & Hrun & Htable).
  exists table. split; [done|].
  destruct Htable as (Hlen & Hleaf & Hmerge). split_and!; [done..|].
  intros i row Hrow. destruct (Hmerge i row Hrow) as (ma & mb & Ha & Hb & Hm).
  exists ma, mb, (merge_sort le (ma ++ mb)). split_and!; [done..| | | |].
  - apply merge_sort_Permutation.
  - apply (Sorted_merge_sort le).
  - intros x Hxa Hxb.
    by apply (siblings_disjoint n_samples hclust table Hwf
                (conj Hlen (conj Hleaf Hmerge)) i row ma mb x).
  - by rewrite merge_sort_Permutation, length_app.
Qed.

Lemma members_disjoint_union_witness :
  ∃ table,
    get_cluster_members
      [LinkageRow 0 1 (Num 0.1) 2; LinkageRow 2 3 (Num 0.1) 2; LinkageRow 4 5 (Num 1) 4] 4
      = Ok table ∧
    length table = 4 + 3 ∧
    (∀ s, s < 4 → table !! s = Some [s]) ∧
    (∀ i row,
       [LinkageRow 0 1 (Num 0.1) 2; LinkageRow 2 3 (Num 0.1) 2; LinkageRow 4 5 (Num 1) 4]
         !! i = Some row →
       ∃ left right members,
         table !! child1 row = Some left ∧ table !! child2 row = Some right ∧
         table !! (4 + i) = Some members ∧
         members ≡ₚ left ++ right ∧ Sorted le members ∧
         (∀ x, x ∈ left → x ∉ right) ∧
         length members = length left + length right).
Proof.
  apply (members_disjoint_union 4
           [LinkageRow 0 1 (Num 0.1) 2; LinkageRow 2 3 (Num 0.1) 2;
            LinkageRow 4 5 (Num 1) 4]).
  split; [|compute_done].
  intros [|[|[|i]]] row [=]; subst; simpl; lia.
Defined.

(** * The cluster collapser of vcfToMatrix.py *)

(** C1.  The loop of [collapse_clusters] walks the node ids downwards
    from the last one, whose parent is ['none'] and holds ['fork'].  When
    the table has no empty member list and the support vector holds one
    number per node, the loop ends with a dictionary in which every
    node [n] follows the rule: under a parent that holds ['fork'], [n]
    holds ['fork'] if its support is [>=] the threshold and its own id
    if its support is [<] the threshold; under a parent that holds an
    id, [n] holds that same id.  The clusters returned are the member
    lists of the distinct ids held in the dictionary, each once. *)
Theorem collapse_propagation_rule true_clusters bootstrap_values threshold :
  length bootstrap_values = length true_clusters →
  NaN ∉ bootstrap_values →
  [] ∉ true_clusters →
  ∃ parent_dict out,
    vcfToMatrix.collapse_loop true_clusters bootstrap_values threshold
      (length bootstrap_values) {[KNone := Fork]} = Ok parent_dict ∧
    vcfToMatrix.collapse_clusters true_clusters bootstrap_values threshold = Ok out ∧
    parent_dict !! KNone = Some Fork ∧
    (length true_clusters ≠ 0 →
       find_parent_node (length true_clusters - 1) true_clusters = Ok KNone) ∧
    (∀ n, n < length true_clusters →
       follows_rule true_clusters bootstrap_values threshold parent_dict n) ∧
    ∃ ids, NoDup ids ∧
      (∀ c, c ∈ ids ↔ ∃ k, parent_dict !! k = Some (Own c)) ∧
      Forall2 (λ c members, true_clusters !! c = Some members) ids out.
Proof.
  intros Hlen Hnan Hnonempty.
  destruct (collapse_loop_run true_clusters bootstrap_values threshold)
    as [[_ Hempty]|(final & Hloop & Hnone & Houtside & Hrule)]; [lia|done|done|].
  destruct (clusters_of_verdicts_spec true_clusters final)
    as (ids & out & Hout & Hnodup & Hids & Hall); [by eauto| |].
  { intros k c Hk. rewrite <-Hlen.
    eapply (own_verdict_range true_clusters bootstrap_values threshold);
      [lia|exact Hnone|exact Houtside|exact Hrule|exact Hk]. }
  exists final, out. split_and!; [done| |done| | |by eauto].
  - unfold vcfToMatrix.collapse_clusters. by rewrite Hloop.
  - intros Hpos.
    destruct (find_parent_node_cases (length true_clusters - 1) true_clusters)
      as [[_ ->]|[(? & _)|(? & ? & ? & _)]]; [done|lia..].
  - intros n Hn. destruct (Hrule n) as (parent & vp & b & Hfind & Hvp & Hb & Hvn); [lia|].
    exists parent, vp, b. split_and!; [done..|].
    rewrite Hvn. destruct vp as [|c]; simpl; [|done]. split.
    + by intros ->.
    + by intros ->%lt_float_not_ge.
Qed.

Lemma collapse_propagation_rule_witness :
  ∃ parent_dict out,
    vcfToMatrix.collapse_loop [[0]; [1]; [2]; [0; 1]; [0; 1; 2]]
      [Num 0; Num 0; Num 0; Num 0.5; Num 1] 0.99 5 {[KNone := Fork]} = Ok parent_dict ∧
    vcfToMatrix.collapse_clusters [[0]; [1]; [2]; [0; 1]; [0; 1; 2]]
      [Num 0; Num 0; Num 0; Num 0.5; Num 1] 0.99 = Ok out ∧
    parent_dict !! KNone = Some Fork ∧
    (5 ≠ 0 → find_parent_node 4 [[0]; [1]; [2]; [0; 1]; [0; 1; 2]] = Ok KNone) ∧
    (∀ n, n < 5 →
       follows_rule [[0]; [1]; [2]; [0; 1]; [0; 1; 2]]
         [Num 0; Num 0; Num 0; Num 0.5; Num 1] 0.99 parent_dict n) ∧
    ∃ ids, NoDup ids ∧
      (∀ c, c ∈ ids ↔ ∃ k, parent_dict !! k = Some (Own c)) ∧
      Forall2 (λ c members, [[0]; [1]; [2]; [0; 1]; [0; 1; 2]] !! c = Some members) ids out.
Proof.
  apply (collapse_propagation_rule [[0]; [1]; [2]; [0; 1]; [0; 1; 2]]
           [Num 0; Num 0; Num 0; Num 0.5; Num 1] 0.99).
  - reflexivity.
  - compute_done.
  - compute_done.
Defined.

(** C10 as stated fails: with no bootstrap replicate every support is NaN, the
    root gets no verdict, and the lookup of the parent of the next node
    fails. *)
Lemma parent_not_found_without_replicates :
  vcfToMatrix.calculate_bootstrap_values [[0]; [1]; [0; 1]] [] = [NaN; NaN; NaN] ∧
  vcfToMatrix.collapse_clusters [[0]; [1]; [0; 1]]
    (vcfToMatrix.calculate_bootstrap_values [[0]; [1]; [0; 1]] []) 0.99
  = Raise (ParentNotFound "2").
Proof. split; vm_compute; reflexivity. Qed.

(** C10, amended.  When the support vector has an entry for every node
    and every entry is a number, [collapse_clusters] never reaches the
    [ValueError] of [is_parent_a_fork]; the only exception the loop and
    the whole function can raise is the [IndexError] of an empty member
    list. *)
Theorem parent_always_found true_clusters bootstrap_values threshold :
  length true_clusters ≤ length bootstrap_values →
  NaN ∉ bootstrap_values →
  (∀ e, vcfToMatrix.collapse_loop true_clusters bootstrap_values threshold
          (length bootstrap_values) {[KNone := Fork]} = Raise e → e = IndexError) ∧
  (∀ e, vcfToMatrix.collapse_clusters true_clusters bootstrap_values threshold = Raise e →
        e = IndexError).
Proof.
  intros Hlen Hnan. unfold vcfToMatrix.collapse_clusters.
  destruct (collapse_loop_run true_clusters bootstrap_values threshold Hlen Hnan)
    as [[-> _]|(final & -> & Hnone & _)]; simpl.
  - split; intros e [= <-]; done.
  - split; [done|]. intros e. apply clusters_of_verdicts_exn. eauto.
Qed.

(** In [main] the supports come from [calculate_bootstrap_values]: with
    one replicate or more the lookup of a parent never fails. *)
Lemma parent_found_after_replicates true_clusters bootstrap_clusters threshold e :
  bootstrap_clusters ≠ [] →
  vcfToMatrix.collapse_clusters true_clusters
    (vcfToMatrix.calculate_bootstrap_values true_clusters bootstrap_clusters) threshold
    = Raise e →
  e = IndexError.
Proof.
  intros Hne Hraise.
  pose proof (calculate_bootstrap_values_length true_clusters bootstrap_clusters) as Hlen.
  pose proof (calculate_bootstrap_values_no_NaN true_clusters _ Hne) as Hnan.
  assert (Hle : length true_clusters ≤
                length (vcfToMatrix.calculate_bootstrap_values true_clusters
                          bootstrap_clusters)) by lia.
  destruct (collapse_loop_run true_clusters _ threshold Hle Hnan)
    as [[Hloop _]|(final & Hloop & Hnone & _)];
    unfold vcfToMatrix.collapse_clusters in Hraise; rewrite Hloop in Hraise;
    simpl in Hraise.
  - congruence.
  - eapply clusters_of_verdicts_exn; [|done]. eauto.
Qed.

Lemma parent_always_found_witness :
  (∀ e, vcfToMatrix.collapse_loop [[0]; [1]; [0; 1]] [Num 0; Num 0; Num 1] 0.99
          3 {[KNone := Fork]} = Raise e → e = IndexError) ∧
  (∀ e, vcfToMatrix.collapse_clusters [[0]; [1]; [0; 1]] [Num 0; Num 0; Num 1] 0.99
        = Raise e → e = IndexError).
Proof.
  apply (parent_always_found [[0]; [1]; [0; 1]] [Num 0; Num 0; Num 1] 0.99).
  - simpl. lia.
  - compute_done.
Defined.

(** C2 as stated fails: at threshold 0 every node meets the threshold, every
    node becomes a fork and no cluster is returned. *)
Lemma collapse_at_zero_threshold :
  wf_merge_tree 2 [LinkageRow 0 1 (Num 0.2) 2] ∧
  get_cluster_members [LinkageRow 0 1 (Num 0.2) 2] 2 = Ok [[0]; [1]; [0; 1]] ∧
  vcfToMatrix.calculate_bootstrap_values [[0]; [1]; [0; 1]] [[[0]; [1]; [0; 1]]]
    = [Num 0; Num 0; Num 1] ∧
  vcfToMatrix.collapse_clusters [[0]; [1]; [0; 1]] [Num 0; Num 0; Num 1] 0 = Ok [] ∧
  ¬ is_partition 2 [].
Proof.
  split_and!.
  - split; [|compute_done].
    intros [|i] row [=]; subst; simpl; lia.
  - reflexivity.
  - vm_compute. reflexivity.
  - vm_compute. reflexivity.
  - intros (_ & Hunion & _). destruct (proj1 (Hunion 0)) as (c & Hc & _); [lia|].
    by apply elem_of_nil in Hc.
Qed.

(** C2, amended.  For a well-formed merge tree, a positive threshold and
    supports computed from at least one replicate, the clusters
    returned form a partition of the samples. *)
Theorem collapse_partition n_samples hclust bootstrap_clusters threshold :
  wf_merge_tree n_samples hclust →
  (0 < threshold)%Q →
  bootstrap_clusters ≠ [] →
  ∃ table out,
    get_cluster_members hclust n_samples = Ok table ∧
    vcfToMatrix.collapse_clusters table
      (vcfToMatrix.calculate_bootstrap_values table bootstrap_clusters) threshold
      = Ok out ∧
    is_partition n_samples out ∧
    concat out ≡ₚ seq 0 n_samples.
Proof.
  intros Hwf Hpos Hbs.
  destruct (get_cluster_members_table n_samples hclust (proj1 Hwf))
    as (table & Hrun & Htable).
  set (bv := vcfToMatrix.calculate_bootstrap_values table bootstrap_clusters).
  assert (Hlen : length bv = length table)
    by apply calculate_bootstrap_values_length.
  assert (Hnan : NaN ∉ bv) by by apply calculate_bootstrap_values_no_NaN.
  destruct (collapse_loop_run table bv threshold)
    as [[_ Hempty]|(final & Hloop & Hnone & Houtside & Hrule)]; [lia|done| |].
  { apply list_elem_of_lookup in Hempty as [m Hm].
    by apply (members_nonempty n_samples hclust table Hwf Htable) in Hm. }
  destruct (clusters_of_verdicts_spec table final)
    as (ids & out & Hout & Hnodup & Hids & Hall); [by eauto| |].
  { intros k c Hk. rewrite <-Hlen.
    eapply (own_verdict_range table bv threshold);
      [lia|exact Hnone|exact Houtside|exact Hrule|exact Hk]. }
  assert (Hperm : concat out ≡ₚ seq 0 n_samples).
  { apply (collapse_output_samples n_samples hclust table Hwf Htable bv threshold final
             Hlen Hnone Houtside Hrule ids out); [|done..].
    intros s b Hs Hb. destruct Htable as (_ & Hleaf & _).
    rewrite (singleton_support_zero table bootstrap_clusters s [s] b); [|by auto|done|done].
    apply ge_float_zero_support; [done|]. by destruct bootstrap_clusters. }
  exists table, out. split_and!; [done| |by apply partition_of_permutation|done].
  unfold vcfToMatrix.collapse_clusters. fold bv. by rewrite Hloop.
Qed.

Lemma collapse_partition_witness :
  ∃ table out,
    get_cluster_members
      [LinkageRow 0 1 (Num 0.1) 2; LinkageRow 2 3 (Num 0.1) 2; LinkageRow 4 5 (Num 1) 4] 4
      = Ok table ∧
    vcfToMatrix.collapse_clusters table
      (vcfToMatrix.calculate_bootstrap_values table
         [[[0]; [1]; [2]; [3]; [0; 1]; [2; 3]; [0; 1; 2; 3]];
          [[0]; [1]; [2]; [3]; [1; 2]; [0; 3]; [0; 1; 2; 3]]]) 0.99
      = Ok out ∧
    is_partition 4 out ∧
    concat out ≡ₚ seq 0 4.
Proof.
  apply (collapse_partition 4
           [LinkageRow 0 1 (Num 0.1) 2; LinkageRow 2 3 (Num 0.1) 2; LinkageRow 4 5 (Num 1) 4]
           [[[0]; [1]; [2]; [3]; [0; 1]; [2; 3]; [0; 1; 2; 3]];
            [[0]; [1]; [2]; [3]; [1; 2]; [0; 3]; [0; 1; 2; 3]]] 0.99).
  - split; [|compute_done].
    intros [|[|[|i]]] row [=]; subst; simpl; lia.
  - reflexivity.
  - discriminate.
Defined.

(** * The support calculator *)

(** X1.  The support calculator of vcfToMatrix.py.  When neither the
    canonical table nor any replicate repeats a member list and there is
    at least one replicate, a node with more than one member gets the
    number of replicates that contain its member list divided by the
    number of replicates, a node with one member gets 0, and every
    support lies in [0, 1]. *)
Theorem support_is_replicate_fraction true_clusters bootstrap_clusters :
  NoDup true_clusters →
  Forall NoDup bootstrap_clusters →
  bootstrap_clusters ≠ [] →
  let support := vcfToMatrix.calculate_bootstrap_values true_clusters bootstrap_clusters in
  length support = length true_clusters ∧
  (∀ i cluster, true_clusters !! i = Some cluster → 1 < length cluster →
     support !! i =
     Some (Num (inject_Z (Z.of_nat (length (filter (λ one_bootstrap, cluster ∈ one_bootstrap)
                                              bootstrap_clusters)))
                / inject_Z (Z.of_nat (length bootstrap_clusters))))) ∧
  (∀ i cluster, true_clusters !! i = Some cluster → length cluster ≤ 1 →
     ∃ q, support !! i = Some (Num q) ∧ (q == 0)%Q) ∧
  (∀ v, v ∈ support → ∃ q, v = Num q ∧ (0 <= q <= 1)%Q).
Proof.
  intros Htc Hbs Hne support.
  assert (Hn : length bootstrap_clusters ≠ 0) by by destruct bootstrap_clusters.
  assert (Hlookup : ∀ i cluster, true_clusters !! i = Some cluster →
            support !! i =
            Some (Num (inject_Z (Z.of_nat
                         (if bool_decide (1 < length cluster)
                          then length (filter (λ one_bootstrap, cluster ∈ one_bootstrap)
                                         bootstrap_clusters)
                          else 0))
                       / inject_Z (Z.of_nat (length bootstrap_clusters))))).
  { intros i cluster Hi. unfold support.
    rewrite calculate_bootstrap_values_lookup.
    rewrite decide_True by by eapply lookup_lt_Some.
    rewrite (sum_hits_NoDup _ _ i cluster) by done.
    by rewrite true_divide_pos. }
  split_and!.
  - apply calculate_bootstrap_values_length.
  - intros i cluster Hi Hsize. rewrite (Hlookup i cluster Hi).
    by rewrite bool_decide_eq_true_2.
  - intros i cluster Hi Hsize. rewrite (Hlookup i cluster Hi).
    rewrite bool_decide_eq_false_2 by lia. eexists. split; [done|].
    unfold Qdiv. apply Qmult_0_l.
  - intros v [i Hv]%list_elem_of_lookup.
    assert (is_Some (true_clusters !! i)) as [cluster Hi].
    { apply lookup_lt_is_Some. apply lookup_lt_Some in Hv.
      unfold support in Hv. by rewrite calculate_bootstrap_values_length in Hv. }
    rewrite (Hlookup i cluster Hi) in Hv. injection Hv as <-.
    eexists. split; [done|]. apply count_fraction_bounds; [|lia].
    case_bool_decide; [apply length_filter|lia].
Qed.

Lemma support_is_replicate_fraction_witness :
  let support :=
    vcfToMatrix.calculate_bootstrap_values [[0]; [1]; [2]; [0; 1]; [0; 1; 2]]
      [[[0]; [1]; [2]; [0; 1]; [0; 1; 2]]; [[0]; [1]; [2]; [1; 2]; [0; 1; 2]]] in
  length support = length [[0]; [1]; [2]; [0; 1]; [0; 1; 2]] ∧
  (∀ i cluster, [[0]; [1]; [2]; [0; 1]; [0; 1; 2]] !! i = Some cluster →
     1 < length cluster →
     support !! i =
     Some (Num (inject_Z (Z.of_nat (length (filter (λ one_bootstrap, cluster ∈ one_bootstrap)
                  [[[0]; [1]; [2]; [0; 1]; [0; 1; 2]]; [[0]; [1]; [2]; [1; 2]; [0; 1; 2]]])))
                / inject_Z (Z.of_nat (length
                  [[[0]; [1]; [2]; [0; 1]; [0; 1; 2]]; [[0]; [1]; [2]; [1; 2]; [0; 1; 2]]]))))) ∧
  (∀ i cluster, [[0]; [1]; [2]; [0; 1]; [0; 1; 2]] !! i = Some cluster →
     length cluster ≤ 1 →
     ∃ q, support !! i = Some (Num q) ∧ (q == 0)%Q) ∧
  (∀ v, v ∈ support → ∃ q, v = Num q ∧ (0 <= q <= 1)%Q).
Proof.
  apply (support_is_replicate_fraction [[0]; [1]; [2]; [0; 1]; [0; 1; 2]]
           [[[0]; [1]; [2]; [0; 1]; [0; 1; 2]]; [[0]; [1]; [2]; [1; 2]; [0; 1; 2]]]).
  - compute_done.
  - repeat constructor; compute_done.
  - discriminate.
Defined.

(** The tables that [get_cluster_members] builds from well-formed trees
    meet the two conditions on repeated member lists. *)
Lemma tables_have_no_repeats n_samples hclust table :
  wf_merge_tree n_samples hclust →
  get_cluster_members hclust n_samples = Ok table → NoDup table.
Proof.
  intros Hwf Hrun.
  destruct (get_cluster_members_table n_samples hclust (proj1 Hwf))
    as (table' & Hrun' & Htable).
  rewrite Hrun in Hrun'. injection Hrun' as <-.
  by eapply table_NoDup.
Qed.

(** The support calculator of vcfToMatrix_2.py has no guard on the size
    of the cluster: a singleton leaf that every replicate contains gets
    full support. *)
Lemma singleton_full_support_v2 true_clusters bootstrap_clusters i s :
  NoDup true_clusters →
  Forall NoDup bootstrap_clusters →
  bootstrap_clusters ≠ [] →
  true_clusters !! i = Some [s] →
  Forall (λ one_bootstrap, [s] ∈ one_bootstrap) bootstrap_clusters →
  ∃ q, vcfToMatrix_2.calculate_bootstrap_values true_clusters bootstrap_clusters !! i
       = Some (Num q) ∧ (q == 1)%Q.
Proof.
  intros Htc Hbs Hne Hi Hall.
  rewrite calculate_bootstrap_values_v2_lookup.
  rewrite decide_True by by eapply lookup_lt_Some.
  rewrite (sum_hits_NoDup _ _ i [s]) by done.
  rewrite true_divide_pos by by destruct bootstrap_clusters.
  eexists. split; [done|].
  replace (filter (λ one_bootstrap, [s] ∈ one_bootstrap) bootstrap_clusters)
    with bootstrap_clusters.
  - apply Qmult_inv_r. change 0%Q with (inject_Z 0). rewrite inject_Z_injective.
    destruct bootstrap_clusters; [done|]. simpl. lia.
  - clear Hbs Hne. induction Hall as [|rep bs Hrep Hall IH]; [done|].
    rewrite filter_cons_True by done. by rewrite <-IH.
Qed.

(** C5.  The support calculator of vcfToMatrix_2.py does not exclude
    singletons: from a single replicate the two leaves of a two-sample
    tree get support 1, where vcfToMatrix.py gives them 0. *)
Theorem singleton_support_v2 :
  vcfToMatrix_2.calculate_bootstrap_values [[0]; [1]; [0; 1]] [[[0]; [1]; [0; 1]]]
    = [Num 1; Num 1; Num 1] ∧
  vcfToMatrix.calculate_bootstrap_values [[0]; [1]; [0; 1]] [[[0]; [1]; [0; 1]]]
    = [Num 0; Num 0; Num 1].
Proof. split; vm_compute; reflexivity. Qed.

(** * The quality filter *)

Lemma where_true_lt {A} (P : A → Prop) `{∀ x, Decision (P x)} (l : list A) i :
  i ∈ where_true P l → i < length l.
Proof.
  unfold where_true. intros ([j x] & -> & Hin)%list_elem_of_fmap.
  apply list_elem_of_filter in Hin as [_ Hin].
  apply list_elem_of_lookup in Hin as [k Hk].
  apply list_lookup_imap_Some in Hk as (y & Hy & [= <- <-]).
  by eapply lookup_lt_Some.
Qed.

Lemma at_positions_length {A} (l : list A) positions :
  Forall (λ i, i < length l) positions →
  length (at_positions l positions) = length positions.
Proof.
  unfold at_positions. induction 1 as [|i positions Hi _ IH]; [done|]. cbn.
  destruct (lookup_lt_is_Some_2 l i Hi) as [x Hx]. rewrite Hx. cbn.
  f_equal. apply IH.
Qed.

Lemma filter_diff_matrix_shape differences samples min_snvs :
  length samples = n_cols differences →
  n_cols (filter_diff_matrix differences samples min_snvs).1 =
  length (filter_diff_matrix differences samples min_snvs).2.
Proof.
  intros Hlen. unfold filter_diff_matrix. simpl.
  rewrite at_positions_length; [done|].
  apply Forall_forall. intros i Hi%where_true_lt.
  by rewrite length_fmap, length_seq, <-Hlen in Hi.
Qed.

(** C7 as stated fails: of two samples one has a call and one has none;
    one sample passes the filter and the arrays are returned.  In
    vcfToMatrix_2.py even an empty sample list is returned. *)
Lemma single_sample_passes :
  vcfToMatrix.get_diff_matrix_from_bcf "in.bcf" ["A"; "B"]
    [[[Some 0; Some 0]; [None; None]]] 1 0.9
    = Ok (Tensor 1 [[[Num 0]]], ["A"]) ∧
  vcfToMatrix_2.get_diff_matrix_from_bcf "in.bcf" ["A"; "B"]
    [[[None; None]; [None; None]]] 1 0.9
    = Ok (Tensor 0 [], []).
Proof. split; vm_compute; reflexivity. Qed.

(** C7, amended.  In vcfToMatrix.py the run exits, with a message that
    names the threshold and the input, exactly when the filter keeps no
    sample; one sample or more is returned.  vcfToMatrix_2.py returns
    whatever the filter keeps. *)
Theorem quality_filter_exit bcf_file samples records min_snvs max_prop_missing :
  records ≠ [] →
  ∃ differences kept,
    filtered_differences samples records min_snvs max_prop_missing
      = Ok (differences, kept) ∧
    n_cols differences = length kept ∧
    vcfToMatrix.get_diff_matrix_from_bcf bcf_file samples records min_snvs
      max_prop_missing
      = (if decide (length kept = 0)
         then Raise (SystemExit ("No clusters with at least " +:+ pretty min_snvs
                                 +:+ " SNVs for " +:+ bcf_file))
         else Ok (differences, kept)) ∧
    vcfToMatrix_2.get_diff_matrix_from_bcf bcf_file samples records min_snvs
      max_prop_missing
      = Ok (differences, kept).
Proof.
  intros Hne. unfold vcfToMatrix.get_diff_matrix_from_bcf,
    vcfToMatrix_2.get_diff_matrix_from_bcf, filtered_differences.
  destruct records as [|calls records]; [done|]. cbn [fmap list_fmap].
  match goal with
  | |- context [Ok (filter_diff_matrix ?d samples min_snvs)] =>
      pose proof (filter_diff_matrix_shape d samples min_snvs eq_refl) as Hshape;
      destruct (filter_diff_matrix d samples min_snvs) as [differences kept] eqn:Hf
  end.
  simpl in Hshape. exists differences, kept. split_and!; [done..| |done].
  cbn [bind fst]. rewrite Hshape. by destruct (decide (length kept = 0)).
Qed.

Lemma quality_filter_exit_witness :
  ∃ differences kept,
    filtered_differences ["A"; "B"]
      [[[Some 0; Some 0]; [None; None]]; [[Some 0; Some 1]; [None; None]]] 2 0.9
      = Ok (differences, kept) ∧
    n_cols differences = length kept ∧
    vcfToMatrix.get_diff_matrix_from_bcf "in.bcf" ["A"; "B"]
      [[[Some 0; Some 0]; [None; None]]; [[Some 0; Some 1]; [None; None]]] 2 0.9
      = (if decide (length kept = 0)
         then Raise (SystemExit ("No clusters with at least " +:+ pretty 2%Z
                                 +:+ " SNVs for " +:+ "in.bcf"))
         else Ok (differences, kept)) ∧
    vcfToMatrix_2.get_diff_matrix_from_bcf "in.bcf" ["A"; "B"]
      [[[Some 0; Some 0]; [None; None]]; [[Some 0; Some 1]; [None; None]]] 2 0.9
      = Ok (differences, kept).
Proof.
  apply (quality_filter_exit "in.bcf" ["A"; "B"]
           [[[Some 0; Some 0]; [None; None]]; [[Some 0; Some 1]; [None; None]]] 2 0.9).
  discriminate.
Defined.

Example quality_filter_exits_on_no_sample :
  vcfToMatrix.get_diff_matrix_from_bcf "in.bcf" ["A"; "B"]
    [[[Some 0; Some 1]; [Some 1]]] 1000 0.9
    = Raise (SystemExit "No clusters with at least 1000 SNVs for in.bcf").
Proof. vm_compute. reflexivity. Qed.

Example genotype_codes :
  genotype_code <$> [[Some 0; Some 0]; [Some 0; Some 1]; [Some 1; Some 0];
                     [Some 1; Some 1]; [Some 1]; [None; None]; [None]]
  = [Num 0; Num 1; Num 1; Num 2; Num 1; NaN; NaN].
Proof. vm_compute. reflexivity. Qed.

(** * The distance matrix builder *)

Lemma nansum_no_comparison differences i j :
  n_comps differences i j = 0 → nansum differences i j = Num 0.
Proof.
  unfold n_comps, nansum. generalize (Num 0).
  induction (slices differences) as [|m ms IH]; intros acc Hzero; [done|].
  rewrite filter_cons in Hzero. simpl.
  destruct (decide (isnan (entry m i j) = false)) as [Hnan|Hnan]; [done|].
  apply not_false_is_true in Hnan. rewrite Hnan. by apply IH.
Qed.

Lemma proportion_matrix_lookup differences i j :
  i < n_cols differences → j < n_cols differences →
  ∃ row, proportion_matrix differences !! i = Some row ∧
         row !! j = Some (divide_float (nansum differences i j)
                            (n_comps differences i j * 2)).
Proof.
  intros Hi Hj. unfold proportion_matrix. eexists. split.
  - rewrite list_lookup_fmap, lookup_seq_lt by done. done.
  - rewrite list_lookup_fmap, lookup_seq_lt by done. done.
Qed.

(** C6 as stated fails: two samples, each called at one of two loci and
    never at the same one.  Both pass the quality filter, the pair has
    no valid comparison, and the distance matrix comes back with NaN for
    the pair; nothing is raised. *)
Lemma no_comparison_returns_nan :
  vcfToMatrix.get_diff_matrix_from_bcf "in.bcf" ["A"; "B"]
    [[[Some 0; Some 0]; [None; None]]; [[None; None]; [Some 0; Some 1]]] 1 0.9
  = Ok (Tensor 2 [[[Num 0; NaN]; [NaN; NaN]]; [[NaN; NaN]; [NaN; Num 0]]], ["A"; "B"]) ∧
  calc_proportion_dist_matrix unit (λ _ _, ([], ()))
    (Tensor 2 [[[Num 0; NaN]; [NaN; NaN]]; [[NaN; NaN]; [NaN; Num 0]]]) false ()
  = Ok ([[Num (0 # 2); NaN]; [NaN; Num (0 # 2)]], ()).
Proof. split; vm_compute; reflexivity. Qed.

(** C6, amended.  For a pair of samples with no non-missing comparison
    the distance computation raises nothing; it returns a matrix whose
    entry for the pair is NaN, and [main] hands that matrix to
    [hierarchical_clustering] as it is. *)
Theorem no_comparison_flows_into_clustering
    (rng : Type) (random_choice : rng → nat → list nat * rng)
    (hierarchical_clustering : list (list npfloat) → result (list linkage_row))
    (differences : tensor) (st : rng) (i j : nat) :
  i < n_cols differences → j < n_cols differences →
  n_comps differences i j = 0 →
  ∃ dist,
    calc_proportion_dist_matrix rng random_choice differences false st = Ok (dist, st) ∧
    (∃ row, dist !! i = Some row ∧ row !! j = Some NaN) ∧
    main_clustering rng random_choice hierarchical_clustering differences st
      = (hclust_out ←! hierarchical_clustering dist; Ok (hclust_out, st)).
Proof.
  intros Hi Hj Hzero. exists (proportion_matrix differences). split_and!; [done| |done].
  destruct (proportion_matrix_lookup differences i j Hi Hj) as (row & Hrow & Hentry).
  exists row. split; [done|].
  by rewrite Hentry, nansum_no_comparison, Hzero.
Qed.

Lemma no_comparison_flows_into_clustering_witness :
  ∃ dist,
    calc_proportion_dist_matrix unit (λ _ _, ([], ()))
      (Tensor 2 [[[Num 0; NaN]; [NaN; NaN]]; [[NaN; NaN]; [NaN; Num 0]]]) false ()
      = Ok (dist, ()) ∧
    (∃ row, dist !! 0 = Some row ∧ row !! 1 = Some NaN) ∧
    main_clustering unit (λ _ _, ([], ())) (λ _, Ok [])
      (Tensor 2 [[[Num 0; NaN]; [NaN; NaN]]; [[NaN; NaN]; [NaN; Num 0]]]) ()
      = (hclust_out ←! (λ _, Ok []) dist; Ok (hclust_out, ())).
Proof.
  apply (no_comparison_flows_into_clustering unit (λ _ _, ([], ())) (λ _, Ok [])
           (Tensor 2 [[[Num 0; NaN]; [NaN; NaN]]; [[NaN; NaN]; [NaN; Num 0]]]) () 0 1).
  - simpl. lia.
  - simpl. lia.
  - reflexivity.
Defined.

(** * The threshold boundary *)

(** A support equal to the threshold meets [>=] and neither [>] nor [<]. *)
Lemma support_equal_to_threshold threshold :
  ge_float (Num threshold) threshold = true ∧
  gt_float (Num threshold) threshold = false ∧
  lt_float (Num threshold) threshold = false.
Proof.
  simpl. unfold Qle_bool, Qlt_bool. split_and!.
  - apply Z.leb_refl.
  - apply Z.ltb_irrefl.
  - apply Z.ltb_irrefl.
Qed.

(** In vcfToMatrix.py a node under a fork whose support equals the
    threshold becomes a fork. *)
Lemma collapse_step_at_threshold true_clusters bootstrap_values threshold
    (parent_dict : gmap key verdict) cluster_num parent :
  find_parent_node cluster_num true_clusters = Ok parent →
  parent_dict !! parent = Some Fork →
  bootstrap_values !! cluster_num = Some (Num threshold) →
  vcfToMatrix.collapse_step true_clusters bootstrap_values threshold parent_dict
    cluster_num = Ok (<[KNode cluster_num := Fork]> parent_dict).
Proof.
  intros Hparent Hfork Hb.
  unfold vcfToMatrix.collapse_step, vcfToMatrix.is_parent_a_fork.
  rewrite Hparent. simpl. rewrite Hfork. simpl.
  rewrite (index_lookup _ _ _ Hb). simpl.
  destruct (support_equal_to_threshold threshold) as (Hge & _).
  simpl in Hge. by rewrite Hge.
Qed.

(** In vcfToMatrix_2.py the same node meets none of the four tests. *)
Lemma collapse_step_at_threshold_v2 true_clusters bootstrap_values threshold
    (parent_dict : gmap key verdict) cluster_num parent v :
  find_parent_node cluster_num true_clusters = Ok parent →
  parent_dict !! parent = Some v →
  bootstrap_values !! cluster_num = Some (Num threshold) →
  vcfToMatrix_2.collapse_step true_clusters bootstrap_values threshold parent_dict
    cluster_num = Raise (NoCriteriaMet cluster_num).
Proof.
  intros Hparent Hv Hb.
  unfold vcfToMatrix_2.collapse_step, vcfToMatrix_2.is_parent_a_cluster.
  rewrite Hparent. cbn [bind]. rewrite Hv. cbn [bind].
  rewrite (index_lookup _ _ _ Hb). cbn [bind].
  destruct (support_equal_to_threshold threshold) as (_ & Hgt & Hlt).
  by rewrite Hgt, Hlt.
Qed.

(** The splitter of vcfToMatrix.py cuts the tree when the support of
    the root equals the threshold. *)
Lemma top_level_at_threshold cut_tree hclust bootstrap_values threshold :
  last bootstrap_values = Some (Num threshold) →
  vcfToMatrix.collapse_top_lvl_clusters cut_tree hclust bootstrap_values threshold
  = Ok [compress_label (cut_tree hclust 2) 0; compress_label (cut_tree hclust 2) 1].
Proof.
  intros Hlast. unfold vcfToMatrix.collapse_top_lvl_clusters.
  rewrite last_lookup in Hlast.
  replace (pred (length bootstrap_values)) with (length bootstrap_values - 1) in Hlast by lia.
  rewrite (index_lookup _ _ _ Hlast). simpl.
  destruct (support_equal_to_threshold threshold) as (Hge & _).
  simpl in Hge. by rewrite Hge.
Qed.

(** *** The two collapsers away from the threshold *)

Lemma gt_float_ge b threshold :
  gt_float b threshold = true → ge_float b threshold = true.
Proof.
  destruct b as [|[]|q]; simpl; [done..|].
  unfold Qle_bool, Qlt_bool. rewrite Z.ltb_lt, Z.leb_le. lia.
Qed.

Lemma lt_float_not_gt b threshold :
  lt_float b threshold = true → gt_float b threshold = false.
Proof.
  destruct b as [|[]|q]; simpl; [done..|].
  unfold Qlt_bool. rewrite Z.ltb_lt, Z.ltb_ge. lia.
Qed.

Lemma collapse_step_keeps_none true_clusters bootstrap_values threshold
    (parent_dict final : gmap key verdict) cluster_num :
  vcfToMatrix.collapse_step true_clusters bootstrap_values threshold parent_dict
    cluster_num = Ok final →
  final !! KNone = parent_dict !! KNone.
Proof.
  unfold vcfToMatrix.collapse_step.
  intros (fork & _ & (b & _ & Hrest)%bind_Ok)%bind_Ok.
  destruct fork.
  - destruct (ge_float b threshold); [|destruct (lt_float b threshold)];
      simplify_eq; by rewrite ?lookup_insert_ne.
  - apply bind_Ok in Hrest as (parent & _ & Hrest).
    destruct (parent_dict !! parent); simplify_eq. by rewrite lookup_insert_ne.
Qed.

(** One iteration: when the support is above or below the threshold,
    vcfToMatrix_2.py stores what vcfToMatrix.py stores. *)
Lemma collapse_step_v2_v1 true_clusters bootstrap_values threshold
    (parent_dict : gmap key verdict) cluster_num :
  parent_dict !! KNone = Some Fork →
  (∀ b, bootstrap_values !! cluster_num = Some b →
        gt_float b threshold = true ∨ lt_float b threshold = true) →
  vcfToMatrix_2.collapse_step true_clusters bootstrap_values threshold parent_dict
    cluster_num
  = vcfToMatrix.collapse_step true_clusters bootstrap_values threshold parent_dict
      cluster_num.
Proof.
  intros Hnone Hdecided.
  unfold vcfToMatrix_2.collapse_step, vcfToMatrix.collapse_step,
    vcfToMatrix_2.is_parent_a_cluster, vcfToMatrix.is_parent_a_fork,
    vcfToMatrix_2.inherit.
  destruct (find_parent_node cluster_num true_clusters) as [parent|e] eqn:Hparent;
    cbn [bind]; [|done].
  destruct (parent_dict !! parent) as [v|] eqn:Hv; cbn [bind]; [|done].
  unfold index. destruct (bootstrap_values !! cluster_num) as [b|] eqn:Hb;
    cbn [bind]; [|done].
  assert (Hcluster : bool_decide (v ≠ Fork) && bool_decide (parent ≠ KNone)
                     = negb (bool_decide (v = Fork))).
  { destruct v as [|c]; [done|]. destruct parent; [congruence|done]. }
  rewrite Hcluster. destruct (Hdecided b eq_refl) as [Hgt|Hlt].
  - rewrite Hgt, (gt_float_ge _ _ Hgt). by destruct v.
  - rewrite Hlt, (lt_float_not_gt _ _ Hlt), (lt_float_not_ge _ _ Hlt). by destruct v.
Qed.

Lemma collapse_loop_v2_v1 true_clusters bootstrap_values threshold n :
  ∀ parent_dict : gmap key verdict,
  parent_dict !! KNone = Some Fork →
  (∀ b, b ∈ bootstrap_values →
        gt_float b threshold = true ∨ lt_float b threshold = true) →
  vcfToMatrix_2.collapse_loop true_clusters bootstrap_values threshold n parent_dict
  = vcfToMatrix.collapse_loop true_clusters bootstrap_values threshold n parent_dict.
Proof.
  induction n as [|n IH]; intros parent_dict Hnone Hdecided; [done|]. simpl.
  rewrite collapse_step_v2_v1; [|done|].
  2:{ intros b Hb. apply Hdecided. by eapply list_elem_of_lookup_2. }
  destruct (vcfToMatrix.collapse_step _ _ _ parent_dict n) as [next|e] eqn:Hstep;
    cbn [bind]; [|done].
  apply IH; [|done]. by rewrite (collapse_step_keeps_none _ _ _ _ _ _ Hstep).
Qed.

(** X2.  The collapser of vcfToMatrix_2.py returns what the collapser of
    vcfToMatrix.py returns (the same clusters or the same exception)
    whenever every support is a number other than the threshold. *)
Theorem collapsers_agree_off_threshold true_clusters bootstrap_values threshold :
  (∀ b, b ∈ bootstrap_values →
        gt_float b threshold = true ∨ lt_float b threshold = true) →
  vcfToMatrix_2.collapse_clusters true_clusters bootstrap_values threshold
  = vcfToMatrix.collapse_clusters true_clusters bootstrap_values threshold.
Proof.
  intros Hdecided.
  unfold vcfToMatrix_2.collapse_clusters, vcfToMatrix.collapse_clusters.
  rewrite collapse_loop_v2_v1; [done| |done]. apply lookup_singleton_eq.
Qed.

Lemma collapsers_agree_off_threshold_witness :
  vcfToMatrix_2.collapse_clusters [[0]; [1]; [2]; [0; 1]; [0; 1; 2]]
    [Num 0; Num 0; Num 0; Num 0.5; Num 1] 0.95
  = vcfToMatrix.collapse_clusters [[0]; [1]; [2]; [0; 1]; [0; 1; 2]]
      [Num 0; Num 0; Num 0; Num 0.5; Num 1] 0.95.
Proof.
  apply (collapsers_agree_off_threshold [[0]; [1]; [2]; [0; 1]; [0; 1; 2]]
           [Num 0; Num 0; Num 0; Num 0.5; Num 1] 0.95).
  intros b Hb.
  repeat (apply elem_of_cons in Hb as [->|Hb]; [compute; auto|]).
  by apply elem_of_nil in Hb.
Defined.

(** C3.  With the threshold 0.95 that vcfToMatrix_2.py passes and 95 of
    100 replicates reproducing node 3, the support of node 3 equals the
    threshold: vcfToMatrix_2.py, which compares with [>] and [<], raises
    its "did not meet any criteria" error, where vcfToMatrix.py, which
    compares with [>=], makes the node a fork. *)
Theorem equal_support_raises_v2 :
  vcfToMatrix_2.calculate_bootstrap_values [[0]; [1]; [2]; [0; 1]; [0; 1; 2]]
    (replicate 95 [[0]; [1]; [2]; [0; 1]; [0; 1; 2]]
     ++ replicate 5 [[0]; [1]; [2]; [1; 2]; [0; 1; 2]])
    = [Num 1.00; Num 1.00; Num 1.00; Num 0.95; Num 1.00] ∧
  vcfToMatrix_2.collapse_clusters [[0]; [1]; [2]; [0; 1]; [0; 1; 2]]
    [Num 1.00; Num 1.00; Num 1.00; Num 0.95; Num 1.00] 0.95
    = Raise (NoCriteriaMet 3) ∧
  (parent_dict ←! vcfToMatrix.collapse_loop [[0]; [1]; [2]; [0; 1]; [0; 1; 2]]
                     [Num 0; Num 0; Num 0; Num 0.95; Num 1] 0.95 5 {[KNone := Fork]};
   Ok (parent_dict !! KNode 3))
    = Ok (Some Fork).
Proof. split_and!; vm_compute; reflexivity. Qed.

(** * The top-level splitter *)

Lemma elem_of_compress_label labels label x :
  x ∈ compress_label labels label ↔ labels !! x = Some label.
Proof.
  unfold compress_label. rewrite list_elem_of_fmap. split.
  - intros ([i l] & -> & Hin). apply list_elem_of_filter in Hin as [Hl Hin].
    apply list_elem_of_lookup in Hin as [k Hk].
    apply list_lookup_imap_Some in Hk as (y & Hy & [= <- <-]).
    simpl in *. by subst.
  - intros Hx. exists (x, label). split; [done|].
    apply list_elem_of_filter. split; [done|].
    apply list_elem_of_lookup. exists x. rewrite list_lookup_imap, Hx. done.
Qed.

Lemma top_level_meets_threshold cut_tree hclust bootstrap_values threshold top :
  last bootstrap_values = Some top → ge_float top threshold = true →
  vcfToMatrix.collapse_top_lvl_clusters cut_tree hclust bootstrap_values threshold
  = Ok [compress_label (cut_tree hclust 2) 0; compress_label (cut_tree hclust 2) 1].
Proof.
  intros Hlast Hge. unfold vcfToMatrix.collapse_top_lvl_clusters.
  rewrite last_lookup in Hlast.
  replace (pred (length bootstrap_values)) with (length bootstrap_values - 1) in Hlast by lia.
  rewrite (index_lookup _ _ _ Hlast). cbn [bind]. by rewrite Hge.
Qed.

(** Below the threshold the single group lists every node id, not
    every sample. *)
Lemma top_level_below_threshold cut_tree hclust bootstrap_values threshold top :
  last bootstrap_values = Some top → ge_float top threshold = false →
  vcfToMatrix.collapse_top_lvl_clusters cut_tree hclust bootstrap_values threshold
  = Ok [seq 0 (length bootstrap_values)].
Proof.
  intros Hlast Hge. unfold vcfToMatrix.collapse_top_lvl_clusters.
  rewrite last_lookup in Hlast.
  replace (pred (length bootstrap_values)) with (length bootstrap_values - 1) in Hlast by lia.
  rewrite (index_lookup _ _ _ Hlast). cbn [bind]. by rewrite Hge.
Qed.

Lemma traverse_index_out_of_range {A} (l : list A) positions i :
  i ∈ positions → length l ≤ i → traverse (index l) positions = Raise IndexError.
Proof.
  intros Hin Hi. induction positions as [|j positions IH]; [by apply elem_of_nil in Hin|].
  simpl. unfold index at 1. destruct (l !! j) as [x|] eqn:Hj; [|done]. simpl.
  apply elem_of_cons in Hin as [->|Hin].
  - apply lookup_lt_Some in Hj. lia.
  - by rewrite IH.
Qed.

(** Whenever the tree has a merge and the root is below the threshold,
    the single group holds an id that is no sample, and the lookup of
    the sample names in [main] fails. *)
Lemma top_level_fallback_not_samples cut_tree n_samples hclust bootstrap_values
    threshold top samples :
  last bootstrap_values = Some top → ge_float top threshold = false →
  length bootstrap_values = n_samples + length hclust →
  hclust ≠ [] → length samples = n_samples →
  ∃ group,
    vcfToMatrix.collapse_top_lvl_clusters cut_tree hclust bootstrap_values threshold
      = Ok [group] ∧
    n_samples ∈ group ∧
    vcfToMatrix.clusters_with_names samples [group] = Raise IndexError.
Proof.
  intros Hlast Hge Hlen Hmerge Hsamples.
  exists (seq 0 (length bootstrap_values)).
  assert (Hin : n_samples ∈ seq 0 (length bootstrap_values)).
  { apply elem_of_seq. destruct hclust; [done|]. simpl in Hlen. lia. }
  split_and!; [by eapply top_level_below_threshold|done|].
  unfold vcfToMatrix.clusters_with_names. simpl.
  rewrite (traverse_index_out_of_range samples _ n_samples); [done|done|lia].
Qed.

(** C4.  Two samples, root support 0.5 below the threshold 0.99: the
    single group returned by [collapse_top_lvl_clusters] is [0; 1; 2],
    one entry per node of the tree and not per sample, and [main] fails
    when it looks up the name of sample 2. *)
Theorem top_level_fallback_lists_node_ids (cut_tree : list linkage_row → nat → list nat) :
  get_cluster_members [LinkageRow 0 1 (Num 0.2) 2] 2 = Ok [[0]; [1]; [0; 1]] ∧
  vcfToMatrix.collapse_top_lvl_clusters cut_tree [LinkageRow 0 1 (Num 0.2) 2]
    [Num 0; Num 0; Num 0.5] 0.99 = Ok [[0; 1; 2]] ∧
  vcfToMatrix.clusters_with_names ["A"; "B"] [[0; 1; 2]] = Raise IndexError.
Proof. split_and!; reflexivity. Qed.

(** * The bootstrap engine *)

Lemma traverse_Ok {A B} (f : A → result B) l ys :
  traverse f l = Ok ys ↔ Forall2 (λ x y, f x = Ok y) l ys.
Proof.
  split; [apply traverse_Ok_Forall2|].
  induction 1 as [|x y l ys Hx _ IH]; simpl; [done|]. by rewrite Hx, IH.
Qed.

Section engine.
Variable rng : Type.
Variable random_choice : rng → nat → list nat * rng.
Variable hierarchical_clustering : list (list npfloat) → result (list linkage_row).
Variable random_seed : nat → rng.
Variable differences : tensor.

Local Abbreviation worker :=
  (bootstrap_worker rng random_choice hierarchical_clustering random_seed).
Local Abbreviation replicate_members :=
  (replicate_members rng random_choice hierarchical_clustering random_seed differences).

Lemma bootstrap_worker_ignores_state i st st' :
  worker i differences st = worker i differences st'.
Proof. reflexivity. Qed.

Lemma run_schedule_Ok init schedule : ∀ pool final,
  run_schedule rng random_choice hierarchical_clustering random_seed differences init
    schedule pool = Ok final →
  (∀ job, job ∈ schedule →
     ∃ r, replicate_members job.2 = Ok r ∧ final.2 !! job.2 = Some r) ∧
  (∀ i, i ∉ schedule.*2 → final.2 !! i = pool.2 !! i).
Proof.
  induction schedule as [|job rest IH]; intros pool final; simpl.
  - intros [= <-]. split; [|done]. intros job []%elem_of_nil.
  - intros (pool1 & Htask & Hrest)%bind_Ok.
    unfold run_task in Htask. apply bind_Ok in Htask as (done & Hdone & [= <-]).
    destruct (IH _ _ Hrest) as [Hjobs Hframe]. simpl in Hframe.
    assert (Hme : replicate_members job.2 = Ok done.1).
    { unfold replicate_members.
      by rewrite (bootstrap_worker_ignores_state _ _
                    (default (init job.1) (pool.1 !! job.1))), Hdone. }
    split.
    + intros job' [->|Hin]%elem_of_cons; [|by apply Hjobs].
      exists done.1. split; [done|].
      destruct (decide (job.2 ∈ rest.*2)) as [Hlater|Hlater].
      * apply list_elem_of_fmap in Hlater as (job' & Heq & Hin).
        destruct (Hjobs job' Hin) as (r & Hr & Hlook).
        rewrite <-Heq in Hr, Hlook. congruence.
      * rewrite Hframe by done. apply lookup_insert_eq.
    + intros i Hi. apply not_elem_of_cons in Hi as [Hne Hi].
      rewrite Hframe by done. by apply lookup_insert_ne.
Qed.

Lemma run_schedule_total init schedule : ∀ pool,
  (∀ job, job ∈ schedule → ∃ r, replicate_members job.2 = Ok r) →
  ∃ final, run_schedule rng random_choice hierarchical_clustering random_seed
             differences init schedule pool = Ok final.
Proof.
  induction schedule as [|job rest IH]; intros pool Hall; simpl; [by eexists|].
  destruct (Hall job) as (r & Hr); [left|].
  unfold replicate_members in Hr. apply bind_Ok in Hr as (done & Hdone & _).
  unfold run_task.
  rewrite (bootstrap_worker_ignores_state _ _ (random_seed job.2)), Hdone. simpl.
  apply IH. intros job' Hin. apply Hall. by right.
Qed.

(** The engine returns what running the replicates one after the other
    returns, whatever the schedule. *)
Lemma engine_sequential n_bootstrap threads schedule init l :
  valid_schedule n_bootstrap threads schedule →
  get_bootstrap_cluster_members rng random_choice hierarchical_clustering random_seed
    differences n_bootstrap threads schedule init = Ok l ↔
  threads ≠ 0 ∧ traverse replicate_members (seq 0 n_bootstrap) = Ok l.
Proof.
  intros [Hperm Hworkers]. unfold get_bootstrap_cluster_members.
  destruct (decide (threads = 0)) as [Hzero|Hpos]; [naive_solver|].
  assert (Hjob : ∀ i, i ∈ seq 0 n_bootstrap → ∃ job, job ∈ schedule ∧ job.2 = i).
  { intros i Hi. rewrite <-Hperm in Hi.
    apply list_elem_of_fmap in Hi as (job & -> & Hin). eauto. }
  rewrite bind_Ok. split.
  - intros (final & Hrun & Hall). split; [done|].
    destruct (run_schedule_Ok _ _ _ _ Hrun) as [Hjobs _].
    apply traverse_Ok, Forall2_same_length_lookup in Hall as [Hlen Hall].
    apply traverse_Ok, Forall2_same_length_lookup. split; [done|]. intros k i r Hi Hr.
    specialize (Hall k i r Hi Hr). simpl in Hall.
    destruct (Hjob i) as (job & Hin & <-); [by eapply list_elem_of_lookup_2|].
    destruct (Hjobs job Hin) as (r' & Hr' & Hlook').
    rewrite Hlook' in Hall. congruence.
  - intros [_ Hall]. apply traverse_Ok in Hall.
    destruct (run_schedule_total init schedule (∅, ∅)) as [final Hrun].
    { intros job Hin.
      assert (Hi : job.2 ∈ seq 0 n_bootstrap).
      { rewrite <-Hperm. by apply list_elem_of_fmap_2. }
      apply list_elem_of_lookup in Hi as [k Hk].
      destruct (Forall2_lookup_l _ _ _ _ _ Hall Hk) as (r & _ & Hr). eauto. }
    exists final. split; [done|].
    destruct (run_schedule_Ok _ _ _ _ Hrun) as [Hjobs _].
    apply Forall2_same_length_lookup in Hall as [Hlen Hall].
    apply traverse_Ok, Forall2_same_length_lookup. split; [done|]. intros k i r Hi Hr.
    specialize (Hall k i r Hi Hr). simpl in Hall.
    destruct (Hjob i) as (job & Hin & <-); [by eapply list_elem_of_lookup_2|].
    destruct (Hjobs job Hin) as (r' & Hr' & ->). congruence.
Qed.

End engine.

(** C9.  [bootstrap_worker] seeds the generator with its replicate
    index before anything else, so what a replicate returns does not
    depend on the state the worker process was in.  Hence two runs of
    the engine over the same tensor and the same number of replicates
    return the same list of member-list collections, whichever worker
    ran which replicate and in whatever order, and the support vectors
    computed from the two runs are the same. *)
Theorem bootstrap_engine_deterministic
    (rng : Type) (random_choice : rng → nat → list nat * rng)
    (hierarchical_clustering : list (list npfloat) → result (list linkage_row))
    (random_seed : nat → rng) (differences : tensor) (n_bootstrap threads : nat)
    (schedule1 schedule2 : list (nat * nat)) (init1 init2 : nat → rng)
    (true_clusters : list (list nat)) :
  valid_schedule n_bootstrap threads schedule1 →
  valid_schedule n_bootstrap threads schedule2 →
  (∀ i st st',
     bootstrap_worker rng random_choice hierarchical_clustering random_seed
       i differences st
     = bootstrap_worker rng random_choice hierarchical_clustering random_seed
         i differences st') ∧
  (∀ l,
     get_bootstrap_cluster_members rng random_choice hierarchical_clustering
       random_seed differences n_bootstrap threads schedule1 init1 = Ok l ↔
     get_bootstrap_cluster_members rng random_choice hierarchical_clustering
       random_seed differences n_bootstrap threads schedule2 init2 = Ok l) ∧
  (∀ support,
     (l ←! get_bootstrap_cluster_members rng random_choice hierarchical_clustering
             random_seed differences n_bootstrap threads schedule1 init1;
      Ok (vcfToMatrix.calculate_bootstrap_values true_clusters l)) = Ok support ↔
     (l ←! get_bootstrap_cluster_members rng random_choice hierarchical_clustering
             random_seed differences n_bootstrap threads schedule2 init2;
      Ok (vcfToMatrix.calculate_bootstrap_values true_clusters l)) = Ok support).
Proof.
  intros Hs1 Hs2.
  assert (Hsame : ∀ l,
    get_bootstrap_cluster_members rng random_choice hierarchical_clustering
      random_seed differences n_bootstrap threads schedule1 init1 = Ok l ↔
    get_bootstrap_cluster_members rng random_choice hierarchical_clustering
      random_seed differences n_bootstrap threads schedule2 init2 = Ok l).
  { intros l. by rewrite !engine_sequential. }
  split_and!; [done|done|].
  intros support. rewrite !bind_Ok. split.
  - intros (l & Hl & Hsupport). exists l. split; [by apply Hsame|done].
  - intros (l & Hl & Hsupport). exists l. split; [by apply Hsame|done].
Qed.

Lemma bootstrap_engine_deterministic_witness :
  (∀ i st st',
     bootstrap_worker nat demo.random_choice demo.hierarchical_clustering
       demo.random_seed i demo.differences st
     = bootstrap_worker nat demo.random_choice demo.hierarchical_clustering
         demo.random_seed i demo.differences st') ∧
  (∀ l,
     get_bootstrap_cluster_members nat demo.random_choice demo.hierarchical_clustering
       demo.random_seed demo.differences 2 2 [(0, 0); (1, 1)] (λ _, 7) = Ok l ↔
     get_bootstrap_cluster_members nat demo.random_choice demo.hierarchical_clustering
       demo.random_seed demo.differences 2 2 [(1, 1); (1, 0)] (λ _, 9) = Ok l) ∧
  (∀ support,
     (l ←! get_bootstrap_cluster_members nat demo.random_choice
             demo.hierarchical_clustering demo.random_seed demo.differences 2 2
             [(0, 0); (1, 1)] (λ _, 7);
      Ok (vcfToMatrix.calculate_bootstrap_values [[0]; [1]; [0; 1]] l)) = Ok support ↔
     (l ←! get_bootstrap_cluster_members nat demo.random_choice
             demo.hierarchical_clustering demo.random_seed demo.differences 2 2
             [(1, 1); (1, 0)] (λ _, 9);
      Ok (vcfToMatrix.calculate_bootstrap_values [[0]; [1]; [0; 1]] l)) = Ok support).
Proof.
  apply (bootstrap_engine_deterministic nat demo.random_choice
           demo.hierarchical_clustering demo.random_seed demo.differences 2 2
           [(0, 0); (1, 1)] [(1, 1); (1, 0)] (λ _, 7) (λ _, 9) [[0]; [1]; [0; 1]]).
  - split; [reflexivity|]. repeat constructor; simpl; lia.
  - split; [apply Permutation_swap|]. repeat constructor; simpl; lia.
Defined.

Example engine_run :
  get_bootstrap_cluster_members nat demo.random_choice demo.hierarchical_clustering
    demo.random_seed demo.differences 2 2 [(1, 1); (1, 0)] (λ _, 9)
  = Ok [[[0]; [1]; [0; 1]]; [[0]; [1]; [0; 1]]].
Proof. vm_compute. reflexivity. Qed.

(** * The genotype codes *)

Lemma pretty_N_go_length x : ∀ s, String.length s ≤ String.length (pretty_N_go x s).
Proof.
  induction (N.lt_wf_0 x) as [x _ IH]. intros s.
  assert (x = 0 ∨ 0 < x)%N as [->|?] by lia; [by rewrite pretty_N_go_0|].
  rewrite pretty_N_go_step by done.
  etrans; [|apply IH; by apply N.div_lt]. simpl. lia.
Qed.

Lemma pretty_nat_nonempty (n : nat) : 1 ≤ String.length (pretty n).
Proof.
  unfold pretty, pretty_nat, pretty, pretty_N.
  case_decide; [done|].
  rewrite pretty_N_go_step by lia.
  etrans; [|apply pretty_N_go_length]. done.
Qed.

Lemma allele_str_nonempty a : 1 ≤ String.length (allele_str a).
Proof. destruct a; [apply pretty_nat_nonempty|simpl; lia]. Qed.

Lemma allele_str_bit a :
  allele_str a = "0" ∨ allele_str a = "1" → ∃ n, a = Some n ∧ n ≤ 1.
Proof.
  intros Ha. destruct a as [n|]; [|naive_solver]. exists n. split; [done|].
  simpl in Ha. destruct Ha as [Ha|Ha].
  - assert (n = 0) as ->; [|lia]. by apply (inj pretty).
  - assert (n = 1) as ->; [|lia]. by apply (inj pretty).
Qed.

Lemma string_app_length s t : String.length (s +:+ t) = String.length s + String.length t.
Proof. induction s as [|c s IH]; [done|]. cbn. by rewrite <- IH. Qed.

Lemma dist_key_dict_lookup s v :
  dist_key_dict !! s = Some v →
  (s = "00" ∧ v = Num 0) ∨ (s = "01" ∧ v = Num 1) ∨ (s = "10" ∧ v = Num 1) ∨
  (s = "11" ∧ v = Num 2) ∨ v = NaN.
Proof.
  unfold dist_key_dict.
  rewrite !lookup_insert_Some, lookup_singleton_Some. naive_solver.
Qed.

Lemma concat_cons_cons x y (l : list string) :
  String.concat "" (x :: y :: l) = x +:+ String.concat "" (y :: l).
Proof. reflexivity. Qed.

Lemma concat_alleles_length l :
  length l ≤ String.length (String.concat "" (allele_str <$> l)).
Proof.
  induction l as [|a [|b l] IH]; [simpl; lia| |].
  - pose proof (allele_str_nonempty a). simpl. lia.
  - rewrite !fmap_cons, concat_cons_cons, string_app_length.
    rewrite !fmap_cons in IH.
    pose proof (allele_str_nonempty a). simpl in *. lia.
Qed.

Lemma string_length_1 s : String.length s = 1 → ∃ c, s = String c "".
Proof. destruct s as [|c [|]]; naive_solver. Qed.

Lemma called_alleles l v :
  length l ≠ 1 →
  dist_key_dict !! String.concat "" (allele_str <$> l) = Some v → v ≠ NaN →
  ∃ a b, l = [Some a; Some b] ∧ a ≤ 1 ∧ b ≤ 1.
Proof.
  intros Hl Hv Hnan.
  assert (String.length (String.concat "" (allele_str <$> l)) = 2) as Hlen.
  { apply dist_key_dict_lookup in Hv as [[-> _]|[[-> _]|[[-> _]|[[-> _]|?]]]]; done. }
  pose proof (concat_alleles_length l) as Hle. rewrite Hlen in Hle.
  destruct l as [|x [|y [|z l]]]; simpl in Hle, Hl; [done|done| |lia].
  rewrite !fmap_cons, concat_cons_cons in Hv, Hlen. simpl in Hv, Hlen.
  rewrite string_app_length in Hlen.
  pose proof (allele_str_nonempty x). pose proof (allele_str_nonempty y).
  destruct (string_length_1 (allele_str x)) as [c Hx]; [lia|].
  destruct (string_length_1 (allele_str y)) as [d Hy]; [lia|].
  rewrite Hx, Hy in Hv.
  destruct (allele_str_bit x) as (a & -> & ?).
  { rewrite Hx.
    apply dist_key_dict_lookup in Hv as [[Hk _]|[[Hk _]|[[Hk _]|[[Hk _]|?]]]];
      [injection Hk as -> _; auto..|done]. }
  destruct (allele_str_bit y) as (b & -> & ?).
  { rewrite Hy.
    apply dist_key_dict_lookup in Hv as [[Hk _]|[[Hk _]|[[Hk _]|[[Hk _]|?]]]];
      [injection Hk as _ ->; auto..|done]. }
  eauto.
Qed.

Lemma pad_len_1_genotype_length gt : length (pad_len_1_genotype gt) ≠ 1.
Proof. by destruct gt as [|? [|? ?]]. Qed.

Lemma genotype_code_cases gt :
  genotype_code gt =
  match gt with
  | [Some a] => if decide (a ≤ 1) then Num (inject_Z (Z.of_nat a)) else NaN
  | [Some a; Some b] =>
      if decide (a ≤ 1 ∧ b ≤ 1) then Num (inject_Z (Z.of_nat (a + b))) else NaN
  | _ => NaN
  end.
Proof.
  assert (∀ a b, a ≤ 1 → b ≤ 1 →
    default NaN (dist_key_dict !! String.concat "" (allele_str <$> [Some a; Some b]))
    = Num (inject_Z (Z.of_nat (a + b)))) as Hcalled.
  { intros [|[|]] [|[|]] ??; try lia; vm_compute; reflexivity. }
  unfold genotype_code.
  destruct (dist_key_dict !! _) as [v|] eqn:Hv; simpl.
  - destruct (decide (v = NaN)) as [->|Hnan].
    + destruct gt as [|[a|] [|[b|] [|]]]; try done; cbn [pad_len_1_genotype] in Hv;
        repeat case_decide; try done.
      * pose proof (Hcalled a 0) as Hab. rewrite Hv in Hab. by specialize (Hab ltac:(lia) ltac:(lia)).
      * pose proof (Hcalled a b) as Hab. rewrite Hv in Hab. by specialize (Hab ltac:(lia) ltac:(lia)).
    + destruct (called_alleles _ _ (pad_len_1_genotype_length gt) Hv Hnan)
        as (a & b & Hpad & ? & ?).
      rewrite Hpad in Hv.
      pose proof (Hcalled a b) as Hab. rewrite Hv in Hab. simpl in Hab.
      destruct gt as [|[x|] [|[y|] [|]]]; try done; simpl in Hpad; simplify_eq.
      * rewrite decide_True by lia. rewrite Hab by lia. by rewrite Nat.add_0_r.
      * rewrite decide_True by lia. by rewrite Hab.
  - destruct gt as [|[a|] [|[b|] [|]]]; try done; cbn [pad_len_1_genotype] in Hv;
      repeat case_decide; try done.
    + pose proof (Hcalled a 0) as Hab. rewrite Hv in Hab. by specialize (Hab ltac:(lia) ltac:(lia)).
    + pose proof (Hcalled a b) as Hab. rewrite Hv in Hab. by specialize (Hab ltac:(lia) ltac:(lia)).
Qed.

(** X3.  The genotype code of a call is the number of alternate alleles
    when the call, after a single allele has been padded with 0, has two
    alleles that are both 0 or 1; every other call (a missing allele, an
    allele index above 1, no allele or more than two) gets NaN.  Both
    scripts share this code. *)
Theorem genotype_code_counts_alternate_alleles gt :
  genotype_code gt =
  match gt with
  | [Some a] => if decide (a ≤ 1) then Num (inject_Z (Z.of_nat a)) else NaN
  | [Some a; Some b] =>
      if decide (a ≤ 1 ∧ b ≤ 1) then Num (inject_Z (Z.of_nat (a + b))) else NaN
  | _ => NaN
  end.
Proof. apply genotype_code_cases. Qed.

(** * The difference tensor and the quality filter *)

Lemma at_positions_lookup {A} (l : list A) positions i :
  Forall (λ p, p < length l) positions →
  at_positions l positions !! i = positions !! i ≫= (l !!.).
Proof.
  unfold at_positions. intros Hin. revert i.
  induction Hin as [|p ps Hp _ IH]; intros i; [done|].
  apply lookup_lt_is_Some in Hp as [x Hx]. simpl. rewrite Hx.
  destruct i as [|i]; simpl; [done|apply IH].
Qed.

Lemma elem_of_at_positions {A} (l : list A) positions x :
  x ∈ at_positions l positions → x ∈ l.
Proof.
  unfold at_positions. rewrite list_elem_of_omap. intros (p & _ & Hp).
  by eapply list_elem_of_lookup_2.
Qed.

Lemma where_true_cons {A} (P : A → Prop) `{∀ x, Decision (P x)} x (l : list A) :
  where_true P (x :: l) =
  (if decide (P x) then [0] else []) ++ (S <$> where_true P l).
Proof.
  unfold where_true. rewrite imap_cons, filter_cons. simpl.
  assert (∀ g : nat → nat,
            fst <$> filter (λ p : nat * A, P p.2) (imap (λ i y, (g i, y)) l)
            = g <$> (fst <$> filter (λ p : nat * A, P p.2) (imap pair l))) as Hrest.
  { intros g. clear x.
    induction l as [|y l IH] using rev_ind; [done|].
    rewrite !imap_app, !filter_app, !fmap_app, IH. f_equal.
    simpl. rewrite !filter_cons. simpl. by case_decide. }
  specialize (Hrest S).
  case_decide; simpl; by rewrite <- Hrest.
Qed.

Lemma where_true_Forall_lt {A} (P : A → Prop) `{∀ x, Decision (P x)} (l : list A) :
  Forall (λ p, p < length l) (where_true P l).
Proof. apply Forall_forall. intros p. apply where_true_lt. Qed.

Lemma at_positions_where_true {A B} (P : B → Prop) `{∀ x, Decision (P x)}
    (l : list A) (cs : list B) :
  length l = length cs →
  at_positions l (where_true P cs) = fst <$> filter (λ p, P p.2) (zip l cs).
Proof.
  revert cs. induction l as [|x l IH]; intros [|c cs] ?; simplify_eq/=; [done|].
  rewrite where_true_cons, filter_cons. unfold at_positions in *.
  rewrite omap_app. simpl.
  assert (omap (λ i, (x :: l) !! i) (S <$> where_true P cs)
          = omap (l !!.) (where_true P cs)) as ->.
  { generalize (where_true P cs). intros ps. induction ps as [|p ps IHp]; [done|].
    csimpl. by rewrite IHp. }
  rewrite IH by done. by case_decide.
Qed.

Lemma at_positions_filter {A B} (P : B → Prop) `{∀ x, Decision (P x)}
    (f : A → B) (l : list A) :
  at_positions l (where_true P (f <$> l)) = filter (λ x, P (f x)) l.
Proof.
  rewrite at_positions_where_true by by rewrite length_fmap.
  induction l as [|x l IH]; [done|].
  csimpl. rewrite !filter_cons. csimpl. case_decide; csimpl; by rewrite IH.
Qed.

(** ** Difference tensors *)

Lemma entry_Some (m : list (list npfloat)) i j row x :
  m !! i = Some row → row !! j = Some x → entry m i j = x.
Proof. unfold entry. intros -> Hx. simpl. by rewrite Hx. Qed.

Lemma entry_outside_row (m : list (list npfloat)) i j : m !! i = None → entry m i j = NaN.
Proof. unfold entry. by intros ->. Qed.

Lemma entry_outside_col (m : list (list npfloat)) i j row :
  m !! i = Some row → row !! j = None → entry m i j = NaN.
Proof. unfold entry. intros -> Hx. simpl. by rewrite Hx. Qed.

Lemma entry_locus_differences genotypes i j :
  entry (locus_differences genotypes) i j =
  match genotypes !! i, genotypes !! j with
  | Some a, Some b => abs_diff a b
  | _, _ => NaN
  end.
Proof.
  unfold entry, locus_differences. rewrite list_lookup_fmap.
  destruct (genotypes !! i) as [a|]; simpl; [|done].
  rewrite list_lookup_fmap. by destruct (genotypes !! j).
Qed.

Lemma genotype_code_is_code gt : is_code (genotype_code gt).
Proof.
  rewrite genotype_code_cases. unfold is_code.
  destruct gt as [|[a|] [|[b|] [|]]]; auto; repeat case_decide; auto.
  - destruct a as [|[|]]; [auto..|lia].
  - destruct a as [|[|]], b as [|[|]]; try lia; auto.
Qed.

Lemma abs_diff_codes a b :
  is_code a → is_code b →
  abs_diff a b = abs_diff b a ∧ is_code (abs_diff a b) ∧
  isnan (abs_diff a a) = isnan a ∧
  (abs_diff a a = NaN ∨ abs_diff a a = Num 0).
Proof.
  unfold is_code.
  intros [-> | [-> | [-> | -> ]]] [-> | [-> | [-> | -> ]]]; vm_compute; auto 10.
Qed.

Lemma locus_differences_matrix genotypes :
  Forall is_code genotypes →
  difference_matrix (length genotypes) (locus_differences genotypes).
Proof.
  intros Hcodes. rewrite Forall_lookup in Hcodes.
  assert (∀ i j, is_code (entry (locus_differences genotypes) i j)) as Hentry.
  { intros i j. rewrite entry_locus_differences.
    destruct (genotypes !! i) as [a|] eqn:Ha; [|by left].
    destruct (genotypes !! j) as [b|] eqn:Hb; [|by left].
    by apply abs_diff_codes; eauto. }
  split_and!.
  - unfold locus_differences. by rewrite length_fmap.
  - unfold locus_differences. apply Forall_fmap, Forall_forall. intros a _.
    simpl. by rewrite length_fmap.
  - intros i j. rewrite !entry_locus_differences.
    destruct (genotypes !! i) as [a|] eqn:Ha, (genotypes !! j) as [b|] eqn:Hb; try done.
    by apply abs_diff_codes; eauto.
  - intros i j. destruct (Hentry i j) as [-> | [-> | [-> | -> ]]]; [by left|right..].
    + exists 0%Q. split; [done|]. split; by vm_compute.
    + exists 1%Q. split; [done|]. split; by vm_compute.
    + exists 2%Q. split; [done|]. split; by vm_compute.
  - intros i. rewrite entry_locus_differences.
    destruct (genotypes !! i) as [a|] eqn:Ha; [|by left].
    destruct (abs_diff_codes a a) as (_ & _ & _ & [->| ->]); eauto.
    right. by exists 0%Q.
Qed.

Lemma entry_kept n m keep i j :
  difference_matrix n m → Forall (λ p, p < n) keep →
  entry ((λ row, at_positions row keep) <$> at_positions m keep) i j =
  match keep !! i, keep !! j with
  | Some p, Some q => entry m p q
  | _, _ => NaN
  end.
Proof.
  intros (Hlen & Hrows & _) Hkeep.
  unfold entry at 1. rewrite list_lookup_fmap, at_positions_lookup by by rewrite Hlen.
  destruct (keep !! i) as [p|] eqn:Hp; simpl; [|done].
  assert (p < n) as Hpn by (rewrite Forall_lookup in Hkeep; eauto).
  destruct (lookup_lt_is_Some_2 m p) as [row Hrow]; [lia|]. rewrite Hrow. simpl.
  assert (length row = n) as Hrown.
  { rewrite Forall_lookup in Hrows. eauto. }
  rewrite at_positions_lookup by by rewrite Hrown.
  destruct (keep !! j) as [q|] eqn:Hq; simpl; [|done].
  unfold entry. rewrite Hrow. done.
Qed.

Lemma kept_matrix n m keep :
  difference_matrix n m → Forall (λ p, p < n) keep →
  difference_matrix (length keep)
    ((λ row, at_positions row keep) <$> at_positions m keep).
Proof.
  intros Hm Hkeep. pose proof Hm as (Hlen & Hrows & Hsym & Hval & Hdiag).
  split_and!.
  - rewrite length_fmap. apply at_positions_length. by rewrite Hlen.
  - apply Forall_fmap, Forall_forall. intros row Hrow. simpl.
    apply at_positions_length. apply elem_of_at_positions in Hrow.
    rewrite Forall_forall in Hrows. by rewrite (Hrows row Hrow).
  - intros i j. rewrite !(entry_kept n) by done.
    destruct (keep !! i), (keep !! j); auto.
  - intros i j. rewrite (entry_kept n) by done.
    destruct (keep !! i), (keep !! j); auto.
  - intros i. rewrite (entry_kept n) by done.
    destruct (keep !! i); auto.
Qed.

Lemma filter_diff_matrix_tensor differences samples min_snvs :
  difference_tensor differences →
  difference_tensor (filter_diff_matrix differences samples min_snvs).1.
Proof.
  unfold difference_tensor, filter_diff_matrix. simpl. intros Hd.
  apply Forall_fmap. eapply Forall_impl; [done|]. intros m Hm. simpl.
  apply (kept_matrix (n_cols differences)); [done|].
  eapply Forall_impl; [apply where_true_Forall_lt|].
  intros p. simpl. by rewrite length_fmap, length_seq.
Qed.

Lemma filter_imap_shift {A} (Q : nat → Prop) `{∀ i, Decision (Q i)} (g : nat → nat)
    (l : list A) :
  snd <$> filter (λ p : nat * A, Q p.1) (imap (λ i y, (g i, y)) l)
  = snd <$> filter (λ p : nat * A, Q (g p.1)) (imap pair l).
Proof.
  induction l as [|y l IH] using rev_ind; [done|].
  rewrite !imap_app, !filter_app, !fmap_app, IH. f_equal.
  simpl. rewrite !filter_cons. simpl. by case_decide.
Qed.

Lemma at_positions_by_index {A B} (P : B → Prop) `{∀ x, Decision (P x)}
    (l : list A) : ∀ f : nat → B,
  at_positions l (where_true P (f <$> seq 0 (length l)))
  = snd <$> filter (λ p : nat * A, P (f p.1)) (imap pair l).
Proof.
  induction l as [|x l IH]; intros f; [done|].
  simpl length. rewrite <- cons_seq, <- fmap_S_seq, fmap_cons, <- list_fmap_compose.
  rewrite where_true_cons, imap_cons, filter_cons.
  unfold at_positions in *. rewrite omap_app.
  assert (omap (λ i, (x :: l) !! i) (S <$> where_true P (f ∘ S <$> seq 0 (length l)))
          = omap (l !!.) (where_true P (f ∘ S <$> seq 0 (length l)))) as ->.
  { generalize (where_true P (f ∘ S <$> seq 0 (length l))).
    intros ps. induction ps as [|p ps IHp]; [done|]. csimpl. by rewrite IHp. }
  rewrite IH.
  change (imap (pair ∘ S) l) with (imap (λ i (y : A), (S i, y)) l).
  pose proof (filter_imap_shift (λ i, P (f i)) S l) as Hshift. simpl in Hshift.
  simpl. case_decide; csimpl; by rewrite Hshift.
Qed.

Lemma length_filter_fmap {A B} (P : B → Prop) `{∀ x, Decision (P x)} (f : A → B) l :
  length (filter P (f <$> l)) = length (filter (λ x, P (f x)) l).
Proof.
  induction l as [|x l IH]; [done|].
  csimpl. rewrite !filter_cons. case_decide; simpl; by rewrite IH.
Qed.

Lemma length_filter_ext {A} (P Q : A → Prop) `{∀ x, Decision (P x)}
    `{∀ x, Decision (Q x)} l :
  Forall (λ x, P x ↔ Q x) l → length (filter P l) = length (filter Q l).
Proof.
  induction 1 as [|x l Hx _ IH]; [done|].
  rewrite !filter_cons. repeat case_decide; simpl; try rewrite IH; tauto.
Qed.

Lemma retained_loci_codes samples records max_prop_missing :
  Forall (λ calls : list (list (option nat)), length calls = length samples) records →
  Forall (λ row : list npfloat, Forall is_code row ∧ length row = length samples)
    (retained_loci samples records max_prop_missing).
Proof.
  intros Hrec. unfold retained_loci. apply Forall_forall. intros row Hrow.
  apply list_elem_of_filter in Hrow as [_ Hrow].
  apply list_elem_of_fmap in Hrow as (calls & -> & Hcalls).
  rewrite Forall_forall in Hrec. split.
  - apply Forall_fmap, Forall_forall. intros gt _. apply genotype_code_is_code.
  - rewrite length_fmap. by apply Hrec.
Qed.

Lemma n_comps_called (samples : list string) loci i :
  Forall (λ row : list npfloat, Forall is_code row ∧ length row = length samples) loci →
  n_comps (Tensor (length samples) (locus_differences <$> loci)) i i = n_called loci i.
Proof.
  intros Hloci. unfold n_comps, n_called. simpl. rewrite length_filter_fmap.
  apply length_filter_ext. eapply Forall_impl; [done|].
  intros row [Hcodes _]. simpl. rewrite entry_locus_differences.
  destruct (row !! i) as [a|] eqn:Ha; simpl; [|done].
  rewrite Forall_lookup in Hcodes.
  by destruct (abs_diff_codes a a) as (_ & _ & -> & _); eauto.
Qed.

Lemma filtered_differences_unfold samples records min_snvs max_prop_missing :
  records ≠ [] →
  filtered_differences samples records min_snvs max_prop_missing =
  Ok (filter_diff_matrix
        (Tensor (length samples)
           (locus_differences <$> retained_loci samples records max_prop_missing))
        samples min_snvs).
Proof.
  intros Hrec. unfold filtered_differences, retained_loci.
  destruct records as [|calls records]; [done|].
  rewrite fmap_cons. cbv zeta. rewrite <- fmap_cons.
  by rewrite at_positions_filter.
Qed.

Lemma filtered_samples samples records min_snvs max_prop_missing :
  Forall (λ calls : list (list (option nat)), length calls = length samples) records →
  (filter_diff_matrix
     (Tensor (length samples)
        (locus_differences <$> retained_loci samples records max_prop_missing))
     samples min_snvs).2
  = snd <$> filter (λ p : nat * string,
                      (min_snvs ≤ Z.of_nat
                         (n_called (retained_loci samples records max_prop_missing) p.1))%Z)
              (imap pair samples).
Proof.
  intros Hrec. unfold filter_diff_matrix. cbv zeta. simpl.
  rewrite (at_positions_by_index (λ n, (min_snvs ≤ Z.of_nat n)%Z) samples).
  f_equal. apply list_filter_iff. intros [i s]. simpl.
  rewrite (n_comps_called samples); [done|].
  by apply retained_loci_codes.
Qed.

Lemma filtered_tensor samples records min_snvs max_prop_missing :
  Forall (λ calls : list (list (option nat)), length calls = length samples) records →
  let filtered :=
    filter_diff_matrix
      (Tensor (length samples)
         (locus_differences <$> retained_loci samples records max_prop_missing))
      samples min_snvs in
  difference_tensor filtered.1 ∧
  n_cols filtered.1 = length filtered.2 ∧
  length (slices filtered.1) = length (retained_loci samples records max_prop_missing).
Proof.
  intros Hrec filtered. split_and!.
  - apply filter_diff_matrix_tensor. unfold difference_tensor. simpl.
    apply Forall_fmap. eapply Forall_impl; [by apply retained_loci_codes|].
    intros row [Hcodes <-]. simpl. by apply locus_differences_matrix.
  - by apply filter_diff_matrix_shape.
  - unfold filtered, filter_diff_matrix. simpl. by rewrite !length_fmap.
Qed.

(** X4.  The quality filter of both scripts.  When the file has a record
    and every record has a call for every sample, the samples returned
    are, in the order of the header, those that have a called genotype
    (a code that is not NaN) at at least [min_snvs] of the retained loci,
    a locus being retained when its fraction of missing codes is at most
    [max_prop_missing]; the tensor returned has one slice per retained
    locus. *)
Theorem quality_filter_keeps_called_samples samples records min_snvs max_prop_missing :
  records ≠ [] →
  Forall (λ calls : list (list (option nat)), length calls = length samples) records →
  ∃ differences,
    filtered_differences samples records min_snvs max_prop_missing
    = Ok (differences,
          snd <$> filter (λ p : nat * string,
                            (min_snvs ≤ Z.of_nat
                               (n_called (retained_loci samples records max_prop_missing)
                                  p.1))%Z)
                    (imap pair samples)) ∧
    length (slices differences)
    = length (retained_loci samples records max_prop_missing).
Proof.
  intros Hne Hrec. rewrite filtered_differences_unfold by done.
  destruct (filtered_tensor samples records min_snvs max_prop_missing Hrec)
    as (_ & _ & Hlen).
  rewrite <- (filtered_samples samples records min_snvs max_prop_missing Hrec).
  eexists. split; [|exact Hlen]. by destruct (filter_diff_matrix _ _ _).
Qed.

Lemma quality_filter_keeps_called_samples_witness :
  ∃ differences,
    filtered_differences ["A"; "B"]
      [[[Some 0; Some 0]; [None; None]]; [[Some 0; Some 1]; [None; None]]] 2 0.9
    = Ok (differences,
          snd <$> filter (λ p : nat * string,
                            Z.le 2
                              (Z.of_nat
                                 (n_called
                                    (retained_loci ["A"; "B"]
                                       [[[Some 0; Some 0]; [None; None]];
                                        [[Some 0; Some 1]; [None; None]]] 0.9)
                                    p.1)))
                    (imap pair ["A"; "B"])) ∧
    length (slices differences)
    = length (retained_loci ["A"; "B"]
                [[[Some 0; Some 0]; [None; None]]; [[Some 0; Some 1]; [None; None]]]
                0.9).
Proof.
  apply (quality_filter_keeps_called_samples ["A"; "B"]
           [[[Some 0; Some 0]; [None; None]]; [[Some 0; Some 1]; [None; None]]] 2 0.9).
  - discriminate.
  - repeat constructor.
Defined.

(** X5.  The tensor of differences that both scripts build.  When the
    file has a record and every record has a call for every sample, the
    tensor has as many columns as samples were kept, and each of its
    slices is a square symmetric matrix whose entries are NaN or lie
    between 0 and 2 and whose diagonal is NaN or 0. *)
Theorem filtered_differences_symmetric samples records min_snvs max_prop_missing :
  records ≠ [] →
  Forall (λ calls : list (list (option nat)), length calls = length samples) records →
  ∃ differences kept,
    filtered_differences samples records min_snvs max_prop_missing
      = Ok (differences, kept) ∧
    n_cols differences = length kept ∧
    difference_tensor differences.
Proof.
  intros Hne Hrec. rewrite filtered_differences_unfold by done.
  destruct (filtered_tensor samples records min_snvs max_prop_missing Hrec)
    as (Htensor & Hcols & _).
  destruct (filter_diff_matrix _ _ _) as [differences kept]. eauto.
Qed.

Lemma filtered_differences_symmetric_witness :
  ∃ differences kept,
    filtered_differences ["A"; "B"]
      [[[Some 0; Some 0]; [Some 0; Some 1]]; [[Some 0; Some 1]; [None; None]]] 1 0.9
      = Ok (differences, kept) ∧
    n_cols differences = length kept ∧
    difference_tensor differences.
Proof.
  apply (filtered_differences_symmetric ["A"; "B"]
           [[[Some 0; Some 0]; [Some 0; Some 1]]; [[Some 0; Some 1]; [None; None]]] 1 0.9).
  - discriminate.
  - repeat constructor.
Defined.

(** * The proportions of differences *)

Lemma inject_nat_succ n :
  (inject_Z (Z.of_nat (S n)) == inject_Z (Z.of_nat n) + 1)%Q.
Proof. rewrite Nat2Z.inj_succ. unfold Z.succ. by rewrite inject_Z_plus. Qed.

Lemma nansum_bounds differences i j :
  Forall (λ m, entry m i j = NaN ∨ ∃ q, entry m i j = Num q ∧ (0 <= q <= 2)%Q)
    (slices differences) →
  ∃ q, nansum differences i j = Num q ∧
       (0 <= q <= 2 * inject_Z (Z.of_nat (n_comps differences i j)))%Q.
Proof.
  unfold nansum, n_comps. generalize (slices differences). intros ms Hms.
  cut (∀ q0, ∃ q,
         foldl (λ acc m, if isnan (entry m i j) then acc
                         else add_float acc (entry m i j)) (Num q0) ms = Num q ∧
         (q0 <= q <= q0 + 2 * inject_Z (Z.of_nat
            (length (filter (λ m, isnan (entry m i j) = false) ms))))%Q).
  { intros Hcut. destruct (Hcut 0%Q) as (q & -> & ?). exists q. split; [done|].
    set (c := inject_Z _) in *. clearbody c. clear -H. lra. }
  induction Hms as [|m ms Hm _ IH]; intros q0.
  - exists q0. split; [done|]. change (q0 <= q0 <= q0 + 2 * 0)%Q. lra.
  - simpl. rewrite filter_cons.
    destruct Hm as [Hm|(x & Hm & Hx)]; rewrite Hm; simpl.
    + destruct (IH q0) as (q & -> & ?). exists q. split; [done|].
      done.
    + destruct (IH (q0 + x)%Q) as (q & -> & ?). exists q. split; [done|].

      pose proof (inject_nat_succ
        (length (filter (λ m, isnan (entry m i j) = false) ms))).
      lra.
Qed.

Lemma proportion_bounds q n :
  (0 <= q <= 2 * inject_Z (Z.of_nat n))%Q →
  divide_float (Num q) (n * 2) = NaN ∨
  ∃ p, divide_float (Num q) (n * 2) = Num p ∧ (0 <= p <= 1)%Q ∧ ((q == 0)%Q → (p == 0)%Q).
Proof.
  intros Hq. destruct n as [|n].
  - left. change (0 <= q <= 2 * 0)%Q in Hq. assert (q == 0)%Q as Hq0 by lra. simpl.
    apply Qeq_bool_iff in Hq0. by rewrite Hq0.
  - right. simpl. eexists. split; [done|].
    set (d := inject_Z (Z.of_nat (S (S (n * 2))))).
    assert (d == 2 * inject_Z (Z.of_nat (S n)))%Q as Hd.
    { unfold d. replace (S (S (n * 2))) with (2 * S n) by lia.
      rewrite Nat2Z.inj_mul, inject_Z_mult. done. }
    assert (0 < inject_Z (Z.of_nat (S n)))%Q as Hpos.
    { rewrite <- (Zlt_Qlt 0). lia. }
    clearbody d. set (c := inject_Z (Z.of_nat (S n))) in *. clearbody c.
    assert (0 < d)%Q by lra.
    split_and!.
    + apply Qle_shift_div_l; [done|]. lra.
    + apply Qle_shift_div_r; [done|]. lra.
    + intros ->. unfold Qdiv. lra.
Qed.

Lemma nansum_symmetric differences i j :
  Forall (λ m, entry m i j = entry m j i) (slices differences) →
  nansum differences i j = nansum differences j i ∧
  n_comps differences i j = n_comps differences j i.
Proof.
  unfold nansum, n_comps. generalize (slices differences).
  intros ms Hms. split.
  - generalize (Num 0). induction Hms as [|m ms Hm _ IH]; intros acc; [done|].
    simpl. rewrite Hm. apply IH.
  - apply length_filter_ext. eapply Forall_impl; [done|]. intros m ->. done.
Qed.

Lemma entry_proportion_matrix differences i j :
  entry (proportion_matrix differences) i j =
  if decide (i < n_cols differences ∧ j < n_cols differences)
  then divide_float (nansum differences i j) (n_comps differences i j * 2)
  else NaN.
Proof.
  case_decide as Hij.
  - destruct Hij as [Hi Hj].
    destruct (proportion_matrix_lookup differences i j Hi Hj) as (row & Hrow & Hx).
    by apply (entry_Some _ _ _ row).
  - unfold entry, proportion_matrix. rewrite list_lookup_fmap.
    destruct (seq 0 (n_cols differences) !! i) as [i'|] eqn:Hi; simpl; [|done].
    apply lookup_seq in Hi as [-> Hi]. rewrite list_lookup_fmap.
    destruct (seq 0 (n_cols differences) !! j) as [j'|] eqn:Hj; simpl; [|done].
    apply lookup_seq in Hj as [-> Hj]. lia.
Qed.

Lemma proportion_matrix_distances differences :
  difference_tensor differences →
  proportion_distances (n_cols differences) (proportion_matrix differences).
Proof.
  intros Hd. unfold difference_tensor in Hd.
  assert (∀ i j, Forall (λ m, entry m i j = NaN ∨
                              ∃ q, entry m i j = Num q ∧ (0 <= q <= 2)%Q)
                   (slices differences)) as Hval.
  { intros i j. eapply Forall_impl; [done|]. intros m (_ & _ & _ & H & _). apply H. }
  assert (∀ i j, Forall (λ m, entry m i j = entry m j i) (slices differences)) as Hsym.
  { intros i j. eapply Forall_impl; [done|]. intros m (_ & _ & H & _). apply H. }
  split_and!.
  - unfold proportion_matrix. by rewrite length_fmap, length_seq.
  - unfold proportion_matrix. apply Forall_fmap, Forall_forall. intros i _.
    simpl. by rewrite length_fmap, length_seq.
  - intros i j. rewrite !entry_proportion_matrix.
    destruct (nansum_symmetric differences i j (Hsym i j)) as [-> ->].
    repeat case_decide; try done; lia.
  - intros i j. rewrite entry_proportion_matrix. case_decide; [|by left].
    destruct (nansum_bounds differences i j (Hval i j)) as (q & -> & Hq).
    destruct (proportion_bounds q _ Hq) as [->|(p & -> & ? & _)]; eauto.
  - intros i. rewrite entry_proportion_matrix. case_decide; [|by left].
    destruct (nansum_bounds differences i i (Hval i i)) as (q & Hsum & Hq).
    rewrite Hsum.
    destruct (proportion_bounds q _ Hq) as [->|(p & -> & ? & Hzero)]; [by left|].
    right. exists p. split; [done|]. apply Hzero.
    (* the sum over the diagonal is zero *)
    clear Hq Hzero. revert Hsum. unfold nansum.
    assert (Forall (λ m, entry m i i = NaN ∨ ∃ q, entry m i i = Num q ∧ (q == 0)%Q)
              (slices differences)) as Hdiag.
    { eapply Forall_impl; [done|]. intros m (_ & _ & _ & _ & Hm). apply Hm. }
    revert Hdiag. generalize (slices differences). intros ms Hms.
    cut (∀ q0 q, (q0 == 0)%Q →
           foldl (λ acc m, if isnan (entry m i i) then acc
                           else add_float acc (entry m i i)) (Num q0) ms = Num q →
           (q == 0)%Q).
    { intros Hcut. by apply Hcut. }
    induction Hms as [|m ms Hm _ IH]; intros q0 q' Hq0; simpl.
    + by intros [= <-].
    + destruct Hm as [Hm|(x & Hm & Hx)]; rewrite Hm; simpl; [by apply IH|].
      apply IH. lra.
Qed.

Lemma resampled_tensor differences positions sampled :
  difference_tensor differences →
  traverse (index (slices differences)) positions = Ok sampled →
  difference_tensor (Tensor (n_cols differences) sampled).
Proof.
  unfold difference_tensor. simpl. intros Hd Hs.
  apply traverse_Ok_Forall2 in Hs. rewrite Forall_forall in Hd.
  apply Forall_forall. intros m Hm.
  apply list_elem_of_lookup in Hm as [k Hk].
  destruct (Forall2_lookup_r _ _ _ k m Hs Hk) as (p & _ & Hp).
  apply index_Ok in Hp. apply Hd. by eapply list_elem_of_lookup_2.
Qed.

(** X6.  [calc_proportion_dist_matrix] on a tensor of differences never
    raises without resampling and returns the generator state unchanged;
    with or without resampling, what it returns is a square matrix over
    the samples that is symmetric, whose entries are NaN or lie between 0
    and 1 and whose diagonal is NaN or 0; with resampling it returns
    whenever the positions drawn are positions of loci. *)
Theorem distances_are_proportions (rng : Type)
    (random_choice : rng → nat → list nat * rng) (differences : tensor) (st : rng) :
  difference_tensor differences →
  (∃ dist,
     calc_proportion_dist_matrix rng random_choice differences false st = Ok (dist, st) ∧
     proportion_distances (n_cols differences) dist) ∧
  (∀ dist st',
     calc_proportion_dist_matrix rng random_choice differences true st = Ok (dist, st') →
     proportion_distances (n_cols differences) dist) ∧
  (Forall (λ p, p < length (slices differences))
     (random_choice st (length (slices differences))).1 →
   ∃ dist,
     calc_proportion_dist_matrix rng random_choice differences true st
     = Ok (dist, (random_choice st (length (slices differences))).2)).
Proof.
  intros Hd. split_and!.
  - eexists. split; [reflexivity|]. by apply proportion_matrix_distances.
  - intros dist st'. unfold calc_proportion_dist_matrix.
    destruct (random_choice st _) as [positions st1].
    destruct (traverse _ positions) as [sampled|e] eqn:Hs; simpl; [|done].
    intros [= <- <-].
    by apply (proportion_matrix_distances (Tensor (n_cols differences) sampled)),
      (resampled_tensor differences positions).
  - unfold calc_proportion_dist_matrix.
    destruct (random_choice st _) as [positions st1]. simpl. intros Hpos.
    destruct (traverse_Forall2 (index (slices differences)) (λ _ _, True) positions)
      as (sampled & -> & _); [|simpl; eauto].
    intros p Hp. rewrite Forall_forall in Hpos.
    destruct (lookup_lt_is_Some_2 (slices differences) p (Hpos p Hp)) as [m Hm].
    exists m. split; [by apply index_lookup|done].
Qed.

Lemma distances_are_proportions_witness :
  (∃ dist,
     calc_proportion_dist_matrix nat demo.random_choice demo.differences false 0
       = Ok (dist, 0) ∧
     proportion_distances (n_cols demo.differences) dist) ∧
  (∀ dist st',
     calc_proportion_dist_matrix nat demo.random_choice demo.differences true 0
       = Ok (dist, st') →
     proportion_distances (n_cols demo.differences) dist) ∧
  (Forall (λ p, p < length (slices demo.differences))
     (demo.random_choice 0 (length (slices demo.differences))).1 →
   ∃ dist,
     calc_proportion_dist_matrix nat demo.random_choice demo.differences true 0
     = Ok (dist, (demo.random_choice 0 (length (slices demo.differences))).2)).
Proof.
  apply (distances_are_proportions nat demo.random_choice demo.differences 0).
  unfold difference_tensor, demo.differences. simpl.
  repeat apply Forall_cons_2; [..|apply Forall_nil_2].
  all: split_and!; [done|by repeat apply Forall_cons_2| | |].
  all: try (intros [|[|i]] [|[|j]]; vm_compute; first [done|by left|idtac]).
  all: try (intros [|[|i]]; vm_compute; first [by left|idtac]).
  all: right; eexists; (split; [reflexivity|]); by vm_compute.
Defined.

(** * The membership resolver: failures, order and parents *)

Lemma merged_members_cases acc row :
  (∃ ma mb, acc !! child1 row = Some ma ∧ acc !! child2 row = Some mb ∧
            merged_members acc row = Ok (merge_sort le (ma ++ mb))) ∨
  (merged_members acc row = Raise IndexError ∧
   ¬ (child1 row < length acc ∧ child2 row < length acc)).
Proof.
  destruct (acc !! child1 row) as [ma|] eqn:Ha.
  - destruct (acc !! child2 row) as [mb|] eqn:Hb.
    + left. exists ma, mb. split_and!; [done..|]. by apply merged_members_Ok.
    + right. apply lookup_ge_None in Hb. split; [|lia].
      unfold merged_members, children. simpl. unfold index. by rewrite Ha, (proj2 (lookup_ge_None _ _) Hb).
  - right. apply lookup_ge_None in Ha. split; [|lia].
    unfold merged_members, children. simpl. unfold index.
    by rewrite (proj2 (lookup_ge_None _ _) Ha).
Qed.

Lemma get_cluster_members_loop_cases rows : ∀ acc,
  (∃ table, get_cluster_members_loop rows acc = Ok table ∧
     length table = length acc + length rows ∧
     ∀ i row, rows !! i = Some row →
       child1 row < length acc + i ∧ child2 row < length acc + i) ∨
  (get_cluster_members_loop rows acc = Raise IndexError ∧
   ∃ i row, rows !! i = Some row ∧
     ¬ (child1 row < length acc + i ∧ child2 row < length acc + i)).
Proof.
  induction rows as [|row rows IH]; intros acc.
  - left. exists acc. split_and!; [done|simpl; lia|done].
  - simpl. destruct (merged_members_cases acc row)
      as [(ma & mb & Ha & Hb & ->)|[-> Hrange]]; simpl.
    + apply lookup_lt_Some in Ha, Hb.
      destruct (IH (acc ++ [merge_sort le (ma ++ mb)]))
        as [(table & -> & Hlen & Hrows)|[-> (i & r & Hr & Hrange)]].
      * left. exists table. rewrite length_app in Hlen, Hrows. simpl in *.
        split_and!; [done|lia|].
        intros [|i] r Hr; simplify_eq/=; [lia|].
        specialize (Hrows i r Hr). lia.
      * right. split; [done|]. exists (S i), r. split; [done|].
        rewrite length_app in Hrange. simpl in Hrange.
        by replace (length acc + S i) with (length acc + 1 + i) by lia.
    + right. split; [done|]. exists 0, row. split; [done|].
      by rewrite Nat.add_0_r.
Qed.

(** X7.  [get_cluster_members] returns a table exactly when every row of
    the linkage matrix names two nodes that exist when the row is read
    (samples, or nodes made by earlier rows); the table then has one
    entry per sample and one per row, and the only exception it can
    raise is IndexError. *)
Theorem get_cluster_members_index_error hclust n_samples :
  ((∃ table, get_cluster_members hclust n_samples = Ok table) ↔
   ∀ i row, hclust !! i = Some row →
     child1 row < n_samples + i ∧ child2 row < n_samples + i) ∧
  (∀ table, get_cluster_members hclust n_samples = Ok table →
     length table = n_samples + length hclust) ∧
  (∀ e, get_cluster_members hclust n_samples = Raise e → e = IndexError).
Proof.
  unfold get_cluster_members.
  destruct (get_cluster_members_loop_cases hclust ((λ x, [x]) <$> seq 0 n_samples))
    as [(table & Htable & Hlen & Hrows)|[Hexn (i & row & Hrow & Hrange)]];
    rewrite length_fmap, length_seq in *.
  - rewrite Htable. split_and!; [naive_solver| |done].
    by intros ? [= <-].
  - rewrite Hexn. split_and!; [|done|by intros ? [= <-]].
    split; [by intros [? ?]|]. intros Hall. destruct Hrange. eauto.
Qed.

(** Every member list is sorted. *)
Lemma members_Sorted n_samples hclust table m members :
  is_table n_samples hclust table →
  table !! m = Some members → Sorted le members.
Proof.
  intros (Hlen & Hleaves & Hrows) Hm.
  destruct (decide (m < n_samples)) as [Hlt|Hge].
  - rewrite (Hleaves m Hlt) in Hm. injection Hm as <-. by repeat constructor.
  - apply lookup_lt_Some in Hm as Hmlt.
    destruct (lookup_lt_is_Some_2 hclust (m - n_samples)) as [row Hrow]; [lia|].
    destruct (Hrows _ _ Hrow) as (ma & mb & _ & _ & Hnode).
    replace (n_samples + (m - n_samples)) with m in Hnode by lia.
    rewrite Hm in Hnode. injection Hnode as ->.
    apply (Sorted_merge_sort le).
Qed.

Lemma equal_members n1 hclust1 table1 n2 hclust2 table2 a b la lb :
  wf_merge_tree n1 hclust1 → is_table n1 hclust1 table1 →
  wf_merge_tree n2 hclust2 → is_table n2 hclust2 table2 →
  table1 !! a = Some la → table2 !! b = Some lb →
  (∀ x, x ∈ la ↔ x ∈ lb) → la = lb.
Proof.
  intros Hwf1 Ht1 Hwf2 Ht2 Ha Hb Hsame.
  apply (Sorted_unique le).
  - apply (members_Sorted n1 hclust1 table1 a la Ht1 Ha).
  - apply (members_Sorted n2 hclust2 table2 b lb Ht2 Hb).
  - apply NoDup_Permutation.
    + apply (members_NoDup n1 hclust1 table1 Hwf1 Ht1 a la Ha).
    + apply (members_NoDup n2 hclust2 table2 Hwf2 Ht2 b lb Hb).
    + exact Hsame.
Qed.

Lemma get_cluster_members_is_table n_samples hclust table :
  wf_merge_tree n_samples hclust →
  get_cluster_members hclust n_samples = Ok table →
  is_table n_samples hclust table.
Proof.
  intros [Hrange _] Htable.
  destruct (get_cluster_members_table n_samples hclust Hrange) as (table' & Heq & ?).
  rewrite Htable in Heq. by injection Heq as <-.
Qed.

(** X8.  In the tables that [get_cluster_members] builds from well-formed
    trees every member list is sorted and free of repeats, so that two
    member lists, of the same tree or of two trees, are equal as lists
    exactly when they hold the same samples: the test [cluster in
    true_clusters] of the support calculator compares sets of samples. *)
Theorem member_lists_compare_as_sets n1 hclust1 table1 n2 hclust2 table2 la lb :
  wf_merge_tree n1 hclust1 → get_cluster_members hclust1 n1 = Ok table1 →
  wf_merge_tree n2 hclust2 → get_cluster_members hclust2 n2 = Ok table2 →
  la ∈ table1 → lb ∈ table2 →
  Sorted le la ∧ NoDup la ∧ (la = lb ↔ ∀ x, x ∈ la ↔ x ∈ lb).
Proof.
  intros Hwf1 Ht1 Hwf2 Ht2 [a Ha]%list_elem_of_lookup [b Hb]%list_elem_of_lookup.
  apply get_cluster_members_is_table in Ht1; [|done].
  apply get_cluster_members_is_table in Ht2; [|done].
  split_and!.
  - apply (members_Sorted n1 hclust1 table1 a la Ht1 Ha).
  - apply (members_NoDup n1 hclust1 table1 Hwf1 Ht1 a la Ha).
  - split; [by intros ->|].
    by apply (equal_members n1 hclust1 table1 n2 hclust2 table2 a b).
Qed.

Lemma member_lists_compare_as_sets_witness :
  Sorted le [0; 1] ∧ NoDup [0; 1] ∧ ([0; 1] = [0; 1] ↔ ∀ x, x ∈ [0; 1] ↔ x ∈ [0; 1]).
Proof.
  apply (member_lists_compare_as_sets
           4 [LinkageRow 0 1 (Num 0.1) 2; LinkageRow 2 3 (Num 0.1) 2;
              LinkageRow 4 5 (Num 1) 4]
           [[0]; [1]; [2]; [3]; [0; 1]; [2; 3]; [0; 1; 2; 3]]
           4 [LinkageRow 1 0 (Num 0.1) 2; LinkageRow 4 2 (Num 0.5) 3;
              LinkageRow 5 3 (Num 1) 4]
           [[0]; [1]; [2]; [3]; [0; 1]; [0; 1; 2]; [0; 1; 2; 3]]).
  - split; [|compute_done]. intros [|[|[|i]]] row [=]; subst; simpl; lia.
  - reflexivity.
  - split; [|compute_done]. intros [|[|[|i]]] row [=]; subst; simpl; lia.
  - reflexivity.
  - compute_done.
  - compute_done.
Defined.

Lemma find_parent_node_parent n_samples hclust table c :
  wf_merge_tree n_samples hclust → is_table n_samples hclust table →
  (∃ parent, find_parent_node c table = Ok parent) ∧
  (∀ p, find_parent_node c table = Ok (KNode p) ↔ child_of n_samples hclust c p) ∧
  (find_parent_node c table = Ok KNone ↔ ∀ p, ¬ child_of n_samples hclust c p).
Proof.
  intros Hwf Ht.
  destruct (find_parent_node_total n_samples hclust table Hwf Ht c) as [parent Hparent].
  split_and!; [by eauto| |].
  - intros p. split; [by apply (find_parent_node_child n_samples hclust table)|].
    intros Hc. destruct parent as [|p'].
    + by destruct (find_parent_node_root n_samples hclust table Hwf Ht c p).
    + apply (find_parent_node_child n_samples hclust table Hwf Ht) in Hparent as Hc'.
      by rewrite (child_functional n_samples hclust Hwf c p p' Hc Hc').
  - split.
    + intros Hnone p. by apply (find_parent_node_root n_samples hclust table Hwf Ht).
    + intros Hroot. destruct parent as [|p']; [done|].
      apply (find_parent_node_child n_samples hclust table Hwf Ht) in Hparent.
      by destruct (Hroot p').
Qed.

(** X9.  On the table of a well-formed tree [find_parent_node] never
    raises; it returns node [p] exactly when the linkage matrix merges
    the node into [p], and ['none'] exactly when no row merges the
    node. *)
Theorem find_parent_node_is_tree_parent n_samples hclust table c :
  wf_merge_tree n_samples hclust →
  get_cluster_members hclust n_samples = Ok table →
  (∃ parent, find_parent_node c table = Ok parent) ∧
  (∀ p, find_parent_node c table = Ok (KNode p) ↔ child_of n_samples hclust c p) ∧
  (find_parent_node c table = Ok KNone ↔ ∀ p, ¬ child_of n_samples hclust c p).
Proof.
  intros Hwf Ht. apply find_parent_node_parent; [done|].
  by apply get_cluster_members_is_table.
Qed.

Lemma find_parent_node_is_tree_parent_witness :
  (∃ parent, find_parent_node 0 [[0]; [1]; [2]; [3]; [0; 1]; [2; 3]; [0; 1; 2; 3]]
             = Ok parent) ∧
  (∀ p, find_parent_node 0 [[0]; [1]; [2]; [3]; [0; 1]; [2; 3]; [0; 1; 2; 3]]
        = Ok (KNode p) ↔
        child_of 4 [LinkageRow 0 1 (Num 0.1) 2; LinkageRow 2 3 (Num 0.1) 2;
                    LinkageRow 4 5 (Num 1) 4] 0 p) ∧
  (find_parent_node 0 [[0]; [1]; [2]; [3]; [0; 1]; [2; 3]; [0; 1; 2; 3]] = Ok KNone ↔
   ∀ p, ¬ child_of 4 [LinkageRow 0 1 (Num 0.1) 2; LinkageRow 2 3 (Num 0.1) 2;
                      LinkageRow 4 5 (Num 1) 4] 0 p).
Proof.
  apply (find_parent_node_is_tree_parent 4
           [LinkageRow 0 1 (Num 0.1) 2; LinkageRow 2 3 (Num 0.1) 2;
            LinkageRow 4 5 (Num 1) 4]).
  - split; [|compute_done]. intros [|[|[|i]]] row [=]; subst; simpl; lia.
  - reflexivity.
Defined.

Lemma child_find_parent n_samples hclust table c p :
  wf_merge_tree n_samples hclust → is_table n_samples hclust table →
  child_of n_samples hclust c p → find_parent_node c table = Ok (KNode p).
Proof.
  intros Hwf Ht Hc.
  by apply (find_parent_node_parent n_samples hclust table c Hwf Ht).
Qed.

(** * The support calculator: order, leaves and replicates *)

Lemma hits_Permutation guard true_clusters i one one' :
  one ≡ₚ one' → hits guard true_clusters i one = hits guard true_clusters i one'.
Proof. unfold hits. by intros ->. Qed.

Lemma sum_hits_Permutation guard true_clusters i bs mid bs' :
  bs ≡ₚ mid → Forall2 (≡ₚ) mid bs' →
  sum_list_with (hits guard true_clusters i) bs
  = sum_list_with (hits guard true_clusters i) bs'.
Proof.
  intros Hperm Hall. transitivity (sum_list_with (hits guard true_clusters i) mid).
  - clear Hall. induction Hperm; simpl; lia.
  - clear Hperm. induction Hall as [|one one' mid bs' Hone _ IH]; [done|].
    simpl. by rewrite IH, (hits_Permutation _ _ _ one one').
Qed.

(** X10.  The supports do not depend on the order of the replicates nor
    on the order of the member lists inside a replicate, in either
    script. *)
Theorem support_ignores_order bs mid bs' true_clusters :
  bs ≡ₚ mid → Forall2 (≡ₚ) mid bs' →
  vcfToMatrix.calculate_bootstrap_values true_clusters bs
  = vcfToMatrix.calculate_bootstrap_values true_clusters bs' ∧
  vcfToMatrix_2.calculate_bootstrap_values true_clusters bs
  = vcfToMatrix_2.calculate_bootstrap_values true_clusters bs'.
Proof.
  intros Hperm Hall.
  assert (length bs = length bs') as Hlen.
  { by rewrite Hperm, (Forall2_length _ _ _ Hall). }
  split; apply list_eq; intros i.
  - rewrite !calculate_bootstrap_values_lookup, Hlen.
    by rewrite (sum_hits_Permutation _ _ _ bs mid bs').
  - rewrite !calculate_bootstrap_values_v2_lookup, Hlen.
    by rewrite (sum_hits_Permutation _ _ _ bs mid bs').
Qed.

Lemma support_ignores_order_witness :
  vcfToMatrix.calculate_bootstrap_values [[0]; [1]; [2]; [0; 1]; [0; 1; 2]]
    [[[0]; [1]; [2]; [0; 1]; [0; 1; 2]]; [[0]; [1]; [2]; [1; 2]; [0; 1; 2]]]
  = vcfToMatrix.calculate_bootstrap_values [[0]; [1]; [2]; [0; 1]; [0; 1; 2]]
      [[[1]; [0]; [2]; [1; 2]; [0; 1; 2]]; [[0]; [1]; [2]; [0; 1]; [0; 1; 2]]] ∧
  vcfToMatrix_2.calculate_bootstrap_values [[0]; [1]; [2]; [0; 1]; [0; 1; 2]]
    [[[0]; [1]; [2]; [0; 1]; [0; 1; 2]]; [[0]; [1]; [2]; [1; 2]; [0; 1; 2]]]
  = vcfToMatrix_2.calculate_bootstrap_values [[0]; [1]; [2]; [0; 1]; [0; 1; 2]]
      [[[1]; [0]; [2]; [1; 2]; [0; 1; 2]]; [[0]; [1]; [2]; [0; 1]; [0; 1; 2]]].
Proof.
  apply (support_ignores_order
           [[[0]; [1]; [2]; [0; 1]; [0; 1; 2]]; [[0]; [1]; [2]; [1; 2]; [0; 1; 2]]]
           [[[0]; [1]; [2]; [1; 2]; [0; 1; 2]]; [[0]; [1]; [2]; [0; 1]; [0; 1; 2]]]).
  - apply Permutation_swap.
  - constructor; [apply Permutation_swap|]. constructor; [reflexivity|constructor].
Defined.

Lemma hits_above_leaves true_clusters i cluster one :
  true_clusters !! i = Some cluster → 1 < length cluster →
  hits (λ _, true) true_clusters i one
  = hits (λ c, bool_decide (1 < length c)) true_clusters i one.
Proof.
  intros Hi Hlen. unfold hits. apply length_filter_ext, Forall_forall.
  intros c _. unfold hit. split; [|naive_solver].
  intros [_ Hfind]. split; [|done].
  destruct (list_find _ true_clusters) as [[i' c']|] eqn:Hf; simplify_eq/=.
  apply list_find_Some in Hf as (Hi' & -> & _).
  rewrite Hi in Hi'. injection Hi' as <-. by apply bool_decide_eq_true.
Qed.

(** X11.  The two support calculators return the same support for every
    node that has more than one member; for a node with at most one
    member vcfToMatrix.py returns 0 divided by the number of
    replicates. *)
Theorem calculators_agree_above_leaves true_clusters bootstrap_clusters i cluster :
  true_clusters !! i = Some cluster →
  (1 < length cluster →
     vcfToMatrix_2.calculate_bootstrap_values true_clusters bootstrap_clusters !! i
     = vcfToMatrix.calculate_bootstrap_values true_clusters bootstrap_clusters !! i) ∧
  (length cluster ≤ 1 →
     vcfToMatrix.calculate_bootstrap_values true_clusters bootstrap_clusters !! i
     = Some (true_divide 0 (length bootstrap_clusters))).
Proof.
  intros Hi. split; intros Hlen.
  - rewrite calculate_bootstrap_values_lookup, calculate_bootstrap_values_v2_lookup.
    case_decide; [|done]. do 4 f_equal.
    induction bootstrap_clusters as [|one bs IH]; [done|].
    simpl. by rewrite IH, (hits_above_leaves _ _ cluster).
  - destruct (vcfToMatrix.calculate_bootstrap_values _ _ !! i) as [b|] eqn:Hb.
    + f_equal. by eapply singleton_support_zero.
    + apply lookup_ge_None in Hb. apply lookup_lt_Some in Hi.
      rewrite calculate_bootstrap_values_length in Hb. lia.
Qed.

Lemma calculators_agree_above_leaves_witness :
  (1 < length [0; 1] →
     vcfToMatrix_2.calculate_bootstrap_values [[0]; [1]; [0; 1]] [[[0]; [1]; [0; 1]]] !! 2
     = vcfToMatrix.calculate_bootstrap_values [[0]; [1]; [0; 1]] [[[0]; [1]; [0; 1]]] !! 2) ∧
  (length [0; 1] ≤ 1 →
     vcfToMatrix.calculate_bootstrap_values [[0]; [1]; [0; 1]] [[[0]; [1]; [0; 1]]] !! 2
     = Some (true_divide 0 (length [[[0]; [1]; [0; 1]]]))).
Proof.
  apply (calculators_agree_above_leaves [[0]; [1]; [0; 1]] [[[0]; [1]; [0; 1]]] 2 [0; 1]).
  reflexivity.
Defined.

Lemma support_without_replicates true_clusters :
  vcfToMatrix.calculate_bootstrap_values true_clusters []
    = replicate (length true_clusters) NaN ∧
  vcfToMatrix_2.calculate_bootstrap_values true_clusters []
    = replicate (length true_clusters) NaN.
Proof.
  unfold vcfToMatrix.calculate_bootstrap_values,
    vcfToMatrix_2.calculate_bootstrap_values, divide_counts. simpl.
  by rewrite fmap_replicate.
Qed.

Lemma support_with_replicates true_clusters one bs :
  NaN ∉ vcfToMatrix.calculate_bootstrap_values true_clusters (one :: bs) ∧
  NaN ∉ vcfToMatrix_2.calculate_bootstrap_values true_clusters (one :: bs).
Proof.
  split.
  - by apply calculate_bootstrap_values_no_NaN.
  - intros [i Hi]%list_elem_of_lookup.
    rewrite calculate_bootstrap_values_v2_lookup in Hi. by case_decide.
Qed.

(** X12.  With no replicate every support is NaN, in both scripts (0
    divided by 0); with one replicate or more no support is NaN. *)
Theorem support_nan_without_replicates true_clusters :
  vcfToMatrix.calculate_bootstrap_values true_clusters []
    = replicate (length true_clusters) NaN ∧
  vcfToMatrix_2.calculate_bootstrap_values true_clusters []
    = replicate (length true_clusters) NaN ∧
  ∀ one bootstrap_clusters,
    NaN ∉ vcfToMatrix.calculate_bootstrap_values true_clusters
            (one :: bootstrap_clusters) ∧
    NaN ∉ vcfToMatrix_2.calculate_bootstrap_values true_clusters
            (one :: bootstrap_clusters).
Proof.
  destruct (support_without_replicates true_clusters) as [H1 H2].
  split_and!; [done..|]. intros one bs. apply support_with_replicates.
Qed.

(** * The clusters returned by the collapser *)

Section verdicts.
Variables (n_samples : nat) (hclust : list linkage_row) (table : list (list nat)).
Hypothesis Hwf : wf_merge_tree n_samples hclust.
Hypothesis Htable : is_table n_samples hclust table.
Variables (bootstrap_values : list npfloat) (threshold : Q).
Variable final : gmap key verdict.
Hypothesis Hlen : length bootstrap_values = length table.
Hypothesis Hnan : NaN ∉ bootstrap_values.
Hypothesis Hnone : final !! KNone = Some Fork.
Hypothesis Houtside : ∀ m, length bootstrap_values ≤ m → final !! KNode m = None.
Hypothesis Hrule : ∀ n, n < length bootstrap_values → ∃ parent vp b,
  find_parent_node n table = Ok parent ∧
  final !! parent = Some vp ∧ bootstrap_values !! n = Some b ∧
  final !! KNode n = Some (verdict_for threshold vp b n).

Local Abbreviation ancestor := (rtc (child_of n_samples hclust)).

Lemma fork_verdict_parent n p :
  final !! KNode n = Some Fork → child_of n_samples hclust n p →
  final !! KNode p = Some Fork.
Proof.
  intros Hn Hc.
  pose proof (verdict_in_table table bootstrap_values final Hlen Houtside n _ Hn) as Hlt.
  destruct (Hrule n) as (parent & vp & b & Hfind & Hvp & Hb & Hvn); [lia|].
  apply (child_find_parent n_samples hclust table n p Hwf Htable) in Hc.
  rewrite Hc in Hfind. injection Hfind as <-.
  rewrite Hn in Hvn. injection Hvn as Hvn.
  destruct vp; simpl in Hvn; [done|congruence].
Qed.

Lemma fork_verdict_support n b :
  final !! KNode n = Some Fork → bootstrap_values !! n = Some b →
  ge_float b threshold = true.
Proof.
  intros Hn Hb.
  destruct (Hrule n) as (parent & vp & b' & Hfind & Hvp & Hb' & Hvn);
    [by eapply lookup_lt_Some|].
  rewrite Hb in Hb'. injection Hb' as <-.
  rewrite Hn in Hvn. injection Hvn as Hvn.
  destruct vp; simpl in Hvn; [|done]. by destruct (ge_float b threshold).
Qed.

Lemma fork_verdict_above n a b :
  ancestor n a → final !! KNode n = Some Fork →
  bootstrap_values !! a = Some b → ge_float b threshold = true.
Proof.
  induction 1 as [n|n p a Hc _ IH]; intros Hn Hb.
  - by eapply fork_verdict_support.
  - apply IH; [|done]. by eapply fork_verdict_parent.
Qed.

Lemma supported_fork n :
  n < length table →
  (∀ a b, ancestor n a → bootstrap_values !! a = Some b → ge_float b threshold = true) →
  final !! KNode n = Some Fork.
Proof.
  remember (length table - n) as d eqn:Hd. revert n Hd.
  induction (lt_wf d) as [d _ IH]. intros n -> Hn Hall.
  destruct (Hrule n) as (parent & vp & b & Hfind & Hvp & Hb & Hvn); [lia|].
  assert (vp = Fork) as ->.
  { destruct parent as [|p]; [congruence|].
    pose proof (find_parent_node_range _ _ _ Hfind) as Hp.
    apply (find_parent_node_child n_samples hclust table Hwf Htable) in Hfind.
    rewrite (IH (length table - p)) with (n := p) in Hvp; [congruence|lia|done|lia|].
    intros a b' Ha. apply Hall. by eapply rtc_l. }
  rewrite Hvn. simpl. by rewrite (Hall n b (rtc_refl _ _) Hb).
Qed.

Lemma own_verdict_boundary c :
  final !! KNode c = Some (Own c) ↔
  c < length table ∧ boundary n_samples hclust bootstrap_values threshold c.
Proof.
  split.
  - intros Hc.
    pose proof (verdict_in_table table bootstrap_values final Hlen Houtside c _ Hc) as Hlt.
    split; [done|].
    destruct (Hrule c) as (parent & vp & b & Hfind & Hvp & Hb & Hvn); [lia|].
    rewrite Hc in Hvn. injection Hvn as Hvn.
    assert (vp = Fork) as ->.
    { destruct vp as [|c']; [done|]. simpl in Hvn. injection Hvn as <-.
      destruct parent as [|p]; [congruence|].
      pose proof (find_parent_node_range _ _ _ Hfind) as Hp.
      destruct (own_verdict_ancestor n_samples hclust table Hwf Htable bootstrap_values
                  threshold final Hlen Hnone Houtside Hrule p c Hvp) as [Hanc _].
      apply (ancestor_le n_samples hclust table Hwf Htable) in Hanc. lia. }
    simpl in Hvn. destruct (ge_float b threshold) eqn:Hge; [done|].
    split.
    + exists b. split; [done|]. apply ge_float_false_lt; [|done].
      intros ->. apply Hnan. by eapply list_elem_of_lookup_2.
    + intros a b' Hne Hanc Hb'.
      destruct (ancestor_proper n_samples hclust c a Hanc) as (p & Hcp & Hpa); [done|].
      apply (child_find_parent n_samples hclust table c p Hwf Htable) in Hcp.
      rewrite Hcp in Hfind. injection Hfind as <-.
      by apply (fork_verdict_above p a b').
  - intros [Hlt [(b & Hb & Hlow) Habove]].
    destruct (Hrule c) as (parent & vp & b' & Hfind & Hvp & Hb' & Hvn); [lia|].
    rewrite Hb in Hb'. injection Hb' as <-.
    assert (vp = Fork) as ->.
    { destruct parent as [|p]; [congruence|].
      pose proof (find_parent_node_range _ _ _ Hfind) as Hp.
      apply (find_parent_node_child n_samples hclust table Hwf Htable) in Hfind.
      rewrite supported_fork in Hvp; [congruence|lia|].
      intros a b' Hanc. apply Habove.
      - apply (ancestor_le n_samples hclust table Hwf Htable) in Hanc. lia.
      - by eapply rtc_l. }
    rewrite Hvn. simpl. by rewrite (lt_float_not_ge _ _ Hlow).
Qed.

End verdicts.

Lemma collapse_run_tree n_samples hclust table bootstrap_values threshold :
  wf_merge_tree n_samples hclust → is_table n_samples hclust table →
  length bootstrap_values = length table → NaN ∉ bootstrap_values →
  ∃ (final : gmap key verdict) ids out,
    vcfToMatrix.collapse_clusters table bootstrap_values threshold = Ok out ∧
    final !! KNone = Some Fork ∧
    (∀ m, length bootstrap_values ≤ m → final !! KNode m = None) ∧
    (∀ n, n < length bootstrap_values → ∃ parent vp b,
       find_parent_node n table = Ok parent ∧
       final !! parent = Some vp ∧ bootstrap_values !! n = Some b ∧
       final !! KNode n = Some (verdict_for threshold vp b n)) ∧
    NoDup ids ∧
    (∀ c, c ∈ ids ↔ final !! KNode c = Some (Own c)) ∧
    Forall2 (λ c members, table !! c = Some members) ids out.
Proof.
  intros Hwf Htable Hlen Hnan.
  destruct (collapse_loop_run table bootstrap_values threshold)
    as [[_ Hempty]|(final & Hloop & Hnone & Houtside & Hrule)]; [lia|done| |].
  { apply list_elem_of_lookup in Hempty as [m Hm].
    by apply (members_nonempty n_samples hclust table Hwf Htable) in Hm. }
  destruct (clusters_of_verdicts_spec table final)
    as (ids & out & Hout & Hnodup & Hids & Hall); [by eauto| |].
  { intros k c Hk. rewrite <-Hlen.
    eapply (own_verdict_range table bootstrap_values threshold);
      [lia|exact Hnone|exact Houtside|exact Hrule|exact Hk]. }
  exists final, ids, out. split_and!; [|done..| |done].
  - unfold vcfToMatrix.collapse_clusters. by rewrite Hloop.
  - intros c. rewrite Hids. split; [|by eauto].
    intros [k Hk].
    by apply (stored_id_boundary n_samples hclust table Hwf Htable bootstrap_values
                threshold final Hlen Hnone Houtside Hrule k).
Qed.

Lemma NoDup_lookups {A} (table : list A) ids out :
  NoDup table → NoDup ids →
  Forall2 (λ c x, table !! c = Some x) ids out → NoDup out.
Proof.
  intros Htable Hids Hall. induction Hall as [|c x ids out Hc Hall IH]; [constructor|].
  apply NoDup_cons in Hids as [Hnotin Hids]. apply NoDup_cons. split; [|by apply IH].
  intros [i Hi]%list_elem_of_lookup.
  destruct (Forall2_lookup_r _ _ _ _ _ Hall Hi) as (c' & Hc' & Hx).
  rewrite (NoDup_lookup table c c' x Htable Hc Hx) in Hnotin.
  apply Hnotin. by eapply list_elem_of_lookup_2.
Qed.

(** X13.  On the table of a well-formed tree, with one support per node
    and none of them NaN, [collapse_clusters] of vcfToMatrix.py returns,
    each once, the member lists of the nodes whose support is below the
    threshold while the support of every node above them meets it. *)
Theorem collapse_clusters_boundary n_samples hclust table bootstrap_values threshold :
  wf_merge_tree n_samples hclust →
  get_cluster_members hclust n_samples = Ok table →
  length bootstrap_values = length table → NaN ∉ bootstrap_values →
  ∃ out,
    vcfToMatrix.collapse_clusters table bootstrap_values threshold = Ok out ∧
    NoDup out ∧
    ∀ members, members ∈ out ↔
      ∃ c, boundary n_samples hclust bootstrap_values threshold c ∧
           table !! c = Some members.
Proof.
  intros Hwf Hrun Hlen Hnan.
  pose proof (get_cluster_members_is_table _ _ _ Hwf Hrun) as Htable.
  destruct (collapse_run_tree n_samples hclust table bootstrap_values threshold)
    as (final & ids & out & Hout & Hnone & Houtside & Hrule & Hnodup & Hids & Hall);
    [done..|].
  pose proof (own_verdict_boundary n_samples hclust table Hwf Htable bootstrap_values
                threshold final Hlen Hnan Hnone Houtside Hrule) as Hboundary.
  exists out. split_and!; [done| |].
  - apply (NoDup_lookups table ids); [|done..].
    apply (table_NoDup n_samples hclust table Hwf Htable).
  - intros members. split.
    + intros [i Hi]%list_elem_of_lookup.
      destruct (Forall2_lookup_r _ _ _ _ _ Hall Hi) as (c & Hc & Hm).
      exists c. split; [|done]. apply Hboundary, Hids.
      by eapply list_elem_of_lookup_2.
    + intros (c & Hb & Hm).
      assert (c ∈ ids) as [i Hi]%list_elem_of_lookup.
      { apply Hids, Hboundary. split; [by eapply lookup_lt_Some|done]. }
      destruct (Forall2_lookup_l _ _ _ _ _ Hall Hi) as (members' & Hm' & Hc).
      rewrite Hm in Hc. injection Hc as <-. by eapply list_elem_of_lookup_2.
Qed.

Lemma collapse_clusters_boundary_witness :
  ∃ out,
    vcfToMatrix.collapse_clusters [[0]; [1]; [2]; [3]; [0; 1]; [2; 3]; [0; 1; 2; 3]]
      [Num 0; Num 0; Num 0; Num 0; Num 0.5; Num 1; Num 1] 0.99 = Ok out ∧
    NoDup out ∧
    ∀ members, members ∈ out ↔
      ∃ c, boundary 4 [LinkageRow 0 1 (Num 0.1) 2; LinkageRow 2 3 (Num 0.1) 2;
                       LinkageRow 4 5 (Num 1) 4]
             [Num 0; Num 0; Num 0; Num 0; Num 0.5; Num 1; Num 1] 0.99 c ∧
           [[0]; [1]; [2]; [3]; [0; 1]; [2; 3]; [0; 1; 2; 3]] !! c = Some members.
Proof.
  apply (collapse_clusters_boundary 4
           [LinkageRow 0 1 (Num 0.1) 2; LinkageRow 2 3 (Num 0.1) 2;
            LinkageRow 4 5 (Num 1) 4]).
  - split; [|compute_done]. intros [|[|[|i]]] row [=]; subst; simpl; lia.
  - reflexivity.
  - reflexivity.
  - compute_done.
Defined.

Lemma lt_float_raise b threshold threshold' :
  (threshold <= threshold')%Q →
  lt_float b threshold = true → ge_float b threshold' = false.
Proof.
  intros Hle. destruct b as [|[]|q]; simpl; try done.
  intros Hlt%(lt_float_Num q threshold).
  destruct (Qle_bool threshold' q) eqn:Hge; [|done].
  apply Qle_bool_iff in Hge. lra.
Qed.

(** X14.  Raising the threshold only merges clusters: every cluster
    returned at a threshold is contained in a cluster returned at any
    higher threshold. *)
Theorem collapse_clusters_threshold_monotone n_samples hclust table bootstrap_values
    threshold threshold' :
  wf_merge_tree n_samples hclust →
  get_cluster_members hclust n_samples = Ok table →
  length bootstrap_values = length table → NaN ∉ bootstrap_values →
  (threshold <= threshold')%Q →
  ∃ out out',
    vcfToMatrix.collapse_clusters table bootstrap_values threshold = Ok out ∧
    vcfToMatrix.collapse_clusters table bootstrap_values threshold' = Ok out' ∧
    ∀ members, members ∈ out → ∃ members', members' ∈ out' ∧ members ⊆ members'.
Proof.
  intros Hwf Hrun Hlen Hnan Hle.
  pose proof (get_cluster_members_is_table _ _ _ Hwf Hrun) as Htable.
  destruct (collapse_run_tree n_samples hclust table bootstrap_values threshold)
    as (final & ids & out & Hout & Hnone & Houtside & Hrule & Hnodup & Hids & Hall);
    [done..|].
  destruct (collapse_run_tree n_samples hclust table bootstrap_values threshold')
    as (final' & ids' & out' & Hout' & Hnone' & Houtside' & Hrule' & Hnodup' & Hids'
        & Hall'); [done..|].
  exists out, out'. split_and!; [done..|].
  intros members [i Hi]%list_elem_of_lookup.
  destruct (Forall2_lookup_r _ _ _ _ _ Hall Hi) as (c & Hc & Hm).
  apply list_elem_of_lookup_2, Hids in Hc.
  apply (own_verdict_boundary n_samples hclust table Hwf Htable bootstrap_values
           threshold final Hlen Hnan Hnone Houtside Hrule) in Hc
    as [_ [(b & Hb & Hlow) _]].
  destruct (low_support_own table bootstrap_values threshold' final' Hrule' c b Hb)
    as [c' Hc']; [by eapply lt_float_raise|].
  destruct (own_verdict_ancestor n_samples hclust table Hwf Htable bootstrap_values
              threshold' final' Hlen Hnone' Houtside' Hrule' c c' Hc') as [Hanc Hown].
  apply Hids' in Hown as [j Hj]%list_elem_of_lookup.
  destruct (Forall2_lookup_l _ _ _ _ _ Hall' Hj) as (members' & Hm' & Hcm').
  exists members'. split; [by eapply list_elem_of_lookup_2|].
  intros x Hx.
  apply (elem_of_members n_samples hclust table Hwf Htable c members x Hm) in Hx
    as [Hlt Hxc].
  apply (elem_of_members n_samples hclust table Hwf Htable c' members' x Hcm').
  split; [done|]. by etrans.
Qed.

Lemma collapse_clusters_threshold_monotone_witness :
  ∃ out out',
    vcfToMatrix.collapse_clusters [[0]; [1]; [2]; [3]; [0; 1]; [2; 3]; [0; 1; 2; 3]]
      [Num 0; Num 0; Num 0; Num 0; Num 0.5; Num 1; Num 1] 0.5 = Ok out ∧
    vcfToMatrix.collapse_clusters [[0]; [1]; [2]; [3]; [0; 1]; [2; 3]; [0; 1; 2; 3]]
      [Num 0; Num 0; Num 0; Num 0; Num 0.5; Num 1; Num 1] 0.99 = Ok out' ∧
    ∀ members, members ∈ out → ∃ members', members' ∈ out' ∧ members ⊆ members'.
Proof.
  apply (collapse_clusters_threshold_monotone 4
           [LinkageRow 0 1 (Num 0.1) 2; LinkageRow 2 3 (Num 0.1) 2;
            LinkageRow 4 5 (Num 1) 4]).
  - split; [|compute_done]. intros [|[|[|i]]] row [=]; subst; simpl; lia.
  - reflexivity.
  - reflexivity.
  - compute_done.
  - by vm_compute.
Defined.

(** *** A tree that merges all the samples *)

Lemma length_children hclust : length (hclust ≫= children) = 2 * length hclust.
Proof.
  induction hclust as [|row hclust IH]; [done|].
  rewrite bind_cons, length_app, IH. simpl. lia.
Qed.

Lemma full_tree_child n_samples hclust m :
  wf_merge_tree n_samples hclust → length hclust + 1 = n_samples →
  m + 1 < n_samples + length hclust → ∃ p, child_of n_samples hclust m p.
Proof.
  intros [Hrange Hnodup] Hfull Hm.
  assert (hclust ≫= children ≡ₚ seq 0 (n_samples + length hclust - 1)) as Hperm.
  { apply submseteq_length_Permutation.
    - apply NoDup_submseteq; [done|]. intros x Hx.
      apply list_elem_of_bind in Hx as (row & Hx & [i Hi]%list_elem_of_lookup).
      pose proof (lookup_lt_Some _ _ _ Hi). destruct (Hrange i row Hi).
      apply elem_of_seq. unfold children in Hx.
      set_solver by lia.
    - rewrite length_children, length_seq. lia. }
  assert (m ∈ hclust ≫= children) as Hin.
  { rewrite Hperm. apply elem_of_seq. lia. }
  apply list_elem_of_bind in Hin as (row & Hx & [i Hi]%list_elem_of_lookup).
  exists (n_samples + i), i, row. done.
Qed.

Lemma full_tree_root n_samples hclust table m :
  wf_merge_tree n_samples hclust → is_table n_samples hclust table →
  length hclust + 1 = n_samples → m < length table →
  rtc (child_of n_samples hclust) m (length table - 1).
Proof.
  intros Hwf Htable Hfull.
  remember (length table - m) as d eqn:Hd. revert m Hd.
  induction (lt_wf d) as [d _ IH]. intros m -> Hm.
  pose proof Htable as (Hlen & _).
  destruct (decide (m = length table - 1)) as [->|Hne]; [done|].
  destruct (full_tree_child n_samples hclust m Hwf Hfull) as [p Hp]; [lia|].
  pose proof (child_lt n_samples hclust table Hwf Htable m p Hp).
  pose proof (child_merge_node n_samples hclust table Htable m p Hp).
  eapply rtc_l; [done|]. apply (IH (length table - p)); [lia|done|lia].
Qed.

Lemma Sorted_seq j n : Sorted le (seq j n).
Proof.
  revert j. induction n as [|n IH]; intros j; [constructor|].
  simpl. constructor; [apply IH|].
  destruct n; simpl; constructor. lia.
Qed.

Lemma root_members n_samples hclust table members :
  wf_merge_tree n_samples hclust → is_table n_samples hclust table →
  length hclust + 1 = n_samples →
  table !! (length table - 1) = Some members → members = seq 0 n_samples.
Proof.
  intros Hwf Htable Hfull Hroot.
  apply (Sorted_unique le).
  - by apply (members_Sorted n_samples hclust table (length table - 1)).
  - apply Sorted_seq.
  - apply NoDup_Permutation.
    + apply (members_NoDup n_samples hclust table Hwf Htable _ _ Hroot).
    + apply NoDup_seq.
    + intros x. rewrite (elem_of_members n_samples hclust table Hwf Htable _ _ x Hroot).
      rewrite elem_of_seq. split; [lia|]. intros [_ Hx]. split; [lia|].
      apply full_tree_root; [done..|]. destruct Htable as [-> _]. lia.
Qed.

Lemma NoDup_singleton_eq {A} (l : list A) r :
  NoDup l → (∀ x, x ∈ l ↔ x = r) → l = [r].
Proof.
  intros Hnodup Hall. destruct l as [|a [|b l]].
  - pose proof (proj2 (Hall r) eq_refl) as Hr. by apply elem_of_nil in Hr.
  - f_equal. apply Hall. left.
  - assert (a = r) as -> by (apply Hall; left).
    assert (b = r) as -> by (apply Hall; right; left).
    apply NoDup_cons in Hnodup as [Hnotin _]. destruct Hnotin. left.
Qed.

(** X15.  When the tree merges all the samples and the support of its
    root is below the threshold, [collapse_clusters] returns one cluster
    that holds every sample. *)
Theorem collapse_clusters_root_below n_samples hclust table bootstrap_values
    threshold top :
  wf_merge_tree n_samples hclust → length hclust + 1 = n_samples →
  get_cluster_members hclust n_samples = Ok table →
  length bootstrap_values = length table → NaN ∉ bootstrap_values →
  last bootstrap_values = Some top → ge_float top threshold = false →
  vcfToMatrix.collapse_clusters table bootstrap_values threshold
  = Ok [seq 0 n_samples].
Proof.
  intros Hwf Hfull Hrun Hlen Hnan Htop Hlow.
  pose proof (get_cluster_members_is_table _ _ _ Hwf Hrun) as Htable.
  destruct (collapse_run_tree n_samples hclust table bootstrap_values threshold)
    as (final & ids & out & Hout & Hnone & Houtside & Hrule & Hnodup & Hids & Hall);
    [done..|].
  rewrite Hout. do 2 f_equal.
  rewrite last_lookup, Hlen in Htop.
  replace (pred (length table)) with (length table - 1) in Htop by lia.
  pose proof (lookup_lt_Some _ _ _ Htop) as Hroot_lt.
  destruct (low_support_own table bootstrap_values threshold final Hrule _ top Htop Hlow)
    as [c Hc].
  destruct (own_verdict_ancestor n_samples hclust table Hwf Htable bootstrap_values
              threshold final Hlen Hnone Houtside Hrule _ c Hc) as [Hanc Hown].
  assert (c = length table - 1) as ->.
  { apply (ancestor_le n_samples hclust table Hwf Htable) in Hanc.
    pose proof (verdict_in_table table bootstrap_values final Hlen Houtside c _ Hown).
    lia. }
  assert (∀ n, n < length table → final !! KNode n = Some (Own (length table - 1)))
    as Hall_own.
  { intros n Hn.
    apply (boundary_absorbs n_samples hclust table Hwf Htable bootstrap_values
             threshold final Hlen Houtside Hrule); [|done].
    by apply full_tree_root. }
  assert (ids = [length table - 1]) as ->.
  { apply NoDup_singleton_eq; [done|]. intros x. rewrite Hids. split.
    - intros Hx.
      pose proof (verdict_in_table table bootstrap_values final Hlen Houtside x _ Hx).
      rewrite Hall_own in Hx by done. by injection Hx as <-.
    - by intros ->. }
  apply Forall2_cons_inv_l in Hall as (members & out' & Hm & Hnil & ->).
  apply Forall2_nil_inv_l in Hnil as ->.
  by rewrite (root_members n_samples hclust table members).
Qed.

Lemma collapse_clusters_root_below_witness :
  vcfToMatrix.collapse_clusters [[0]; [1]; [2]; [3]; [0; 1]; [2; 3]; [0; 1; 2; 3]]
    [Num 0; Num 0; Num 0; Num 0; Num 1; Num 1; Num 0.5] 0.99
  = Ok [seq 0 4].
Proof.
  apply (collapse_clusters_root_below 4
           [LinkageRow 0 1 (Num 0.1) 2; LinkageRow 2 3 (Num 0.1) 2;
            LinkageRow 4 5 (Num 1) 4]
           [[0]; [1]; [2]; [3]; [0; 1]; [2; 3]; [0; 1; 2; 3]]
           [Num 0; Num 0; Num 0; Num 0; Num 1; Num 1; Num 0.5] 0.99 (Num 0.5)).
  - split; [|compute_done]. intros [|[|[|i]]] row [=]; subst; simpl; lia.
  - reflexivity.
  - reflexivity.
  - reflexivity.
  - compute_done.
  - reflexivity.
  - reflexivity.
Defined.

(** * The support of the root *)

Lemma last_table n_samples hclust table :
  wf_merge_tree n_samples hclust → is_table n_samples hclust table →
  length hclust + 1 = n_samples → last table = Some (seq 0 n_samples).
Proof.
  intros Hwf Htable Hfull. rewrite last_lookup.
  pose proof Htable as (Hlen & _).
  destruct (lookup_lt_is_Some_2 table (pred (length table))) as [members Hm]; [lia|].
  rewrite Hm. f_equal.
  apply (root_members n_samples hclust table); [done..|].
  by replace (length table - 1) with (pred (length table)) by lia.
Qed.

Lemma full_support q : (0 < q)%Q → (q / q == 1)%Q.
Proof. intros Hq. field. lra. Qed.

Lemma length_filter_Forall {A} (P : A → Prop) `{∀ x, Decision (P x)} l :
  Forall P l → length (filter P l) = length l.
Proof.
  induction 1 as [|x l Hx _ IH]; [done|].
  rewrite filter_cons, decide_True by done. simpl. by rewrite IH.
Qed.

Lemma root_support n_samples hclust table replicates :
  wf_merge_tree n_samples hclust → length hclust + 1 = n_samples → 2 ≤ n_samples →
  get_cluster_members hclust n_samples = Ok table →
  replicates ≠ [] →
  Forall (λ replicate, ∃ bootstrap_z,
            wf_merge_tree n_samples bootstrap_z ∧
            length bootstrap_z + 1 = n_samples ∧
            get_cluster_members bootstrap_z n_samples = Ok replicate) replicates →
  ∃ q,
    last (vcfToMatrix.calculate_bootstrap_values table replicates) = Some (Num q) ∧
    (q == 1)%Q.
Proof.
  intros Hwf Hfull Hn Hrun Hne Hreps.
  pose proof (get_cluster_members_is_table _ _ _ Hwf Hrun) as Htable.
  pose proof (last_table _ _ _ Hwf Htable Hfull) as Hlast.
  rewrite last_lookup in Hlast.
  exists (inject_Z (Z.of_nat (length replicates))
          / inject_Z (Z.of_nat (length replicates)))%Q.
  split.
  - rewrite last_lookup, calculate_bootstrap_values_length.
    rewrite calculate_bootstrap_values_lookup.
    rewrite decide_True by by eapply lookup_lt_Some.
    rewrite (sum_hits_NoDup _ table _ (seq 0 n_samples)); [| | |done].
    + rewrite bool_decide_eq_true_2 by (rewrite length_seq; lia).
      rewrite length_filter_Forall.
      * f_equal. apply true_divide_pos. by destruct replicates.
      * eapply Forall_impl; [done|]. intros r (z & Hwfz & Hfullz & Hz). simpl.
        pose proof (get_cluster_members_is_table _ _ _ Hwfz Hz) as Hzt.
        pose proof (last_table _ _ _ Hwfz Hzt Hfullz) as Hzl.
        rewrite last_lookup in Hzl. by eapply list_elem_of_lookup_2.
    + by apply (table_NoDup n_samples hclust).
    + eapply Forall_impl; [done|]. intros r (z & Hwfz & _ & Hz). simpl.
      by apply (tables_have_no_repeats n_samples z).
  - apply full_support. rewrite <- (Zlt_Qlt 0). destruct replicates; simpl; [done|lia].
Qed.

(** X16.  When the tree of the samples and the tree of every replicate
    merge all of two samples or more, and there is a replicate, the
    support of the root is 1 in vcfToMatrix.py; for a threshold of at
    most 1 [collapse_top_lvl_clusters] then always splits the samples by
    the labels of [cut_tree]. *)
Theorem root_support_is_one n_samples hclust table replicates :
  wf_merge_tree n_samples hclust → length hclust + 1 = n_samples → 2 ≤ n_samples →
  get_cluster_members hclust n_samples = Ok table →
  replicates ≠ [] →
  Forall (λ replicate, ∃ bootstrap_z,
            wf_merge_tree n_samples bootstrap_z ∧
            length bootstrap_z + 1 = n_samples ∧
            get_cluster_members bootstrap_z n_samples = Ok replicate) replicates →
  ∃ q,
    last (vcfToMatrix.calculate_bootstrap_values table replicates) = Some (Num q) ∧
    (q == 1)%Q ∧
    ∀ (cut_tree : list linkage_row → nat → list nat) threshold,
      (threshold <= 1)%Q →
      vcfToMatrix.collapse_top_lvl_clusters cut_tree hclust
        (vcfToMatrix.calculate_bootstrap_values table replicates) threshold
      = Ok [compress_label (cut_tree hclust 2) 0; compress_label (cut_tree hclust 2) 1].
Proof.
  intros Hwf Hfull Hn Hrun Hne Hreps.
  destruct (root_support n_samples hclust table replicates) as (q & Hlast & Hq);
    [done..|].
  exists q. split_and!; [done..|]. intros cut_tree threshold Hle.
  apply (top_level_meets_threshold _ _ _ _ (Num q)); [done|].
  apply ge_float_Num. lra.
Qed.

Lemma root_support_is_one_witness :
  ∃ q,
    last (vcfToMatrix.calculate_bootstrap_values [[0]; [1]; [0; 1]]
            [[[0]; [1]; [0; 1]]; [[0]; [1]; [0; 1]]]) = Some (Num q) ∧
    (q == 1)%Q ∧
    ∀ (cut_tree : list linkage_row → nat → list nat) threshold,
      (threshold <= 1)%Q →
      vcfToMatrix.collapse_top_lvl_clusters cut_tree [LinkageRow 0 1 (Num 0.2) 2]
        (vcfToMatrix.calculate_bootstrap_values [[0]; [1]; [0; 1]]
           [[[0]; [1]; [0; 1]]; [[0]; [1]; [0; 1]]]) threshold
      = Ok [compress_label (cut_tree [LinkageRow 0 1 (Num 0.2) 2] 2) 0;
            compress_label (cut_tree [LinkageRow 0 1 (Num 0.2) 2] 2) 1].
Proof.
  assert (wf_merge_tree 2 [LinkageRow 0 1 (Num 0.2) 2]) as Hwf.
  { split; [|compute_done]. intros [|i] row [=]; subst; simpl; lia. }
  assert (wf_merge_tree 2 [LinkageRow 1 0 (Num 0.3) 2]) as Hwf'.
  { split; [|compute_done]. intros [|i] row [=]; subst; simpl; lia. }
  apply (root_support_is_one 2 [LinkageRow 0 1 (Num 0.2) 2]).
  - exact Hwf.
  - reflexivity.
  - lia.
  - reflexivity.
  - discriminate.
  - repeat constructor.
    + by exists [LinkageRow 0 1 (Num 0.2) 2].
    + by exists [LinkageRow 1 0 (Num 0.3) 2].
Defined.

(** * The two top-level groups *)

Lemma where_true_NoDup {A} (P : A → Prop) `{∀ x, Decision (P x)} (l : list A) :
  NoDup (where_true P l).
Proof.
  unfold where_true. apply (sublist_NoDup _ (fst <$> imap pair l)).
  - assert (fst <$> imap pair l = seq 0 (length l)) as ->; [|apply NoDup_seq].
    apply list_eq. intros i. rewrite list_lookup_fmap, list_lookup_imap.
    destruct (l !! i) as [x|] eqn:Hx; simpl.
    + symmetry. apply lookup_seq. split; [done|]. by eapply lookup_lt_Some.
    + symmetry. apply lookup_ge_None. rewrite length_seq. by apply lookup_ge_None.
  - apply fmap_sublist, sublist_filter.
Qed.

Lemma compress_label_NoDup labels label : NoDup (compress_label labels label).
Proof. exact (where_true_NoDup (λ l, l = label) labels). Qed.

Lemma top_level_split (cut_tree : list linkage_row → nat → list nat) hclust
    bootstrap_values threshold top :
  last bootstrap_values = Some top → ge_float top threshold = true →
  Forall (λ label, label < 2) (cut_tree hclust 2) →
  ∃ first second,
    vcfToMatrix.collapse_top_lvl_clusters cut_tree hclust bootstrap_values threshold
      = Ok [first; second] ∧
    (∀ x, x ∈ first ↔ cut_tree hclust 2 !! x = Some 0) ∧
    (∀ x, x ∈ second ↔ cut_tree hclust 2 !! x = Some 1) ∧
    first ++ second ≡ₚ seq 0 (length (cut_tree hclust 2)).
Proof.
  intros Htop Hge Hlabels. eexists _, _. split_and!.
  - by eapply top_level_meets_threshold.
  - intros x. apply elem_of_compress_label.
  - intros x. apply elem_of_compress_label.
  - apply NoDup_Permutation.
    + apply NoDup_app. split_and!.
      * apply compress_label_NoDup.
      * intros x. rewrite !elem_of_compress_label. congruence.
      * apply compress_label_NoDup.
    + apply NoDup_seq.
    + intros x. rewrite elem_of_app, !elem_of_compress_label, elem_of_seq. split.
      * intros [Hx|Hx]; apply lookup_lt_Some in Hx; lia.
      * intros [_ Hx]. simpl in Hx.
        destruct (lookup_lt_is_Some_2 _ _ Hx) as [label Hl]. rewrite Hl.
        rewrite Forall_lookup in Hlabels. specialize (Hlabels x label Hl).
        destruct label as [|[|]]; [auto..|lia].
Qed.

(** X17.  When the support of the root meets the threshold and
    [cut_tree] labels every sample 0 or 1, [collapse_top_lvl_clusters]
    returns two groups, the samples labelled 0 and the samples labelled
    1, and the two groups are a partition of the samples. *)
Theorem top_level_groups_partition (cut_tree : list linkage_row → nat → list nat)
    hclust bootstrap_values threshold top :
  last bootstrap_values = Some top → ge_float top threshold = true →
  Forall (λ label, label < 2) (cut_tree hclust 2) →
  ∃ first second,
    vcfToMatrix.collapse_top_lvl_clusters cut_tree hclust bootstrap_values threshold
      = Ok [first; second] ∧
    (∀ x, x ∈ first ↔ cut_tree hclust 2 !! x = Some 0) ∧
    (∀ x, x ∈ second ↔ cut_tree hclust 2 !! x = Some 1) ∧
    is_partition (length (cut_tree hclust 2)) [first; second].
Proof.
  intros Htop Hge Hlabels.
  destruct (top_level_split cut_tree hclust bootstrap_values threshold top)
    as (first & second & Hrun & Hfirst & Hsecond & Hperm); [done..|].
  exists first, second. split_and!; [done..|].
  apply partition_of_permutation. simpl. by rewrite app_nil_r.
Qed.

Lemma top_level_groups_partition_witness :
  ∃ first second,
    vcfToMatrix.collapse_top_lvl_clusters (λ _ _, [0; 1; 0; 1])
      [LinkageRow 0 2 (Num 0.1) 2; LinkageRow 1 3 (Num 0.1) 2; LinkageRow 4 5 (Num 1) 4]
      [Num 0; Num 0; Num 0; Num 0; Num 0.5; Num 1; Num 1] 0.99
      = Ok [first; second] ∧
    (∀ x, x ∈ first ↔ [0; 1; 0; 1] !! x = Some 0) ∧
    (∀ x, x ∈ second ↔ [0; 1; 0; 1] !! x = Some 1) ∧
    is_partition (length [0; 1; 0; 1]) [first; second].
Proof.
  apply (top_level_groups_partition (λ _ _, [0; 1; 0; 1])
           [LinkageRow 0 2 (Num 0.1) 2; LinkageRow 1 3 (Num 0.1) 2;
            LinkageRow 4 5 (Num 1) 4]
           [Num 0; Num 0; Num 0; Num 0; Num 0.5; Num 1; Num 1] 0.99 (Num 1)).
  - reflexivity.
  - reflexivity.
  - repeat constructor.
Defined.

(** * The replicates of the bootstrap engine *)

Lemma traverse_seq_Ok {B} (f : nat → result B) n l :
  traverse f (seq 0 n) = Ok l ↔
  length l = n ∧ ∀ i r, l !! i = Some r → f i = Ok r.
Proof.
  rewrite traverse_Ok, Forall2_same_length_lookup, length_seq. split.
  - intros [Hlen Hall]. split; [done|]. intros i r Hr. apply (Hall i); [|done].
    apply lookup_seq. split; [done|]. apply lookup_lt_Some in Hr. lia.
  - intros [Hlen Hall]. split; [done|]. intros i x r [-> _]%lookup_seq Hr.
    by apply Hall.
Qed.

(** X18.  Under any schedule of a pool with at least one process,
    [get_bootstrap_cluster_members] returns a list exactly when that list
    has one entry per replicate and its entry [i] is what
    [get_one_bootstrap_cluster_members] returns from the generator state
    that [np.random.seed(i)] sets. *)
Theorem bootstrap_engine_replicates (rng : Type)
    (random_choice : rng → nat → list nat * rng)
    (hierarchical_clustering : list (list npfloat) → result (list linkage_row))
    (random_seed : nat → rng) (differences : tensor) (n_bootstrap threads : nat)
    (schedule : list (nat * nat)) (init : nat → rng) (l : list (list (list nat))) :
  valid_schedule n_bootstrap threads schedule → threads ≠ 0 →
  get_bootstrap_cluster_members rng random_choice hierarchical_clustering random_seed
    differences n_bootstrap threads schedule init = Ok l ↔
  length l = n_bootstrap ∧
  ∀ i r, l !! i = Some r →
    ∃ st, get_one_bootstrap_cluster_members rng random_choice hierarchical_clustering
            differences (random_seed i) = Ok (r, st).
Proof.
  intros Hvalid Hthreads. rewrite engine_sequential by done.
  rewrite traverse_seq_Ok. split.
  - intros (_ & Hlen & Hall). split; [done|]. intros i r Hr.
    specialize (Hall i r Hr). unfold replicate_members, bootstrap_worker in Hall.
    apply bind_Ok in Hall as ([r' st] & Hrun & [= <-]). eauto.
  - intros [Hlen Hall]. split_and!; [done..|]. intros i r Hr.
    destruct (Hall i r Hr) as [st Hrun].
    unfold replicate_members, bootstrap_worker. by rewrite Hrun.
Qed.

Lemma bootstrap_engine_replicates_witness :
  get_bootstrap_cluster_members nat demo.random_choice demo.hierarchical_clustering
    demo.random_seed demo.differences 2 2 [(1, 1); (1, 0)] (λ _, 9)
    = Ok [[[0]; [1]; [0; 1]]; [[0]; [1]; [0; 1]]] ↔
  length [[[0]; [1]; [0; 1]]; [[0]; [1]; [0; 1]]] = 2 ∧
  ∀ i r, [[[0]; [1]; [0; 1]]; [[0]; [1]; [0; 1]]] !! i = Some r →
    ∃ st, get_one_bootstrap_cluster_members nat demo.random_choice
            demo.hierarchical_clustering demo.differences (demo.random_seed i)
          = Ok (r, st).
Proof.
  apply (bootstrap_engine_replicates nat demo.random_choice
           demo.hierarchical_clustering demo.random_seed demo.differences 2 2
           [(1, 1); (1, 0)] (λ _, 9)).
  - split; [apply Permutation_swap|]. repeat constructor; simpl; lia.
  - discriminate.
Defined.

(** * The listing *)

Import vcfToMatrix.

(** ** Ordered dictionaries *)

Lemma dict_get_set {V} (d : list (string * V)) k v k' :
  dict_get (dict_set d k v) k' = if decide (k = k') then Ok v else dict_get d k'.
Proof.
  induction d as [|[k0 v0] d IH]; simpl.
  - by repeat case_decide.
  - repeat (case_decide; simpl; simplify_eq); try done.
Qed.

Lemma dict_set_keys {V} (d : list (string * V)) k v :
  (dict_set d k v).*1 = if decide (k ∈ d.*1) then d.*1 else d.*1 ++ [k].
Proof.
  induction d as [|[k0 v0] d IH]; csimpl.
  - done.
  - destruct (decide (k0 = k)) as [->|Hne]; csimpl.
    + rewrite decide_True by left. done.
    + rewrite IH. destruct (decide (k ∈ d.*1)).
      * rewrite decide_True by by right. done.
      * rewrite decide_False; [done|]. rewrite elem_of_cons. naive_solver.
Qed.

Lemma dict_get_Ok {V} (d : list (string * V)) k :
  (∃ v, dict_get d k = Ok v) ↔ k ∈ d.*1.
Proof.
  induction d as [|[k0 v0] d IH]; simpl.
  - rewrite elem_of_nil. naive_solver.
  - rewrite elem_of_cons. case_decide; naive_solver.
Qed.

Lemma dict_get_Raise {V} (d : list (string * V)) k e :
  dict_get d k = Raise e → e = KeyError ∧ k ∉ d.*1.
Proof.
  intros Hget. split.
  - induction d as [|[k0 v0] d IH]; simpl in *; [by injection Hget|].
    case_decide; [done|auto].
  - intros [v Hv]%dict_get_Ok. congruence.
Qed.

Lemma dict_get_cases {V} (d : list (string * V)) k :
  (∃ v, dict_get d k = Ok v ∧ k ∈ d.*1) ∨ (dict_get d k = Raise KeyError ∧ k ∉ d.*1).
Proof.
  destruct (dict_get d k) as [v|e] eqn:Hget.
  - left. exists v. split; [done|]. apply dict_get_Ok. eauto.
  - right. apply dict_get_Raise in Hget as [-> ?]. done.
Qed.

(** ** The loops of [print_cluster_names] over the pairs (group, sample) *)

Lemma foldl_numbered {A B} (f : nat → A → B → A) (l : list (nat * list B)) : ∀ a,
  foldl (λ a group, foldl (f group.1) a group.2) a l
  = foldl (λ a p, f p.1 a p.2) a (l ≫= λ group, pair group.1 <$> group.2).
Proof.
  induction l as [|[i c] l IH]; intros a; [done|].
  rewrite bind_cons, foldl_app. simpl. rewrite <- IH. f_equal.
  generalize a. induction c as [|s c IHc]; intros a'; [done|]. simpl. apply IHc.
Qed.

Lemma foldl_result_app {A B} (f : A → B → result A) l1 l2 a :
  foldl_result f a (l1 ++ l2) = (a' ←! foldl_result f a l1; foldl_result f a' l2).
Proof.
  revert a. induction l1 as [|x l1 IH]; intros a; [done|].
  simpl. destruct (f a x); simpl; [apply IH|done].
Qed.

Lemma foldl_result_numbered {A B} (f : nat → A → B → result A)
    (l : list (nat * list B)) : ∀ a,
  foldl_result (λ a group, foldl_result (f group.1) a group.2) a l
  = foldl_result (λ a p, f p.1 a p.2) a (l ≫= λ group, pair group.1 <$> group.2).
Proof.
  induction l as [|[i c] l IH]; intros a; [done|].
  rewrite bind_cons, foldl_result_app. simpl.
  assert (foldl_result (f i) a c
          = foldl_result (λ a p, f p.1 a p.2) a (pair i <$> c)) as ->.
  { generalize a. induction c as [|s c IHc]; intros a'; [done|].
    simpl. destruct (f i a' s); simpl; [apply IHc|done]. }
  destruct (foldl_result _ a (pair i <$> c)); simpl; [apply IH|done].
Qed.

Lemma elem_of_numbered {A} (groups : list (list A)) i s :
  (i, s) ∈ numbered groups ↔ ∃ group, groups !! i = Some group ∧ s ∈ group.
Proof.
  unfold numbered. rewrite list_elem_of_bind. split.
  - intros ([j group] & Hs & Hg). simpl in Hs.
    apply list_elem_of_fmap in Hs as (s' & [= -> ->] & Hs).
    apply list_elem_of_lookup in Hg as [k Hk].
    apply list_lookup_imap_Some in Hk as (group' & Hk & [= -> ->]). eauto.
  - intros (group & Hg & Hs). exists (i, group). split.
    + simpl. apply list_elem_of_fmap. eauto.
    + apply list_elem_of_lookup. exists i. rewrite list_lookup_imap, Hg. done.
Qed.

Lemma numbered_samples {A} (groups : list (list A)) :
  (numbered groups).*2 = concat groups.
Proof.
  unfold numbered.
  assert (∀ f : nat → list A → nat * list A,
    (∀ i c, (f i c).2 = c) →
    (imap f groups ≫= λ group, pair group.1 <$> group.2).*2 = concat groups) as Hgen.
  { induction groups as [|c groups IH]; intros f Hf; [done|].
    rewrite imap_cons, bind_cons, fmap_app. simpl.
    rewrite (IH (f ∘ S)) by (intros; apply Hf).
    f_equal. rewrite Hf. generalize (f 0 c).1. intros k.
    induction c as [|s c IHc]; [done|]. csimpl. by rewrite IHc. }
  by apply Hgen.
Qed.

(** *** The first loop *)

Local Abbreviation first_loop :=
  (foldl (λ (d : list (string * group_names)) (p : nat * string),
            dict_set d p.2 (GroupNames ("group" +:+ pretty p.1) None))).

Lemma first_loop_keys l : ∀ d k,
  k ∈ (first_loop d l).*1 ↔ k ∈ d.*1 ∨ k ∈ l.*2.
Proof.
  induction l as [|[i s] l IH]; intros d k; csimpl.
  - rewrite elem_of_nil. naive_solver.
  - rewrite IH, dict_set_keys, elem_of_cons.
    destruct (decide (s ∈ d.*1)); [naive_solver|].
    rewrite elem_of_app, list_elem_of_singleton. naive_solver.
Qed.

Lemma first_loop_unset l : ∀ d,
  (∀ k v, dict_get d k = Ok v → top_lvl_groups v = None) →
  ∀ k v, dict_get (first_loop d l) k = Ok v → top_lvl_groups v = None.
Proof.
  induction l as [|[i s] l IH]; intros d Hd; [done|].
  simpl. apply IH. intros k v. rewrite dict_get_set.
  case_decide; [by intros [= <-]|apply Hd].
Qed.

Lemma first_loop_other l : ∀ d k,
  k ∉ l.*2 → dict_get (first_loop d l) k = dict_get d k.
Proof.
  induction l as [|[i s] l IH]; intros d k Hk; [done|].
  csimpl in *. apply not_elem_of_cons in Hk as [Hne Hk].
  rewrite IH by done. rewrite dict_get_set. by rewrite decide_False.
Qed.

Lemma first_loop_group l : ∀ d i k,
  NoDup l.*2 → (i, k) ∈ l →
  dict_get (first_loop d l) k = Ok (GroupNames ("group" +:+ pretty i) None).
Proof.
  induction l as [|[i0 s0] l IH]; intros d i k Hnodup Hin.
  - by apply elem_of_nil in Hin.
  - csimpl in *. apply NoDup_cons in Hnodup as [Hnotin Hnodup].
    apply elem_of_cons in Hin as [[= -> ->]|Hin]; [|by apply IH].
    rewrite first_loop_other by done. rewrite dict_get_set. by rewrite decide_True.
Qed.

Lemma first_loop_fresh l : ∀ d,
  NoDup (d.*1 ++ l.*2) → (first_loop d l).*1 = d.*1 ++ l.*2.
Proof.
  induction l as [|[i s] l IH]; intros d Hnodup; csimpl in *.
  - by rewrite app_nil_r.
  - assert (s ∉ d.*1) as Hs.
    { apply NoDup_app in Hnodup as (_ & Hdisj & _). intros Hin.
      apply (Hdisj s Hin). left. }
    rewrite IH; rewrite dict_set_keys, decide_False by done.
    + by rewrite <- app_assoc.
    + by rewrite <- app_assoc.
Qed.

(** *** The second loop *)

Local Abbreviation second_loop :=
  (foldl_result (λ (d : list (string * group_names)) (p : nat * string),
                   set_top_lvl_group p.1 d p.2)).

Lemma second_loop_cases l : ∀ d,
  (∃ d', second_loop d l = Ok d' ∧ d'.*1 = d.*1 ∧
     (∀ k, k ∈ l.*2 → k ∈ d.*1) ∧
     ∀ k v', dict_get d' k = Ok v' →
       ∃ v, dict_get d k = Ok v ∧ all_groups v' = all_groups v ∧
         ((∃ j, (j, k) ∈ l ∧
                top_lvl_groups v' = Some ("top_lvl_group" +:+ pretty j)) ∨
          (k ∉ l.*2 ∧ top_lvl_groups v' = top_lvl_groups v))) ∨
  (second_loop d l = Raise KeyError ∧ ∃ k, k ∈ l.*2 ∧ k ∉ d.*1).
Proof.
  induction l as [|[j s] l IH]; intros d.
  - left. exists d. split_and!; [done..| |].
    + intros k []%elem_of_nil.
    + intros k v' Hv'. exists v'. split_and!; [done..|]. right.
      split; [apply not_elem_of_nil|done].
  - csimpl.
    destruct (dict_get_cases d s) as [(names & Hnames & Hs)|[Hraise Hs]].
    + set (new := GroupNames (all_groups names) (Some ("top_lvl_group" +:+ pretty j))).
      assert (set_top_lvl_group j d s = Ok (dict_set d s new)) as Hstep.
      { unfold set_top_lvl_group. by rewrite Hnames. }
      rewrite !Hstep. cbn [bind].
      assert ((dict_set d s new).*1 = d.*1) as Hkeys.
      { by rewrite dict_set_keys, decide_True. }
      destruct (IH (dict_set d s new))
        as [(d' & Hrun & Hkeys' & Hall & Hvals)|[Hrun (k & Hk & Hnotin)]];
        rewrite Hrun.
      * left. exists d'. rewrite Hkeys in Hkeys', Hall. split_and!; [done..| |].
        { intros k [->|Hk]%elem_of_cons; auto. }
        intros k v' Hv'. destruct (Hvals k v' Hv') as (v1 & Hv1 & Hgroups & Htop).
        rewrite dict_get_set in Hv1. destruct (decide (s = k)) as [->|Hne].
        -- injection Hv1 as <-. exists names. split_and!; [done..|]. left.
           destruct Htop as [(j' & Hj' & Htop)|[Hk Htop]].
           ++ exists j'. split; [by right|done].
           ++ exists j. split; [left|done].
        -- exists v1. split_and!; [done..|].
           destruct Htop as [(j' & Hj' & Htop)|[Hk Htop]].
           ++ left. exists j'. split; [by right|done].
           ++ right. split; [|done]. by apply not_elem_of_cons.
      * right. split; [done|]. exists k. rewrite Hkeys in Hnotin.
        split; [by right|done].
    + assert (set_top_lvl_group j d s = Raise KeyError) as Hstep.
      { unfold set_top_lvl_group. by rewrite Hraise. }
      rewrite !Hstep. right. split; [done|]. exists s. split; [left|done].
Qed.

(** *** The third loop *)

Lemma print_rows_cases d keys :
  ((print_rows d keys).2 = Ok () ∧
   Forall2 (λ k line, ∃ v top, dict_get d k = Ok v ∧ top_lvl_groups v = Some top ∧
                        line = k +:+ tab +:+ all_groups v +:+ tab +:+ top)
     keys (print_rows d keys).1) ∨
  ((print_rows d keys).2 = Raise KeyError ∧
   ∃ k, k ∈ keys ∧ ∀ v, dict_get d k = Ok v → top_lvl_groups v = None).
Proof.
  induction keys as [|k keys IH]; simpl.
  - left. split; [done|constructor].
  - unfold format_row.
    destruct (dict_get_cases d k) as [(v & Hv & _)|[Hraise _]].
    + rewrite Hv. cbn [bind]. destruct (top_lvl_groups v) as [top|] eqn:Htop; simpl.
      * destruct IH as [[Hok Hall]|[Hexn (k' & Hk' & Hnone)]].
        -- left. split; [done|]. constructor; [|done]. eauto.
        -- right. split; [done|]. exists k'. split; [by right|done].
      * right. split; [done|]. exists k. split; [left|]. intros v' Hv'. congruence.
    + rewrite Hraise. simpl. right. split; [done|]. exists k. split; [left|].
      intros v' Hv'. congruence.
Qed.

Lemma print_cluster_names_unfold cs ts :
  print_cluster_names cs ts =
  match second_loop (first_loop [] (numbered cs)) (numbered ts) with
  | Ok d => print_rows d d.*1
  | Raise e => ([], Raise e)
  end.
Proof.
  unfold print_cluster_names, numbered.
  rewrite (foldl_numbered
             (λ i d sample, dict_set d sample (GroupNames ("group" +:+ pretty i) None))).
  by rewrite (foldl_result_numbered set_top_lvl_group).
Qed.

Lemma print_cluster_names_cases cs ts :
  (∃ s, s ∈ concat ts ∧ s ∉ concat cs ∧
        print_cluster_names cs ts = ([], Raise KeyError)) ∨
  ((∀ s, s ∈ concat ts → s ∈ concat cs) ∧
   (∃ s, s ∈ concat cs ∧ s ∉ concat ts) ∧
   (print_cluster_names cs ts).2 = Raise KeyError) ∨
  ((∀ s, s ∈ concat ts ↔ s ∈ concat cs) ∧
   (print_cluster_names cs ts).2 = Ok () ∧
   Forall2 (λ k line, ∃ i j c t,
              cs !! i = Some c ∧ k ∈ c ∧ ts !! j = Some t ∧ k ∈ t ∧
              (NoDup (concat cs) →
               line = k +:+ tab +:+ "group" +:+ pretty i +:+ tab +:+
                      "top_lvl_group" +:+ pretty j))
     (first_loop [] (numbered cs)).*1 (print_cluster_names cs ts).1).
Proof.
  rewrite print_cluster_names_unfold.
  set (d1 := first_loop [] (numbered cs)).
  assert (∀ k, k ∈ d1.*1 ↔ k ∈ concat cs) as Hkeys1.
  { intros k. unfold d1. rewrite first_loop_keys, numbered_samples.
    rewrite elem_of_nil. naive_solver. }
  assert (∀ k v, dict_get d1 k = Ok v → top_lvl_groups v = None) as Hunset.
  { apply first_loop_unset. intros k v. done. }
  destruct (second_loop_cases (numbered ts) d1)
    as [(d2 & -> & Hkeys2 & Hall & Hvals)|[-> (k & Hk & Hnotin)]].
  - rewrite numbered_samples in Hall.
    assert (∀ s, s ∈ concat ts → s ∈ concat cs) as Hsub.
    { intros s Hs. by apply Hkeys1, Hall. }
    right. destruct (print_rows_cases d2 d2.*1) as [[Hok Hrows]|[Hexn (k & Hk & Hnone)]].
    + right.
      assert (∀ s, s ∈ concat cs → s ∈ concat ts) as Hsup.
      { intros s Hs. apply Hkeys1 in Hs. rewrite <- Hkeys2 in Hs.
        apply list_elem_of_lookup in Hs as [n Hn].
        destruct (Forall2_lookup_l _ _ _ _ _ Hrows Hn) as (line & _ & v' & top & Hv' & Htop & _).
        destruct (Hvals s v' Hv') as (v & Hv & _ & [(j & Hj & _)|[_ Heq]]).
        - rewrite <- numbered_samples. apply list_elem_of_fmap. by exists (j, s).
        - rewrite (Hunset s v Hv) in Heq. congruence. }
      split_and!; [by split; auto|done|].
      rewrite <- Hkeys2. eapply Forall2_impl; [done|].
      intros s line (v' & top & Hv' & Htop & ->). simpl.
      destruct (Hvals s v' Hv') as (v & Hv & Hgroups & [(j & Hj & Htop')|[_ Heq]]);
        [|rewrite (Hunset s v Hv) in Heq; congruence].
      apply elem_of_numbered in Hj as (t & Ht & Hst).
      assert (s ∈ (numbered cs).*2) as ([i s'] & -> & Hi)%list_elem_of_fmap.
      { rewrite numbered_samples. apply Hkeys1, dict_get_Ok. eauto. }
      pose proof Hi as (c & Hc & Hsc)%elem_of_numbered.
      exists i, j, c, t. split_and!; [done..|]. intros Hnodup.
      rewrite <- numbered_samples in Hnodup.
      unfold d1 in Hv. rewrite (first_loop_group _ _ i s' Hnodup Hi) in Hv.
      injection Hv as <-. simpl in *.
      rewrite Hgroups. rewrite Htop in Htop'. by injection Htop' as ->.
    + left. split; [done|]. split; [|done].
      exists k. rewrite Hkeys2 in Hk. split; [by apply Hkeys1|].
      intros Hin. rewrite <- Hkeys2 in Hk. apply dict_get_Ok in Hk as [v' Hv'].
      destruct (Hvals k v' Hv') as (v & Hv & _ & [(j & Hj & Htop)|[Hout _]]).
      * rewrite (Hnone v' Hv') in Htop. done.
      * apply Hout. by rewrite numbered_samples.
  - left. exists k. rewrite numbered_samples in Hk. split_and!; [done| |done].
    by rewrite <- Hkeys1.
Qed.

(** X19.  [print_cluster_names] ends normally exactly when the two
    groupings list the same sample names; otherwise it raises KeyError,
    and when a name of a top-level group is in no cluster nothing is
    printed before. *)
Theorem print_cluster_names_key_error cs ts :
  ((print_cluster_names cs ts).2 = Ok () ↔ ∀ s, s ∈ concat ts ↔ s ∈ concat cs) ∧
  ((print_cluster_names cs ts).2 = Ok () ∨
   (print_cluster_names cs ts).2 = Raise KeyError) ∧
  ((∃ s, s ∈ concat ts ∧ s ∉ concat cs) → (print_cluster_names cs ts).1 = []).
Proof.
  destruct (print_cluster_names_cases cs ts)
    as [(s & Hts & Hcs & Hrun)|[(Hsub & (s & Hcs & Hts) & Hrun)|(Hsame & Hrun & _)]].
  - rewrite Hrun. simpl. split_and!; [|by right|done].
    split; [done|]. intros Hsame. by apply Hsame in Hts.
  - rewrite Hrun. split_and!; [|by right|].
    + split; [done|]. intros Hsame. by apply Hsame in Hcs.
    + intros (s' & Hts' & Hcs'). by apply Hsub in Hts'.
  - rewrite Hrun. split_and!; [done|by left|].
    intros (s & Hts & Hcs). by apply Hsame in Hts.
Qed.

Lemma print_cluster_names_lines cs ts :
  NoDup (concat cs) → (∀ s, s ∈ concat ts ↔ s ∈ concat cs) →
  ∃ lines,
    print_cluster_names cs ts = (lines, Ok ()) ∧
    Forall2 (λ p line, ∃ j t,
               ts !! j = Some t ∧ p.2 ∈ t ∧
               line = p.2 +:+ tab +:+ "group" +:+ pretty p.1 +:+ tab +:+
                      "top_lvl_group" +:+ pretty j)
      (numbered cs) lines.
Proof.
  intros Hnodup Hsame.
  destruct (print_cluster_names_cases cs ts)
    as [(s & Hts & Hcs & _)|[(_ & (s & Hcs & Hts) & _)|(_ & Hrun & Hrows)]].
  - by apply Hsame in Hts.
  - by apply Hsame in Hcs.
  - exists (print_cluster_names cs ts).1. split.
    { destruct (print_cluster_names cs ts) as [lines r]. simpl in *. by rewrite Hrun. }
    rewrite first_loop_fresh in Hrows by by rewrite app_nil_l, numbered_samples.
    rewrite app_nil_l in Hrows. apply Forall2_fmap_l in Hrows.
    apply Forall2_same_length_lookup. split; [by eapply Forall2_length|].
    intros n [i s] line Hp Hline.
    destruct (Forall2_lookup_lr _ _ _ _ _ _ Hrows Hp Hline)
      as (i' & j & c & t & Hc & Hsc & Ht & Hst & Heq).
    simpl in *. exists j, t. split_and!; [done..|].
    rewrite (Heq Hnodup). do 4 f_equal.
    (* the group of [s] is the one it is listed in *)
    apply list_elem_of_lookup_2, elem_of_numbered in Hp as (c' & Hc' & Hsc').
    destruct (NoDup_concat_inv cs Hnodup) as [_ Hdisj].
    by rewrite (Hdisj i' i c c' s).
Qed.

(** X20.  When no name is listed twice among the clusters and the two
    groupings list the same names, [print_cluster_names] prints one line
    per name, in the order of the clusters: the name, a tab, "group" and
    the position of its cluster, a tab, "top_lvl_group" and the position
    of a top-level group that lists the name. *)
Theorem print_cluster_names_rows cs ts :
  NoDup (concat cs) → (∀ s, s ∈ concat ts ↔ s ∈ concat cs) →
  ∃ lines,
    print_cluster_names cs ts = (lines, Ok ()) ∧
    Forall2 (λ p line, ∃ j t,
               ts !! j = Some t ∧ p.2 ∈ t ∧
               line = p.2 +:+ tab +:+ "group" +:+ pretty p.1 +:+ tab +:+
                      "top_lvl_group" +:+ pretty j)
      (numbered cs) lines.
Proof. apply print_cluster_names_lines. Qed.

Lemma print_cluster_names_rows_witness :
  ∃ lines,
    print_cluster_names [["A"; "B"]; ["C"]] [["A"]; ["B"; "C"]] = (lines, Ok ()) ∧
    Forall2 (λ p line, ∃ j t,
               [["A"]; ["B"; "C"]] !! j = Some t ∧ p.2 ∈ t ∧
               line = p.2 +:+ tab +:+ "group" +:+ pretty p.1 +:+ tab +:+
                      "top_lvl_group" +:+ pretty j)
      (numbered [["A"; "B"]; ["C"]]) lines.
Proof.
  apply (print_cluster_names_rows [["A"; "B"]; ["C"]] [["A"]; ["B"; "C"]]).
  - compute_done.
  - intros s. simpl. set_solver.
Defined.

(** * The whole run *)

Lemma get_cluster_members_length hclust n_samples table :
  get_cluster_members hclust n_samples = Ok table →
  length table = n_samples + length hclust.
Proof.
  unfold get_cluster_members. intros Hrun.
  destruct (get_cluster_members_loop_cases hclust ((λ x, [x]) <$> seq 0 n_samples))
    as [(table' & Htable & Hlen & _)|[Hexn _]]; [|congruence].
  rewrite Hrun in Htable. injection Htable as <-.
  by rewrite length_fmap, length_seq in Hlen.
Qed.

Section whole_run.
Variable rng : Type.
Variable random_choice : rng → nat → list nat * rng.
Variable hierarchical_clustering : list (list npfloat) → result (list linkage_row).
Variable random_seed : nat → rng.
Variable cut_tree : list linkage_row → nat → list nat.
Variable plot_dendro_with_bootstrap_values :
  list linkage_row → list npfloat → list string → result unit.

Local Abbreviation run_main :=
  (main rng random_choice hierarchical_clustering random_seed cut_tree
     plot_dendro_with_bootstrap_values).

(** The steps of [main] when it reaches [print_cluster_names]. *)
Lemma main_steps bcf_file samples records min_snvs max_prop_missing n_bootstrap
    processes threshold schedule init st out :
  run_main bcf_file samples records min_snvs max_prop_missing n_bootstrap processes
    threshold schedule init st = out →
  (∃ e, out = ([], Raise e)) ∨
  ∃ differences kept hclust_out st' table replicates collapsed top_lvl names top_names,
    vcfToMatrix.get_diff_matrix_from_bcf bcf_file samples records min_snvs
      max_prop_missing = Ok (differences, kept) ∧
    main_clustering rng random_choice hierarchical_clustering differences st
      = Ok (hclust_out, st') ∧
    get_cluster_members hclust_out (length kept) = Ok table ∧
    get_bootstrap_cluster_members rng random_choice hierarchical_clustering random_seed
      differences n_bootstrap processes schedule init = Ok replicates ∧
    plot_dendro_with_bootstrap_values hclust_out
      (vcfToMatrix.calculate_bootstrap_values table replicates) kept = Ok () ∧
    vcfToMatrix.collapse_clusters table
      (vcfToMatrix.calculate_bootstrap_values table replicates) threshold
      = Ok collapsed ∧
    vcfToMatrix.collapse_top_lvl_clusters cut_tree hclust_out
      (vcfToMatrix.calculate_bootstrap_values table replicates) threshold
      = Ok top_lvl ∧
    vcfToMatrix.clusters_with_names kept collapsed = Ok names ∧
    vcfToMatrix.clusters_with_names kept top_lvl = Ok top_names ∧
    out = print_cluster_names names top_names.
Proof.
  unfold main. intros <-.
  destruct (vcfToMatrix.get_diff_matrix_from_bcf _ _ _ _ _) as [[differences kept]|e] eqn:Hstep1;
    [|left; by eexists]. cbn [bind fst snd].
  destruct (main_clustering _ _ _ _ _) as [[hclust_out st']|e] eqn:Hstep2;
    [|left; by eexists]. cbn [bind fst snd].
  destruct (get_cluster_members _ _) as [table|e] eqn:Hstep3; [|left; by eexists]. cbn [bind].
  destruct (get_bootstrap_cluster_members _ _ _ _ _ _ _ _ _) as [replicates|e] eqn:Hstep4;
    [|left; by eexists]. cbn [bind].
  destruct (plot_dendro_with_bootstrap_values _ _ _) as [[]|e] eqn:Hstep5;
    [|left; by eexists]. cbn [bind].
  destruct (vcfToMatrix.collapse_clusters _ _ _) as [collapsed|e] eqn:Hstep6;
    [|left; by eexists]. cbn [bind].
  destruct (vcfToMatrix.collapse_top_lvl_clusters _ _ _ _) as [top_lvl|e] eqn:Htop;
    [|left; by eexists]. cbn [bind].
  destruct (vcfToMatrix.clusters_with_names kept collapsed) as [names|e] eqn:Hnames;
    [|left; by eexists]. cbn [bind].
  destruct (vcfToMatrix.clusters_with_names kept top_lvl) as [top_names|e] eqn:Htn;
    [|left; by eexists]. cbn [bind fst snd].
  right. exists differences, kept, hclust_out, st', table, replicates, collapsed,
    top_lvl, names, top_names. split_and!; first [reflexivity|eassumption].
Qed.

(** X21.  [main] ends normally only when the support of the root of the
    tree meets the threshold, or the tree has no merge: otherwise the
    single top-level group lists node ids and the lookup of their names
    raises. *)
Theorem main_needs_supported_root bcf_file samples records min_snvs max_prop_missing n_bootstrap
    processes threshold schedule init st lines :
  run_main bcf_file samples records min_snvs max_prop_missing n_bootstrap processes
    threshold schedule init st = (lines, Ok ()) →
  ∃ differences kept hclust_out st' table replicates top,
    vcfToMatrix.get_diff_matrix_from_bcf bcf_file samples records min_snvs
      max_prop_missing = Ok (differences, kept) ∧
    main_clustering rng random_choice hierarchical_clustering differences st
      = Ok (hclust_out, st') ∧
    get_cluster_members hclust_out (length kept) = Ok table ∧
    get_bootstrap_cluster_members rng random_choice hierarchical_clustering random_seed
      differences n_bootstrap processes schedule init = Ok replicates ∧
    last (vcfToMatrix.calculate_bootstrap_values table replicates) = Some top ∧
    (ge_float top threshold = true ∨ hclust_out = []).
Proof.
  intros Hrun. apply main_steps in Hrun as [[e [=]]|Hrun].
  destruct Hrun as (differences & kept & hclust_out & st' & table & replicates
    & collapsed & top_lvl & names & top_names & Hdiff & Hclust & Htable & Hboot & _
    & _ & Htop & _ & Htn & _).
  exists differences, kept, hclust_out, st', table, replicates.
  set (values := vcfToMatrix.calculate_bootstrap_values table replicates) in *.
  destruct (last values) as [top|] eqn:Hlast.
  - exists top. split_and!; [done..|].
    destruct (ge_float top threshold) eqn:Hge; [by left|right].
    destruct (decide (hclust_out = [])) as [|Hne]; [done|exfalso].
    destruct (top_level_fallback_not_samples cut_tree (length kept) hclust_out values
                threshold top kept) as (group & Hgroup & _ & Hraise); [done..| |done|done|].
    { unfold values. rewrite calculate_bootstrap_values_length.
      by apply get_cluster_members_length. }
    rewrite Hgroup in Htop. injection Htop as <-. congruence.
  - apply last_None in Hlast. rewrite Hlast in Htop. done.
Qed.

End whole_run.

Lemma main_needs_supported_root_witness :
  ∃ differences kept hclust_out st' table replicates top,
    vcfToMatrix.get_diff_matrix_from_bcf "in.bcf" ["A"; "B"]
      [[[Some 0; Some 0]; [Some 0; Some 1]]; [[Some 0; Some 1]; [Some 1; Some 1]]]
      1 0.9 = Ok (differences, kept) ∧
    main_clustering nat demo.random_choice demo.hierarchical_clustering differences 0
      = Ok (hclust_out, st') ∧
    get_cluster_members hclust_out (length kept) = Ok table ∧
    get_bootstrap_cluster_members nat demo.random_choice demo.hierarchical_clustering
      demo.random_seed differences 2 1 [(0, 0); (0, 1)] (λ _, 0) = Ok replicates ∧
    last (vcfToMatrix.calculate_bootstrap_values table replicates) = Some top ∧
    (ge_float top 0.99 = true ∨ hclust_out = []).
Proof.
  apply (main_needs_supported_root nat demo.random_choice demo.hierarchical_clustering
           demo.random_seed demo.cut_tree demo.plot_dendro_with_bootstrap_values
           "in.bcf" ["A"; "B"]
           [[[Some 0; Some 0]; [Some 0; Some 1]]; [[Some 0; Some 1]; [Some 1; Some 1]]]
           1 0.9 2 1 0.99 [(0, 0); (0, 1)] (λ _, 0) 0
           ["B" +:+ tab +:+ "group0" +:+ tab +:+ "top_lvl_group1";
            "A" +:+ tab +:+ "group1" +:+ tab +:+ "top_lvl_group0"]).
  vm_compute. reflexivity.
Defined.

Lemma collapse_partition_table n_samples hclust table replicates threshold :
  wf_merge_tree n_samples hclust → is_table n_samples hclust table →
  (0 < threshold)%Q → replicates ≠ [] →
  ∃ out,
    vcfToMatrix.collapse_clusters table
      (vcfToMatrix.calculate_bootstrap_values table replicates) threshold = Ok out ∧
    concat out ≡ₚ seq 0 n_samples.
Proof.
  intros Hwf Htable Hpos Hne.
  set (values := vcfToMatrix.calculate_bootstrap_values table replicates).
  assert (Hlen : length values = length table)
    by apply calculate_bootstrap_values_length.
  assert (Hnan : NaN ∉ values) by by apply calculate_bootstrap_values_no_NaN.
  destruct (collapse_run_tree n_samples hclust table values threshold)
    as (final & ids & out & Hout & Hnone & Houtside & Hrule & Hnodup & Hids & Hall);
    [done..|].
  exists out. split; [done|].
  apply (collapse_output_samples n_samples hclust table Hwf Htable values threshold final
           Hlen Hnone Houtside Hrule ids out); [|done| |done].
  - intros s b Hs Hb. destruct Htable as (_ & Hleaf & _).
    rewrite (singleton_support_zero table replicates s [s] b); [|by auto|done|done].
    apply ge_float_zero_support; [done|]. by destruct replicates.
  - intros c. rewrite Hids. split; [by eauto|]. intros [k Hk].
    by apply (stored_id_boundary n_samples hclust table Hwf Htable values
                threshold final Hlen Hnone Houtside Hrule k).
Qed.

Lemma clusters_with_names_Ok (samples : list string) groups :
  (∀ x, x ∈ concat groups → x < length samples) →
  ∃ names,
    vcfToMatrix.clusters_with_names samples groups = Ok names ∧
    Forall2 (Forall2 (λ x name, samples !! x = Some name)) groups names.
Proof.
  intros Hrange. unfold vcfToMatrix.clusters_with_names.
  apply traverse_Forall2. intros group Hgroup.
  apply traverse_Forall2. intros x Hx.
  destruct (lookup_lt_is_Some_2 samples x) as [name Hname].
  { apply Hrange, elem_of_concat. eauto. }
  exists name. split; [by apply index_lookup|done].
Qed.

Lemma Forall2_concat_groups {A B} (R : A → B → Prop) gs hs :
  Forall2 (Forall2 R) gs hs → Forall2 R (concat gs) (concat hs).
Proof. induction 1; simpl; [constructor|by apply Forall2_app]. Qed.

Lemma Forall2_numbered {A B} (R : A → B → Prop) gs hs :
  Forall2 (Forall2 R) gs hs →
  Forall2 (λ p q, p.1 = q.1 ∧ R p.2 q.2) (numbered gs) (numbered hs).
Proof.
  unfold numbered. intros Hall.
  cut (∀ k, Forall2 (λ p q, p.1 = q.1 ∧ R p.2 q.2)
              (imap (λ i c, (k + i, c)) gs ≫= λ group, pair group.1 <$> group.2)
              (imap (λ i c, (k + i, c)) hs ≫= λ group, pair group.1 <$> group.2)).
  { intros Hcut. apply (Hcut 0). }
  induction Hall as [|g h gs hs Hgh _ IH]; intros k; [constructor|].
  rewrite !imap_cons, !bind_cons. apply Forall2_app.
  - simpl. apply Forall2_fmap. eapply Forall2_impl; [done|]. by intros x y ?.
  - rewrite (imap_ext _ (λ i c, (S k + i, c)) gs) by (intros; simpl; f_equal; lia).
    rewrite (imap_ext _ (λ i c, (S k + i, c)) hs) by (intros; simpl; f_equal; lia).
    apply IH.
Qed.

Section whole_run_success.
Variable rng : Type.
Variable random_choice : rng → nat → list nat * rng.
Variable hierarchical_clustering : list (list npfloat) → result (list linkage_row).
Variable random_seed : nat → rng.
Variable cut_tree : list linkage_row → nat → list nat.
Variable plot_dendro_with_bootstrap_values :
  list linkage_row → list npfloat → list string → result unit.

(** X22.  A run of [main] that gets through.  When the quality filter
    keeps samples with distinct names, the linkage of the samples is a
    well-formed tree, the pool returns at least one replicate, the plot
    succeeds, the threshold is positive and met by the support of the
    root, and [cut_tree] labels every kept sample 0 or 1, then [main]
    ends normally and prints one line per kept sample: for every cluster
    of [collapse_clusters], in its order, and every sample of the
    cluster, the name of the sample, "group" and the position of the
    cluster, "top_lvl_group" and the label of the sample; the clusters
    are a partition of the kept samples. *)
Theorem main_lists_every_sample bcf_file samples records min_snvs max_prop_missing n_bootstrap
    processes threshold schedule init st differences kept hclust_out st' table
    replicates top :
  vcfToMatrix.get_diff_matrix_from_bcf bcf_file samples records min_snvs
    max_prop_missing = Ok (differences, kept) →
  NoDup kept →
  main_clustering rng random_choice hierarchical_clustering differences st
    = Ok (hclust_out, st') →
  wf_merge_tree (length kept) hclust_out →
  get_cluster_members hclust_out (length kept) = Ok table →
  get_bootstrap_cluster_members rng random_choice hierarchical_clustering random_seed
    differences n_bootstrap processes schedule init = Ok replicates →
  replicates ≠ [] →
  plot_dendro_with_bootstrap_values hclust_out
    (vcfToMatrix.calculate_bootstrap_values table replicates) kept = Ok () →
  (0 < threshold)%Q →
  last (vcfToMatrix.calculate_bootstrap_values table replicates) = Some top →
  ge_float top threshold = true →
  length (cut_tree hclust_out 2) = length kept →
  Forall (λ label, label < 2) (cut_tree hclust_out 2) →
  ∃ collapsed lines,
    vcfToMatrix.collapse_clusters table
      (vcfToMatrix.calculate_bootstrap_values table replicates) threshold
      = Ok collapsed ∧
    is_partition (length kept) collapsed ∧
    main rng random_choice hierarchical_clustering random_seed cut_tree
      plot_dendro_with_bootstrap_values bcf_file samples records min_snvs
      max_prop_missing n_bootstrap processes threshold schedule init st
      = (lines, Ok ()) ∧
    Forall2 (λ p line, ∃ name label,
               kept !! p.2 = Some name ∧ cut_tree hclust_out 2 !! p.2 = Some label ∧
               line = name +:+ tab +:+ "group" +:+ pretty p.1 +:+ tab +:+
                      "top_lvl_group" +:+ pretty label)
      (numbered collapsed) lines.
Proof.
  intros Hdiff Hnames Hclust Hwf Htable Hboot Hne Hplot Hpos Hlast Hge Hlabels_len
    Hlabels.
  pose proof (get_cluster_members_is_table _ _ _ Hwf Htable) as Hist.
  set (values := vcfToMatrix.calculate_bootstrap_values table replicates) in *.
  destruct (collapse_partition_table (length kept) hclust_out table replicates threshold)
    as (collapsed & Hcollapsed & Hperm); [done..|]. fold values in Hcollapsed.
  destruct (top_level_split cut_tree hclust_out values threshold top)
    as (first & second & Htop & Hfirst & Hsecond & Hperm2); [done..|].
  rewrite Hlabels_len in Hperm2.
  destruct (clusters_with_names_Ok kept collapsed) as (names & Hn & Hnames_all).
  { intros x Hx. rewrite Hperm in Hx. apply elem_of_seq in Hx. lia. }
  destruct (clusters_with_names_Ok kept [first; second]) as (top_names & Htn & Htop_all).
  { intros x Hx. simpl in Hx. rewrite app_nil_r, Hperm2 in Hx.
    apply elem_of_seq in Hx. lia. }
  exists collapsed.
  (* the names of the two groupings *)
  pose proof (Forall2_concat_groups _ _ _ Hnames_all) as Hflat.
  pose proof (Forall2_concat_groups _ _ _ Htop_all) as Hflat_top.
  assert (∀ s, s ∈ concat names ↔ s ∈ kept) as Hcover.
  { intros s. split.
    - intros [n Hn']%list_elem_of_lookup.
      destruct (Forall2_lookup_r _ _ _ _ _ Hflat Hn') as (x & _ & Hx).
      by eapply list_elem_of_lookup_2.
    - intros [x Hx]%list_elem_of_lookup.
      assert (x ∈ concat collapsed) as [n Hn']%list_elem_of_lookup.
      { rewrite Hperm. apply elem_of_seq. apply lookup_lt_Some in Hx. lia. }
      destruct (Forall2_lookup_l _ _ _ _ _ Hflat Hn') as (s' & Hs' & Hx').
      rewrite Hx in Hx'. injection Hx' as <-. by eapply list_elem_of_lookup_2. }
  assert (∀ s, s ∈ concat top_names ↔ s ∈ kept) as Hcover_top.
  { intros s. split.
    - intros [n Hn']%list_elem_of_lookup.
      destruct (Forall2_lookup_r _ _ _ _ _ Hflat_top Hn') as (x & _ & Hx).
      by eapply list_elem_of_lookup_2.
    - intros [x Hx]%list_elem_of_lookup.
      assert (x ∈ concat [first; second]) as [n Hn']%list_elem_of_lookup.
      { simpl. rewrite app_nil_r, Hperm2. apply elem_of_seq.
        apply lookup_lt_Some in Hx. lia. }
      destruct (Forall2_lookup_l _ _ _ _ _ Hflat_top Hn') as (s' & Hs' & Hx').
      rewrite Hx in Hx'. injection Hx' as <-. by eapply list_elem_of_lookup_2. }
  assert (NoDup (concat names)) as Hnodup.
  { apply NoDup_alt. intros a b s Ha Hb.
    destruct (Forall2_lookup_r _ _ _ _ _ Hflat Ha) as (x & Hxa & Hx).
    destruct (Forall2_lookup_r _ _ _ _ _ Hflat Hb) as (y & Hyb & Hy).
    rewrite (NoDup_lookup kept x y s Hnames Hx Hy) in Hxa.
    assert (NoDup (concat collapsed)) as Hnd by (rewrite Hperm; apply NoDup_seq).
    by apply (NoDup_lookup _ _ _ _ Hnd Hxa Hyb). }
  destruct (print_cluster_names_lines names top_names) as (lines & Hprint & Hlines);
    [done|by intros s; rewrite Hcover, Hcover_top|].
  exists lines. split_and!; [done|by apply partition_of_permutation| |].
  - unfold main. rewrite Hdiff. cbn [bind fst snd]. rewrite Hclust. cbn [bind fst snd].
    rewrite Htable. cbn [bind]. rewrite Hboot. cbn [bind]. fold values.
    rewrite Hplot. cbn [bind]. rewrite Hcollapsed. cbn [bind]. rewrite Htop.
    cbn [bind]. rewrite Hn. cbn [bind]. rewrite Htn. cbn [bind fst snd]. done.
  - pose proof (Forall2_numbered _ _ _ Hnames_all) as Hnum.
    apply Forall2_same_length_lookup. split.
    { rewrite (Forall2_length _ _ _ Hnum). by eapply Forall2_length. }
    intros n [i x] line Hp Hline.
    destruct (Forall2_lookup_l _ _ _ _ _ Hnum Hp) as ([i' s] & Hq & Hi & Hx).
    simpl in Hi, Hx. subst i'.
    destruct (Forall2_lookup_lr _ _ _ _ _ _ Hlines Hq Hline) as (j & t & Ht & Hst & ->).
    simpl in *. exists s, j. split_and!; [done| |done].
    (* the top-level group of [s] is the label of [x] *)
    destruct (Forall2_lookup_r _ _ _ _ _ Htop_all Ht) as (group & Hgroup & Hgt).
    apply list_elem_of_lookup in Hst as [m Hm].
    destruct (Forall2_lookup_r _ _ _ _ _ Hgt Hm) as (y & Hy & Hys).
    rewrite (NoDup_lookup kept y x s Hnames Hys Hx) in Hy.
    apply list_elem_of_lookup_2 in Hy.
    destruct j as [|[|j]]; simplify_eq/=.
    + by apply Hfirst.
    + by apply Hsecond.
Qed.

End whole_run_success.

Lemma main_lists_every_sample_witness :
  ∃ collapsed lines,
    vcfToMatrix.collapse_clusters [[0]; [1]; [0; 1]]
      (vcfToMatrix.calculate_bootstrap_values [[0]; [1]; [0; 1]]
         [[[0]; [1]; [0; 1]]; [[0]; [1]; [0; 1]]]) 0.99
      = Ok collapsed ∧
    is_partition (length ["A"; "B"]) collapsed ∧
    main nat demo.random_choice demo.hierarchical_clustering demo.random_seed
      demo.cut_tree demo.plot_dendro_with_bootstrap_values "in.bcf" ["A"; "B"]
      [[[Some 0; Some 0]; [Some 0; Some 1]]; [[Some 0; Some 1]; [Some 1; Some 1]]]
      1 0.9 2 1 0.99 [(0, 0); (0, 1)] (λ _, 0) 0
      = (lines, Ok ()) ∧
    Forall2 (λ p line, ∃ name label,
               ["A"; "B"] !! p.2 = Some name ∧
               demo.cut_tree [LinkageRow 0 1 (Num (2 # 4)) 2] 2 !! p.2 = Some label ∧
               line = name +:+ tab +:+ "group" +:+ pretty p.1 +:+ tab +:+
                      "top_lvl_group" +:+ pretty label)
      (numbered collapsed) lines.
Proof.
  apply (main_lists_every_sample nat demo.random_choice demo.hierarchical_clustering
           demo.random_seed demo.cut_tree demo.plot_dendro_with_bootstrap_values
           "in.bcf" ["A"; "B"]
           [[[Some 0; Some 0]; [Some 0; Some 1]]; [[Some 0; Some 1]; [Some 1; Some 1]]]
           1 0.9 2 1 0.99 [(0, 0); (0, 1)] (λ _, 0) 0
           (Tensor 2 [[[Num 0; Num 1]; [Num 1; Num 0]]; [[Num 0; Num 1]; [Num 1; Num 0]]])
           ["A"; "B"] [LinkageRow 0 1 (Num (2 # 4)) 2] 0 [[0]; [1]; [0; 1]]
           [[[0]; [1]; [0; 1]]; [[0]; [1]; [0; 1]]] (Num (2 # 2))).
  - vm_compute. reflexivity.
  - compute_done.
  - vm_compute. reflexivity.
  - split; [|compute_done]. intros [|i] row [=]; subst; simpl; lia.
  - reflexivity.
  - vm_compute. reflexivity.
  - discriminate.
  - reflexivity.
  - reflexivity.
  - vm_compute. reflexivity.
  - reflexivity.
  - reflexivity.
  - repeat constructor.
Defined.

(** X23.  When the file has records but no sample has a called genotype
    at [min_snvs_for_cluster] of the retained loci, [main] exits with the
    message of [sys.exit] and prints nothing. *)
Theorem main_exits_without_samples (rng : Type)
    (random_choice : rng → nat → list nat * rng)
    (hierarchical_clustering : list (list npfloat) → result (list linkage_row))
    (random_seed : nat → rng) (cut_tree : list linkage_row → nat → list nat)
    (plot_dendro_with_bootstrap_values :
       list linkage_row → list npfloat → list string → result unit)
    bcf_file samples records min_snvs max_prop_missing n_bootstrap processes threshold
    schedule init st :
  records ≠ [] →
  Forall (λ calls : list (list (option nat)), length calls = length samples) records →
  (∀ i, i < length samples →
     (Z.of_nat (n_called (retained_loci samples records max_prop_missing) i)
      < min_snvs)%Z) →
  main rng random_choice hierarchical_clustering random_seed cut_tree
    plot_dendro_with_bootstrap_values bcf_file samples records min_snvs
    max_prop_missing n_bootstrap processes threshold schedule init st
  = ([], Raise (SystemExit ("No clusters with at least " +:+ pretty min_snvs
                            +:+ " SNVs for " +:+ bcf_file))).
Proof.
  intros Hne Hrec Hfew. unfold main, vcfToMatrix.get_diff_matrix_from_bcf.
  rewrite filtered_differences_unfold by done. cbn [bind].
  destruct (filtered_tensor samples records min_snvs max_prop_missing Hrec)
    as (_ & Hcols & _).
  pose proof (filtered_samples samples records min_snvs max_prop_missing Hrec) as Hkept.
  destruct (filter_diff_matrix _ _ _) as [differences kept]. simpl in *.
  assert (kept = []) as ->.
  { rewrite Hkept. apply elem_of_nil_inv. intros s Hs.
    apply list_elem_of_fmap in Hs as ([i s'] & _ & Hp).
    apply list_elem_of_filter in Hp as [Hmin Hp]. simpl in Hmin.
    apply list_elem_of_lookup in Hp as [k Hk].
    apply list_lookup_imap_Some in Hk as (s'' & Hk & [= -> ->]).
    apply lookup_lt_Some in Hk. specialize (Hfew k Hk). lia. }
  simpl in Hcols. rewrite decide_True by done. done.
Qed.

Lemma main_exits_without_samples_witness :
  main nat demo.random_choice demo.hierarchical_clustering demo.random_seed
    demo.cut_tree demo.plot_dendro_with_bootstrap_values "in.bcf" ["A"; "B"]
    [[[Some 0; Some 1]; [Some 1]]] 1000 0.9 2 1 0.99 [(0, 0); (0, 1)] (λ _, 0) 0
  = ([], Raise (SystemExit ("No clusters with at least " +:+ pretty 1000%Z
                            +:+ " SNVs for " +:+ "in.bcf"))).
Proof.
  apply (main_exits_without_samples nat demo.random_choice demo.hierarchical_clustering
           demo.random_seed demo.cut_tree demo.plot_dendro_with_bootstrap_values
           "in.bcf" ["A"; "B"] [[[Some 0; Some 1]; [Some 1]]] 1000 0.9 2 1 0.99
           [(0, 0); (0, 1)] (λ _, 0) 0).
  - discriminate.
  - repeat constructor.
  - intros [|[|i]] Hi; [vm_compute; reflexivity..|simpl in Hi; lia].
Defined.

(** * The membership resolver and the order of the children *)

Lemma merge_sort_app_comm (ma mb : list nat) :
  merge_sort le (ma ++ mb) = merge_sort le (mb ++ ma).
Proof.
  apply (Sorted_unique le).
  - apply (Sorted_merge_sort le).
  - apply (Sorted_merge_sort le).
  - rewrite !merge_sort_Permutation. apply Permutation_app_comm.
Qed.

Lemma merged_members_same acc row row' :
  same_merge row row' → merged_members acc row = merged_members acc row'.
Proof.
  intros [[H1 H2]|[H1 H2]]; unfold merged_members, children; simpl;
    rewrite H1, H2; [done|].
  unfold index.
  destruct (acc !! child2 row') as [mb|], (acc !! child1 row') as [ma|]; simpl; try done.
  rewrite !app_nil_r. f_equal. apply merge_sort_app_comm.
Qed.

(** X24.  The membership table depends on the linkage only through the
    pairs of children: the heights and the counts of the rows are not read,
    and because every merged list is sorted, naming the two children of a
    row in the other order gives the same table, or the same failure. *)
Theorem get_cluster_members_ignores_order hclust hclust' n_samples :
  Forall2 same_merge hclust hclust' →
  get_cluster_members hclust n_samples = get_cluster_members hclust' n_samples.
Proof.
  unfold get_cluster_members. generalize ((λ x, [x]) <$> seq 0 n_samples).
  intros acc Hall. revert acc.
  induction Hall as [|row row' hclust hclust' Hrow _ IH]; intros acc; [done|].
  simpl. rewrite (merged_members_same acc row row' Hrow).
  destruct (merged_members acc row'); simpl; [apply IH|done].
Qed.

Lemma get_cluster_members_ignores_order_witness :
  get_cluster_members
    [LinkageRow 0 1 (Num 0.1) 2; LinkageRow 2 3 (Num 0.1) 2; LinkageRow 4 5 (Num 1) 4] 4
  = get_cluster_members
      [LinkageRow 1 0 (Num 0.3) 2; LinkageRow 2 3 (Num 0.2) 2; LinkageRow 5 4 (Num 2) 4] 4.
Proof.
  apply (get_cluster_members_ignores_order
           [LinkageRow 0 1 (Num 0.1) 2; LinkageRow 2 3 (Num 0.1) 2;
            LinkageRow 4 5 (Num 1) 4]
           [LinkageRow 1 0 (Num 0.3) 2; LinkageRow 2 3 (Num 0.2) 2;
            LinkageRow 5 4 (Num 2) 4] 4).
  repeat apply Forall2_cons_2; [by right|by left|by right|apply Forall2_nil_2].
Defined.

(** * The quality filter applied twice *)

Lemma at_positions_seq {A} (l : list A) : at_positions l (seq 0 (length l)) = l.
Proof.
  apply list_eq. intros i.
  rewrite at_positions_lookup by (apply Forall_forall; intros p ?%elem_of_seq; lia).
  destruct (l !! i) as [x|] eqn:Hx.
  - rewrite lookup_seq_lt by (by eapply lookup_lt_Some). done.
  - apply lookup_ge_None in Hx. by rewrite lookup_seq_ge.
Qed.

Lemma where_true_all {A} (P : A → Prop) `{∀ x, Decision (P x)} (l : list A) :
  Forall P l → where_true P l = seq 0 (length l).
Proof.
  induction 1 as [|x l Hx _ IH]; [done|].
  rewrite where_true_cons, decide_True by done. rewrite IH. simpl.
  by rewrite fmap_S_seq.
Qed.

Lemma where_true_lookup {A} (P : A → Prop) `{∀ x, Decision (P x)} (l : list A) i :
  i ∈ where_true P l → ∃ x, l !! i = Some x ∧ P x.
Proof.
  unfold where_true. intros ([j x] & -> & Hin)%list_elem_of_fmap.
  apply list_elem_of_filter in Hin as [HP Hin].
  apply list_elem_of_lookup in Hin as [k Hk].
  apply list_lookup_imap_Some in Hk as (y & Hy & [= <- <-]).
  simpl in *. eauto.
Qed.

Lemma n_comps_kept n differences keep i j p q :
  Forall (difference_matrix n) (slices differences) → Forall (λ p, p < n) keep →
  keep !! i = Some p → keep !! j = Some q →
  n_comps (Tensor (length keep)
             ((λ m, (λ row, at_positions row keep) <$> at_positions m keep)
                <$> slices differences)) i j
  = n_comps differences p q.
Proof.
  intros Hd Hkeep Hp Hq. unfold n_comps. simpl. rewrite length_filter_fmap.
  apply length_filter_ext. eapply Forall_impl; [done|]. intros m Hm. simpl.
  by rewrite (entry_kept n m keep i j Hm Hkeep), Hp, Hq.
Qed.

(** X25.  The quality filter is idempotent.  Dropping a sample removes its
    row and its column from every locus but leaves the diagonal counts of
    the samples that stay as they were, so filtering the filtered tensor and
    the kept names again with the same minimum returns them unchanged. *)
Theorem filter_diff_matrix_idempotent differences samples min_snvs :
  difference_tensor differences → length samples = n_cols differences →
  filter_diff_matrix (filter_diff_matrix differences samples min_snvs).1
    (filter_diff_matrix differences samples min_snvs).2 min_snvs
  = filter_diff_matrix differences samples min_snvs.
Proof.
  intros Hd Hlen. set (filtered := filter_diff_matrix differences samples min_snvs).
  set (counts := (λ i, n_comps differences i i) <$> seq 0 (n_cols differences)).
  set (keep := where_true (λ n : nat, (min_snvs ≤ Z.of_nat n)%Z) counts).
  assert (Forall (λ p, p < n_cols differences) keep) as Hkeep.
  { eapply Forall_impl; [apply where_true_Forall_lt|].
    intros p. simpl. unfold counts. by rewrite length_fmap, length_seq. }
  assert (filtered =
          (Tensor (length keep)
             ((λ m, (λ row, at_positions row keep) <$> at_positions m keep)
                <$> slices differences),
           at_positions samples keep)) as Hfiltered by done.
  rewrite Hfiltered. unfold filter_diff_matrix at 1. cbv zeta. simpl.
  set (counts' := (λ i, n_comps _ i i) <$> seq 0 (length keep)).
  assert (where_true (λ n : nat, (min_snvs ≤ Z.of_nat n)%Z) counts'
          = seq 0 (length keep)) as ->.
  { rewrite where_true_all; [unfold counts'; by rewrite length_fmap, length_seq|].
    apply Forall_fmap, Forall_forall. intros i [_ Hi]%elem_of_seq. simpl in *.
    destruct (lookup_lt_is_Some_2 keep i Hi) as [p Hp].
    rewrite (n_comps_kept (n_cols differences) differences keep i i p p) by done.
    assert (p ∈ keep) as Hin by by eapply list_elem_of_lookup_2.
    apply where_true_lookup in Hin as (c & Hc & Hmin).
    unfold counts in Hc. rewrite list_lookup_fmap in Hc.
    destruct (seq 0 (n_cols differences) !! p) as [i'|] eqn:Hseq; simplify_eq/=.
    apply lookup_seq in Hseq as [-> _]. done. }
  rewrite length_seq. f_equal.
  - f_equal. rewrite <- list_fmap_compose. apply list_fmap_ext.
    intros k m Hm. simpl.
    assert (difference_matrix (n_cols differences) m) as Hshape.
    { unfold difference_tensor in Hd. rewrite Forall_lookup in Hd. eauto. }
    pose proof (kept_matrix (n_cols differences) m keep Hshape Hkeep)
      as (Hrows & Hcols & _).
    set (kept := (λ row, at_positions row keep) <$> at_positions m keep) in *.
    assert (at_positions kept (seq 0 (length keep)) = kept) as ->
      by (rewrite <- Hrows; apply at_positions_seq).
    rewrite <- (list_fmap_id kept) at 2.
    apply Forall_fmap_ext_1. eapply Forall_impl; [exact Hcols|].
    intros row Hrow. simpl. rewrite <- Hrow. apply at_positions_seq.
  - rewrite <- (at_positions_length samples keep) at 1
      by (by rewrite Hlen).
    apply at_positions_seq.
Qed.

Lemma filter_diff_matrix_idempotent_witness :
  filter_diff_matrix
    (filter_diff_matrix
       (Tensor 2 [[[Num 0; NaN]; [NaN; NaN]]; [[Num 0; Num 1]; [Num 1; Num 0]];
                  [[Num 0; NaN]; [NaN; NaN]]]) ["A"; "B"] 2).1
    (filter_diff_matrix
       (Tensor 2 [[[Num 0; NaN]; [NaN; NaN]]; [[Num 0; Num 1]; [Num 1; Num 0]];
                  [[Num 0; NaN]; [NaN; NaN]]]) ["A"; "B"] 2).2 2
  = (Tensor 1 [[[Num 0]]; [[Num 0]]; [[Num 0]]], ["A"]).
Proof.
  rewrite (filter_diff_matrix_idempotent
             (Tensor 2 [[[Num 0; NaN]; [NaN; NaN]]; [[Num 0; Num 1]; [Num 1; Num 0]];
                        [[Num 0; NaN]; [NaN; NaN]]]) ["A"; "B"] 2).
  - reflexivity.
  - unfold difference_tensor. simpl.
    repeat apply Forall_cons_2; [..|apply Forall_nil_2].
    all: split_and!; [done|by repeat apply Forall_cons_2| | |].
    all: try (intros [|[|i]] [|[|j]]; vm_compute; first [done|by left|idtac]).
    all: try (intros [|[|i]]; vm_compute; first [by left|idtac]).
    all: right; eexists; (split; [reflexivity|]); by vm_compute.
  - reflexivity.
Defined.
